(** * The speech pipeline of DatabaseBridge: segmenter, deduplicator and
      playback-aware scheduler

    Shallow embedding of [src/components/DatabaseBridge.tsx] (the bridge with
    diarization and translation) and of [src/unnamed/part_001] (the bridge
    with voice styles and throat-clear fillers).

    Conventions.
    - A JavaScript string is the list of its UTF-16 code units ([N]).
    - [Date.now()] is an integer number of milliseconds ([Z]); the fields of
      the audio streamer state are IEEE-754 binary64 numbers ([float]).
    - An [async] function is cut at its [await]s: one turn of the event loop
      runs from one suspension to the next, and nothing else runs inside a
      turn. *)

From Stdlib Require Import List ZArith NArith Bool Lia Floats.
From Stdlib Require String Ascii DecimalNat.
Import ListNotations String.StringSyntax.

Set Implicit Arguments.
Set Warnings "-inexact-float".

(* ===================================================================== *)
(** * JavaScript strings                                                *)
(* ===================================================================== *)

Definition jschar := N.
Definition jsstring := list jschar.

Bind Scope string_scope with String.string.

(** An ASCII literal as a JavaScript string. *)
Definition str (s : String.string) : jsstring :=
  List.map Ascii.N_of_ascii (String.list_ascii_of_string s).

Definition LF : jschar := 10%N.
Definition CR : jschar := 13%N.

(** The code units that [String.prototype.trim] strips and that [\s]
    matches: WhiteSpace and LineTerminator of ECMA-262. *)
Definition isWhiteSpace (c : jschar) : bool :=
  ((9 <=? c) && (c <=? 13) || (c =? 32) || (c =? 160) || (c =? 5760)
   || (8192 <=? c) && (c <=? 8202) || (c =? 8232) || (c =? 8233)
   || (c =? 8239) || (c =? 8287) || (c =? 12288) || (c =? 65279))%N.

Fixpoint trimStart (s : jsstring) : jsstring :=
  match s with
  | [] => []
  | c :: r => if isWhiteSpace c then trimStart r else s
  end.

Definition trimEnd (s : jsstring) : jsstring := rev (trimStart (rev s)).

(** [s.trim()] *)
Definition trim (s : jsstring) : jsstring := trimEnd (trimStart s).

(** [!s] for a string: only the empty string is falsy. *)
Definition falsy (s : jsstring) : bool :=
  match s with [] => true | _ => false end.

(** [!scriptedText || !scriptedText.trim()] *)
Definition blank (s : jsstring) : bool := falsy s || falsy (trim s).

Definition startsWithLF (s : jsstring) : bool :=
  match s with c :: _ => (c =? LF)%N | [] => false end.

(** [text.split(/\r?\n+/)], as a left-to-right scan.  [cur] is the piece
    being read.  [inSep] says that the previous code unit was a line feed of
    a separator, so that a line feed now extends that separator ([\n+] is
    greedy).  A separator starts at a line feed, or at a carriage return
    that a line feed follows; a carriage return elsewhere is ordinary
    text. *)
Fixpoint splitLines (inSep : bool) (cur s : jsstring) : list jsstring :=
  match s with
  | [] => [cur]
  | c :: r =>
      if (c =? LF)%N then
        if inSep then splitLines true [] r else cur :: splitLines true [] r
      else if (c =? CR)%N && startsWithLF r then cur :: splitLines true [] r
      else splitLines false (cur ++ [c]) r
  end.

Definition split_lines_regex (text : jsstring) : list jsstring :=
  splitLines false [] text.

(** DatabaseBridge.tsx and part_001, lines 23-26:
    [if (!text) return [];
     return text.split(/\r?\n+/).map(t => t.trim()).filter(t => t.length > 0);] *)
Definition segmentText (text : jsstring) : list jsstring :=
  if falsy text then []
  else filter (fun t => negb (falsy t)) (List.map trim (split_lines_regex text)).

(* ===================================================================== *)
(** * The audio streamer state                                          *)
(* ===================================================================== *)

Record AudioStreamerState := mkAudio {
  endOfQueueTime : float;
  duration : float
}.

(** [currentState.endOfQueueTime > preSendState.endOfQueueTime + 0.1] *)
Definition arrived (preSendState currentState : AudioStreamerState) : bool :=
  PrimFloat.ltb (PrimFloat.add (endOfQueueTime preSendState) 0.1%float)
                (endOfQueueTime currentState).

(** [state.duration < 3.0] *)
Definition lowWater (state : AudioStreamerState) : bool :=
  PrimFloat.ltb (duration state) 3%float.

(* ===================================================================== *)
(** * Speaker labels, voice styles and the two bridges                  *)
(* ===================================================================== *)

Definition jseq (a b : jsstring) : bool :=
  if list_eq_dec N.eq_dec a b then true else false.

(** A literal of lower-case ASCII letters matched under the [i] flag: a
    code unit matches a letter when it is that letter in either case.
    (Without the [u] flag no code unit above 127 folds to an ASCII one.) *)
Fixpoint matchIgnoreCase (pat s : jsstring) : option jsstring :=
  match pat, s with
  | [], _ => Some s
  | _ :: _, [] => None
  | p :: pat', c :: s' =>
      if ((c =? p) || (c + 32 =? p))%N then matchIgnoreCase pat' s' else None
  end.

Definition isDigit (c : jschar) : bool := ((48 <=? c) && (c <=? 57))%N.

(** DatabaseBridge.tsx line 165:
    [scriptedText.replace(/^(Male|Female) \d:\s*/i, '')] *)
Definition stripSpeakerLabel (scriptedText : jsstring) : jsstring :=
  let afterName :=
    match matchIgnoreCase (str "male") scriptedText with
    | Some r => Some r
    | None => matchIgnoreCase (str "female") scriptedText
    end in
  match afterName with
  | Some (sp :: d :: colon :: r) =>
      if ((sp =? 32) && isDigit d && (colon =? 58))%N then trimStart r
      else scriptedText
  | _ => scriptedText
  end.

(** state.ts line 15: [type VoiceStyle = 'natural' | 'breathy' | 'dramatic'] *)
Inductive VoiceStyle := natural | breathy | dramatic.

Definition filler : jsstring := str "(clears throat)".

(** part_001 lines 147-154: the style annotation of the head of the queue. *)
Definition styledText (style : VoiceStyle) (rawText : jsstring) : jsstring :=
  if jseq rawText filler then rawText
  else match style with
       | breathy => str "(soft inhale) " ++ rawText ++ str " ... (pause)"
       | dramatic => str "(slowly) " ++ rawText ++ str " ... (long pause)"
       | natural => rawText
       end.

(** What differs between the two scheduler loops: the text handed to the
    synthesis call for a queue head, and the text the fallback sends. *)
Record bridge := mkBridge {
  scriptOf : VoiceStyle -> jsstring -> jsstring;
  fallbackText : jsstring -> jsstring
}.

(** DatabaseBridge.tsx: line 150 [scriptedText = queueRef.current[0]],
    lines 165-166 [client.send([{ text: cleanText }])]. *)
Definition DatabaseBridge : bridge :=
  mkBridge (fun _ rawText => rawText) stripSpeakerLabel.

(** part_001: lines 144-154 and line 173
    [client.send([{ text: scriptedText }])]. *)
Definition DatabaseBridge_v1 : bridge :=
  mkBridge styledText (fun scriptedText => scriptedText).

(* ===================================================================== *)
(** * Ingestion: the duplicate gate and the queueing of segments        *)
(* ===================================================================== *)

(** lib/supabase (part_000, lines 18-26), the fields the bridge reads and
    the timestamp it does not read.  [full_transcript_text] is [None] for a
    row whose text is [null] or missing. *)
Record Transcript := mkTranscript {
  id : jsstring;
  full_transcript_text : option jsstring;
  updated_at : jsstring
}.

Inductive verdict := NoText | Stale | Accepted (source : jsstring).

(** DatabaseBridge.tsx lines 205-208, part_001 lines 222-225:
    [const source = data.full_transcript_text;
     if (!data || !source) return;
     if (lastProcessedIdRef.current === data.id) return;] *)
Definition gate (data : Transcript) (lastProcessedId : option jsstring)
  : verdict :=
  match full_transcript_text data with
  | None => NoText
  | Some source =>
      if falsy source then NoText
      else match lastProcessedId with
           | Some last => if jseq last (id data) then Stale else Accepted source
           | None => Accepted source
           end
  end.

(** The refs of the ingestion side; [segmentQueue] is [queueRef.current],
    the queue that the scheduler loop drains. *)
Record refs := mkRefs {
  lastProcessedIdRef : option jsstring;
  paragraphCountRef : Z;
  segmentQueue : list jsstring
}.

(** [paragraphCountRef.current += 1] on a binary64 number that holds an
    integer: exact below 2^53, where the sum rounds back to 2^53. *)
Definition plusOne (n : Z) : Z := if (n <? 2 ^ 53)%Z then (n + 1)%Z else n.

(** part_001 lines 239-245: the [forEach] over the segments. *)
Fixpoint enqueue (segments q : list jsstring) (count : Z)
  : list jsstring * Z :=
  match segments with
  | [] => (q, count)
  | seg :: rest =>
      let q1 := q ++ [seg] in
      let count1 := plusOne count in
      let q2 := if ((0 <? count1) && (Z.rem count1 3 =? 0))%Z
                then q1 ++ [filler] else q1 in
      enqueue rest q2 count1
  end.

(** part_001 lines 221-248, up to the call of [processQueueLoop]. *)
Definition processNewData_v1 (data : Transcript) (r : refs) : refs * verdict :=
  match gate data (lastProcessedIdRef r) with
  | Accepted source =>
      let (q, n) :=
        enqueue (segmentText source) (segmentQueue r) (paragraphCountRef r) in
      (mkRefs (Some (id data)) n q, Accepted source)
  | v => (r, v)
  end.

(** DatabaseBridge.tsx lines 204-221: up to the [await] of the diarization. *)
Definition processNewData (data : Transcript) (r : refs) : refs * verdict :=
  match gate data (lastProcessedIdRef r) with
  | Accepted source =>
      (mkRefs (Some (id data)) (paragraphCountRef r) (segmentQueue r),
       Accepted source)
  | v => (r, v)
  end.

(** DatabaseBridge.tsx lines 227-233: after the diarization has answered. *)
Definition processNewData_queue (diarizedScript : jsstring) (r : refs) : refs :=
  mkRefs (lastProcessedIdRef r) (paragraphCountRef r)
    (segmentQueue r ++ segmentText diarizedScript).

(** A sequence of updates through the gate: the ids accepted, in order, and
    the last accepted id at the end. *)
Fixpoint feed (updates : list Transcript) (last : option jsstring)
  : list jsstring * option jsstring :=
  match updates with
  | [] => ([], last)
  | data :: rest =>
      match gate data last with
      | Accepted _ =>
          let (ids, last') := feed rest (Some (id data)) in
          (id data :: ids, last')
      | _ => feed rest last
      end
  end.

(* ===================================================================== *)
(** * The words of the specification, for the gate and the segmenter    *)
(* ===================================================================== *)

(** Equality of two cells of the last accepted id is decidable. *)
Definition option_eq_dec_js (a b : option jsstring) : {a = b} + {a <> b}.
Proof. decide equality. apply (list_eq_dec N.eq_dec). Defined.

(** An update whose text is missing or empty. *)
Definition noText (data : Transcript) : Prop :=
  full_transcript_text data = None \/ full_transcript_text data = Some [].

(** The updates that carry a text. *)
Definition hasText (data : Transcript) : bool :=
  match full_transcript_text data with
  | Some (_ :: _) => true
  | _ => false
  end.

(** No id directly follows itself in [prev :: ids]. *)
Fixpoint noRepeat (prev : option jsstring) (ids : list jsstring) : Prop :=
  match ids with
  | [] => True
  | i :: rest => prev <> Some i /\ noRepeat (Some i) rest
  end.

(** A sequence of ids without the ids that repeat their predecessor. *)
Fixpoint squeeze (prev : option jsstring) (ids : list jsstring)
  : list jsstring :=
  match ids with
  | [] => []
  | i :: rest =>
      if option_eq_dec_js prev (Some i) then squeeze prev rest
      else i :: squeeze (Some i) rest
  end.

(** The lines of a text: its pieces between line feeds. *)
Fixpoint linesFrom (cur s : jsstring) : list jsstring :=
  match s with
  | [] => [cur]
  | c :: r =>
      if (c =? LF)%N then cur :: linesFrom [] r else linesFrom (cur ++ [c]) r
  end.

Definition spec_lines (text : jsstring) : list jsstring := linesFrom [] text.

(** A line is non-empty when something is left of it once trimmed. *)
Definition spec_nonEmptyLines (text : jsstring) : list jsstring :=
  filter (fun l => negb (falsy (trim l))) (spec_lines text).

(** With [count] segments queued so far, the [k]-th segment of this update
    is the [count + k]-th of the pipeline; a filler follows every third. *)
Definition spec_withFillers (count : Z) (segs : list jsstring)
  : list jsstring :=
  flat_map
    (fun ks : nat * jsstring =>
       if ((count + Z.of_nat (fst ks)) mod 3 =? 0)%Z
       then [snd ks; filler] else [snd ks])
    (combine (seq 1 (length segs)) segs).

(** A string that does not start with white space. *)
Definition clean (s : jsstring) : Prop := trimStart s = s.

(* ===================================================================== *)
(** * The collaborators of the scheduler                                *)
(* ===================================================================== *)

(** What the loop reads and calls, over a state [W] of the outside world.
    Reads are functions of the world of the current turn; the world moves
    at an [await] and at [client.send]. *)
Class LiveAPI (W : Type) := {
  (** [client.status === 'connected'] *)
  connected : W -> bool;
  getAudioStreamerState : W -> AudioStreamerState;
  (** [Date.now()] *)
  now : W -> Z;
  (** [voiceStyleRef.current] *)
  voiceStyle : W -> VoiceStyle;
  (** [await generateMultiSpeakerAudio(script)] (part_001:
      [await processTextAndGenerateAudio(script)]): the function catches
      its own errors and answers [true] or [false]. *)
  generateMultiSpeakerAudio : jsstring -> W -> bool * W;
  (** [client.send([{ text }])]; [None] when the call throws. *)
  client_send : jsstring -> W -> option W;
  (** [await new Promise(resolve => setTimeout(resolve, ms))] *)
  setTimeout : Z -> W -> W
}.

Inductive event :=
| EvStatus (isConnected : bool)
| EvGetState (state : AudioStreamerState)
| EvSynth (script : jsstring)
| EvSynthResult (success : bool)
| EvSend (text : jsstring)
| EvShift (removed : option jsstring)
| EvPush (seg : jsstring)
| EvSleep (ms : Z)
| EvWarn
| EvError.

Inductive exit := Drained | Disconnected | Threw | Busy.

(** Where an activation of [processQueueLoop] is suspended. *)
Inductive point :=
| AwaitSynth (scriptedText : jsstring) (preSendState : AudioStreamerState)
| AwaitArrival (preSendState : AudioStreamerState) (waitStart : Z)
| AwaitPipeline
| Exited (e : exit).

Record config (W : Type) := mkConfig {
  queueRef : list jsstring;
  isProcessingRef : bool;
  world : W;
  at_ : point;
  trace : list event
}.

Section Scheduler.
Context {W : Type} {API : LiveAPI W}.
Variable B : bridge.

(** DatabaseBridge.tsx lines 144-161, part_001 lines 137-169: the [while]
    test, the safety check, the peek, the script, the skip of a blank head
    (which goes back to the test in the same turn), the snapshot and the
    synthesis call.  [p] is [isProcessingRef.current]. *)
Fixpoint loopTop (q : list jsstring) (p : bool) (w : W) (tr : list event)
  : config W :=
  match q with
  | [] => mkConfig [] false w (Exited Drained) tr
  | rawText :: rest =>
      if negb (connected w) then
        mkConfig q false w (Exited Disconnected) (tr ++ [EvStatus false])
      else
        let scriptedText := scriptOf B (voiceStyle w) rawText in
        if blank scriptedText then
          loopTop rest p w (tr ++ [EvStatus true; EvShift (Some rawText)])
        else
          let preSendState := getAudioStreamerState w in
          mkConfig q p w (AwaitSynth scriptedText preSendState)
            (tr ++ [EvStatus true; EvGetState preSendState;
                    EvSynth scriptedText])
  end.

(** DatabaseBridge.tsx lines 139-143, part_001 lines 132-136: the entry of
    [processQueueLoop]. *)
Definition processQueueLoop (q : list jsstring) (p : bool) (w : W)
  (tr : list event) : config W :=
  if p then mkConfig q p w (Exited Busy) tr
  else loopTop q true w tr.

(** DatabaseBridge.tsx lines 187-191, part_001 lines 200-208: one round of
    the pipelining wait; at the [break] the loop is back at its test. *)
Definition pipelineCheck (q : list jsstring) (p : bool) (w : W)
  (tr : list event) : config W :=
  let state := getAudioStreamerState w in
  if lowWater state then loopTop q p w (tr ++ [EvGetState state])
  else mkConfig q p w AwaitPipeline (tr ++ [EvGetState state; EvSleep 200]).

(** DatabaseBridge.tsx lines 174-185, part_001 lines 183-196: one round of
    the arrival wait, and the warning after a timeout. *)
Definition arrivalCheck (preSendState : AudioStreamerState) (waitStart : Z)
  (q : list jsstring) (p : bool) (w : W) (tr : list event) : config W :=
  if (now w - waitStart <? 15000)%Z then
    let currentState := getAudioStreamerState w in
    if arrived preSendState currentState then
      pipelineCheck q p w (tr ++ [EvGetState currentState])
    else
      mkConfig q p w (AwaitArrival preSendState waitStart)
        (tr ++ [EvGetState currentState; EvSleep 100])
  else pipelineCheck q p w (tr ++ [EvWarn]).

(** DatabaseBridge.tsx lines 161-172, part_001 lines 169-182: the synthesis
    call answers; the fallback; the shift; the start of the arrival wait.
    A throw of [client.send] goes to [catch] and [finally]. *)
Definition afterSynth (scriptedText : jsstring)
  (preSendState : AudioStreamerState) (q : list jsstring) (p : bool) (w : W)
  (tr : list event) : config W :=
  let (success, w1) := generateMultiSpeakerAudio scriptedText w in
  let tr1 := tr ++ [EvSynthResult success] in
  let shiftAndWait (w2 : W) (tr2 : list event) :=
    arrivalCheck preSendState (now w2) (tl q) p w2
      (tr2 ++ [EvShift (hd_error q)]) in
  if success then shiftAndWait w1 tr1
  else
    let cleanText := fallbackText B scriptedText in
    match client_send cleanText w1 with
    | Some w2 => shiftAndWait w2 (tr1 ++ [EvSend cleanText])
    | None =>
        mkConfig q false w1 (Exited Threw) (tr1 ++ [EvSend cleanText; EvError])
    end.

(** One turn of the event loop for a suspended activation. *)
Definition resume (c : config W) : config W :=
  match at_ c with
  | AwaitSynth scriptedText preSendState =>
      afterSynth scriptedText preSendState
        (queueRef c) (isProcessingRef c) (world c) (trace c)
  | AwaitArrival preSendState waitStart =>
      arrivalCheck preSendState waitStart
        (queueRef c) (isProcessingRef c) (setTimeout 100 (world c)) (trace c)
  | AwaitPipeline =>
      pipelineCheck
        (queueRef c) (isProcessingRef c) (setTimeout 200 (world c)) (trace c)
  | Exited _ => c
  end.

(** [n] turns with no other task in between. *)
Definition run (n : nat) (c : config W) : config W := Nat.iter n resume c.

(** A producer ([processNewData], lines 229-231) appends a segment while the
    activation is suspended. *)
Definition push (seg : jsstring) (c : config W) : config W :=
  mkConfig (queueRef c ++ [seg]) (isProcessingRef c) (world c) (at_ c)
    (trace c ++ [EvPush seg]).

Definition exited (c : config W) : bool :=
  match at_ c with Exited _ => true | _ => false end.

Inductive step : config W -> config W -> Prop :=
| step_turn c : exited c = false -> step c (resume c)
| step_push c seg : exited c = false -> step c (push seg c).

Inductive reaches (c0 : config W) : config W -> Prop :=
| reaches_refl : reaches c0 c0
| reaches_step c c' : reaches c0 c -> step c c' -> reaches c0 c'.

End Scheduler.

(** DatabaseBridge.tsx line 57: [const isProcessingRef = useRef(false)]. *)
Definition isProcessingRef_initial : bool := false.

(* ===================================================================== *)
(** * What a trace shows, and the invariant of the loop                 *)
(* ===================================================================== *)

(** The texts handed to the synthesis call, the texts of the fallback, the
    elements removed from the queue and the elements appended, each in the
    order of the trace. *)
Definition submitted (tr : list event) : list jsstring :=
  flat_map (fun e => match e with EvSynth s => [s] | _ => [] end) tr.

Definition fallbacks (tr : list event) : list jsstring :=
  flat_map (fun e => match e with EvSend t => [t] | _ => [] end) tr.

Definition shifted (tr : list event) : list jsstring :=
  flat_map (fun e => match e with EvShift (Some x) => [x] | _ => [] end) tr.

Definition pushed (tr : list event) : list jsstring :=
  flat_map (fun e => match e with EvPush x => [x] | _ => [] end) tr.

Definition nonblank (s : jsstring) : bool := negb (blank s).

(** The answers of the synthesis calls and the connection states read. *)
Definition results (tr : list event) : list bool :=
  flat_map (fun e => match e with EvSynthResult b => [b] | _ => [] end) tr.

Definition statusReads (tr : list event) : list bool :=
  flat_map (fun e => match e with EvStatus b => [b] | _ => [] end) tr.

(** The scripts whose synthesis call answered [false]. *)
Definition failedOf (scripts : list jsstring) (answers : list bool)
  : list jsstring :=
  List.map fst (filter (fun sb => negb (snd sb)) (combine scripts answers)).

Section Waits.
Context {W : Type} {API : LiveAPI W}.

(** The world after [k] timers of [ms] milliseconds. *)
Fixpoint worldAfter (ms : Z) (k : nat) (w : W) : W :=
  match k with
  | O => w
  | S k' => worldAfter ms k' (setTimeout ms w)
  end.

(** The arrival wait goes on at [w]: no timeout yet and no arrival. *)
Definition waiting (preSendState : AudioStreamerState) (waitStart : Z)
  (w : W) : bool :=
  (now w - waitStart <? 15000)%Z
  && negb (arrived preSendState (getAudioStreamerState w)).

(** The events of [k] rounds of a wait that polls every [ms] milliseconds. *)
Fixpoint polls (ms : Z) (k : nat) (w : W) : list event :=
  match k with
  | O => []
  | S k' =>
      EvGetState (getAudioStreamerState w) :: EvSleep ms
      :: polls ms k' (setTimeout ms w)
  end.

(** The event that ends the arrival wait at [w]. *)
Definition arrivalEnd (waitStart : Z) (w : W) : event :=
  if (now w - waitStart <? 15000)%Z
  then EvGetState (getAudioStreamerState w) else EvWarn.

End Waits.

Section Invariant.
Context {W : Type} {API : LiveAPI W}.
Variable B : bridge.

(** [scripted xs ss]: [ss] are the scripts of the elements of [xs], in
    order, each under the voice style of its turn, the blank ones left
    out. *)
Inductive scripted : list jsstring -> list jsstring -> Prop :=
| scripted_nil : scripted [] []
| scripted_skip x xs ss st :
    blank (scriptOf B st x) = true -> scripted xs ss -> scripted (x :: xs) ss
| scripted_call x xs ss st :
    blank (scriptOf B st x) = false -> scripted xs ss ->
    scripted (x :: xs) (scriptOf B st x :: ss).

(** What holds of a queue [q] and a trace [tr] of a loop started on [q0]:
    [pend] is the script handed over whose element is still in the queue,
    [reads] the connection states read since the last removal, [answered]
    says whether the synthesis call for [pend] has answered. *)
Definition base (q0 q : list jsstring) (tr : list event)
  (pend : list jsstring) (reads : list bool) (answered : nat) : Prop :=
  shifted tr ++ q = q0 ++ pushed tr
  /\ (exists ss, submitted tr = ss ++ pend
                 /\ scripted (shifted tr) ss
                 /\ length (results tr) = length ss + answered)
  /\ statusReads tr = repeat true (length (shifted tr)) ++ reads
  /\ fallbacks tr
     = List.map (fallbackText B) (failedOf (submitted tr) (results tr)).

(** The head of the queue is the element whose script is [s]. *)
Definition pendingHead (q : list jsstring) (s : jsstring) : Prop :=
  exists x rest st, q = x :: rest /\ s = scriptOf B st x /\ blank s = false.

Definition invariant (q0 : list jsstring) (c : config W) : Prop :=
  match at_ c with
  | AwaitSynth s _ =>
      isProcessingRef c = true /\ pendingHead (queueRef c) s
      /\ base q0 (queueRef c) (trace c) [s] [true] 0
  | AwaitArrival _ _ | AwaitPipeline =>
      isProcessingRef c = true /\ base q0 (queueRef c) (trace c) [] [] 0
  | Exited Drained =>
      isProcessingRef c = false /\ queueRef c = []
      /\ base q0 (queueRef c) (trace c) [] [] 0
  | Exited Disconnected =>
      isProcessingRef c = false /\ queueRef c <> []
      /\ base q0 (queueRef c) (trace c) [] [false] 0
  | Exited Threw =>
      isProcessingRef c = false
      /\ exists s, pendingHead (queueRef c) s
                   /\ base q0 (queueRef c) (trace c) [s] [true] 1
  | Exited Busy => False
  end.

End Invariant.

Section Drain.
Context {W : Type}.
Variable B : bridge.
Variable sc : jsstring -> jsstring.
Variable ok : jsstring -> bool.

(** [c] is the end of a loop that has gone through the whole of [q] since
    the trace [tr], with [sc] the script of an element and [ok] the answer
    of the synthesis call for a script. *)
Definition drained (tr : list event) (q : list jsstring) (c : config W)
  : Prop :=
  at_ c = Exited Drained /\ queueRef c = [] /\ isProcessingRef c = false
  /\ shifted (trace c) = shifted tr ++ q
  /\ submitted (trace c) = submitted tr ++ filter nonblank (List.map sc q)
  /\ results (trace c)
     = results tr ++ List.map ok (filter nonblank (List.map sc q))
  /\ fallbacks (trace c)
     = fallbacks tr
       ++ List.map (fallbackText B)
            (filter (fun s => negb (ok s)) (filter nonblank (List.map sc q))).

End Drain.

(** The activation has handed the head of the queue to the synthesis call
    and has not removed it: it awaits the answer, or the fallback threw. *)
Definition midCall (W : Type) (c : config W) : bool :=
  match at_ c with
  | AwaitSynth _ _ | Exited Threw => true
  | _ => false
  end.

(** The connection state read by an iteration that has begun and has not
    removed its element. *)
Definition openRead (W : Type) (c : config W) : list bool :=
  match at_ c with
  | AwaitSynth _ _ | Exited Threw => [true]
  | Exited Disconnected => [false]
  | _ => []
  end.

(* ===================================================================== *)
(** * A simulated world, for concrete runs                              *)
(* ===================================================================== *)

Record sim := mkSim { clock : Z; queuedUntil : float }.

Record scenario := mkScenario {
  adapterOk : jsstring -> bool;
  remaining : Z -> float;
  online : Z -> bool;
  style : VoiceStyle;
  sendThrows : bool
}.

(** A synthesis call takes 300 ms and, when it succeeds, appends one second
    of audio; the fallback appends nothing by itself; a timer fires on
    time. *)
Definition simAPI (S : scenario) : LiveAPI sim := {|
  connected w := online S (clock w);
  getAudioStreamerState w := mkAudio (queuedUntil w) (remaining S (clock w));
  now w := clock w;
  voiceStyle _ := style S;
  generateMultiSpeakerAudio script w :=
    if adapterOk S script
    then (true, mkSim (clock w + 300) (queuedUntil w + 1))
    else (false, mkSim (clock w + 300) (queuedUntil w));
  client_send _ w := if sendThrows S then None else Some w;
  setTimeout ms w := mkSim (clock w + ms) (queuedUntil w)
|}.

Definition calm : scenario :=
  mkScenario (fun _ => true) (fun _ => 0%float) (fun _ => true) breathy false.

Definition sim0 : sim := mkSim 0 0.

(** A buffer that always holds five seconds of audio. *)
Definition stuck : scenario :=
  mkScenario (fun _ => true) (fun _ => 5%float) (fun _ => true) natural false.

(** The same, with the connection lost 300 ms after the start, and with an
    adapter that answers [ok]. *)
Definition dropped (ok : bool) : scenario :=
  mkScenario (fun _ => ok) (fun _ => 5%float) (fun t => (t <? 300)%Z)
    natural false.

(** Three segments, and a world whose adapter fails on the script [b] only,
    with an empty buffer, the connection up and the voice style [st]. *)
Definition segA : jsstring := str "Male 1: A".
Definition segB : jsstring := str "Female 1: B".
Definition segC : jsstring := str "Male 1: C".

Definition failsOn (b : jsstring) (st : VoiceStyle) : scenario :=
  mkScenario (fun s => negb (jseq s b)) (fun _ => 0%float) (fun _ => true)
    st false.

(** A world whose adapter always fails and whose [client.send] throws, with
    an empty buffer and the connection up. *)
Definition sendFails : scenario :=
  mkScenario (fun _ => false) (fun _ => 0%float) (fun _ => true) natural true.

(** A loop started on a simulated world, and its state after [n] turns. *)
Definition startOn (S : scenario) (B : bridge) (q : list jsstring)
  : config sim :=
  @processQueueLoop _ (simAPI S) B q false sim0 [].

Definition simRun (S : scenario) (B : bridge) (q : list jsstring) (n : nat)
  : config sim :=
  @run _ (simAPI S) B n (startOn S B q).

(** A row with a text, for concrete runs. *)
Definition row (i text stamp : String.string) : Transcript :=
  mkTranscript (str i) (Some (str text)) (str stamp).

(** Updates with the ids a, b, a. *)
Definition updates_aba : list Transcript :=
  [row "a" "one" "t1"; row "b" "two" "t2"; row "a" "one" "t1"].

(* ===================================================================== *)
(** * More of the bridge: diarization, deliveries, the effect             *)
(* ===================================================================== *)

(** What [genAI.models.generateContent] gives to [diarizeAndTranslate]: a
    throw, or a response whose [text] may be missing. *)
Inductive flashAnswer := FlashThrows | FlashText (text : option jsstring).

(** DatabaseBridge.tsx lines 60-83:
    [return analysisResponse.text?.trim() || `Male 1: ${text}`], and
    [return `Male 1: ${text}`] in the [catch].  The target language goes
    into the request only. *)
Definition diarizeAndTranslate (answer : flashAnswer) (text : jsstring)
  : jsstring :=
  match answer with
  | FlashText (Some t) =>
      if falsy (trim t) then str "Male 1: " ++ text else trim t
  | _ => str "Male 1: " ++ text
  end.

(** DatabaseBridge.tsx lines 204-233, the whole of [processNewData] but its
    call of [processQueueLoop]: the gate, then the diarization of the
    accepted text, then the queueing of the script. *)
Definition processNewData_full (answer : flashAnswer) (data : Transcript)
  (r : refs) : refs * verdict :=
  match processNewData data r with
  | (r1, Accepted source) =>
      (processNewData_queue (diarizeAndTranslate answer source) r1,
       Accepted source)
  | other => other
  end.

(** What [supabase ... .single()] answers to [fetchLatest]. *)
Record queryResult := mkQuery {
  query_data : option Transcript;
  query_error : bool
}.

(** A row reaches the bridge through the poll (DatabaseBridge.tsx lines
    236-247, part_001 lines 250-261: [if (!error && data)]) or through the
    subscription (lines 263-266, part_001 277-280: [if (payload.new)]). *)
Inductive delivery :=
| Poll (result : queryResult)
| Push (payload_new : option Transcript).

Definition delivered (d : delivery) : option Transcript :=
  match d with
  | Poll result => if query_error result then None else query_data result
  | Push payload_new => payload_new
  end.

(** part_001: a delivery, up to the call of [processQueueLoop]. *)
Definition deliver_v1 (d : delivery) (r : refs) : refs :=
  match delivered d with
  | Some data => fst (processNewData_v1 data r)
  | None => r
  end.

(** DatabaseBridge.tsx: a delivery, with the answer of the diarization. *)
Definition deliver (answer : flashAnswer) (d : delivery) (r : refs) : refs :=
  match delivered d with
  | Some data => fst (processNewData_full answer data r)
  | None => r
  end.

Section Lifecycle.
Context {W : Type} {API : LiveAPI W}.
Variable B : bridge.

(** DatabaseBridge.tsx lines 131-136 and 200-202, part_001 lines 124-129
    and 217-219: the start of the effect.  [configured] is
    [isSupabaseConfigured()], [isConnected] the [connected] of the context,
    [p] the flag before.  The result is the flag after and the activation
    that the effect starts, if any. *)
Definition effectStart (configured isConnected : bool) (q : list jsstring)
  (p : bool) (w : W) (tr : list event) : bool * option (config W) :=
  if negb configured then (p, None)
  else if negb isConnected then (false, None)
  else match q with
       | [] => (false, None)
       | _ :: _ =>
           let c := processQueueLoop B q false w tr in
           (isProcessingRef c, Some c)
       end.

End Lifecycle.

(* ===================================================================== *)
(** * lib/state.ts: the stores                                            *)
(* ===================================================================== *)

(** A number that holds a natural number, as a template literal prints it:
    its decimal digits.  (The counter of [addTool] stays below the length
    of the tool list, far from the numbers that are printed with an
    exponent.) *)
Fixpoint digits (u : Decimal.uint) : jsstring :=
  match u with
  | Decimal.Nil => []
  | Decimal.D0 u' => 48%N :: digits u'
  | Decimal.D1 u' => 49%N :: digits u'
  | Decimal.D2 u' => 50%N :: digits u'
  | Decimal.D3 u' => 51%N :: digits u'
  | Decimal.D4 u' => 52%N :: digits u'
  | Decimal.D5 u' => 53%N :: digits u'
  | Decimal.D6 u' => 54%N :: digits u'
  | Decimal.D7 u' => 55%N :: digits u'
  | Decimal.D8 u' => 56%N :: digits u'
  | Decimal.D9 u' => 57%N :: digits u'
  end.

Definition numberToString (n : nat) : jsstring := digits (Nat.to_uint n).

Module Tools.
Section Tools.
(** [Params] stands for the [any] of [parameters], [Scheduling] for
    [FunctionResponseScheduling]; [objectParameters] is
    [{ type: 'OBJECT', properties: {} }]. *)
Variables Params Scheduling : Type.
Variable objectParameters : Params.
Variable INTERRUPT : Scheduling.

(** state.ts lines 102-108. *)
Record FunctionCall := mkTool {
  name : jsstring;
  description : option jsstring;
  parameters : option Params;
  isEnabled : bool;
  scheduling : option Scheduling
}.

Definition names (tools : list FunctionCall) : list jsstring :=
  List.map name tools.

(** [state.tools.some(tool => tool.name === n)] *)
Definition hasName (n : jsstring) (tools : list FunctionCall) : bool :=
  existsb (fun tool => jseq (name tool) n) tools.

(** state.ts lines 122-128. *)
Definition toggleTool (toolName : jsstring) (tools : list FunctionCall)
  : list FunctionCall :=
  List.map
    (fun tool =>
       if jseq (name tool) toolName
       then mkTool (name tool) (description tool) (parameters tool)
              (negb (isEnabled tool)) (scheduling tool)
       else tool)
    tools.

(** state.ts lines 131-135: the [while] loop of [addTool], with [fuel]
    turns of its body at most; [None] when they do not suffice. *)
Fixpoint searchName (fuel : nat) (tools : list FunctionCall)
  (newToolName : jsstring) (counter : nat) : option jsstring :=
  if hasName newToolName tools then
    match fuel with
    | O => None
    | S fuel' =>
        searchName fuel' tools
          (str "new_function_" ++ numberToString counter) (S counter)
    end
  else Some newToolName.

(** state.ts lines 129-152. *)
Definition addTool (tools : list FunctionCall) : option (list FunctionCall) :=
  match searchName (length tools) tools (str "new_function") 1 with
  | Some newToolName =>
      Some (tools ++ [mkTool newToolName (Some []) (Some objectParameters)
                        true (Some INTERRUPT)])
  | None => None
  end.

(** state.ts lines 153-156. *)
Definition removeTool (toolName : jsstring) (tools : list FunctionCall)
  : list FunctionCall :=
  filter (fun tool => negb (jseq (name tool) toolName)) tools.

(** state.ts lines 157-172. *)
Definition updateTool (oldName : jsstring) (updatedTool : FunctionCall)
  (tools : list FunctionCall) : list FunctionCall :=
  if negb (jseq oldName (name updatedTool))
     && hasName (name updatedTool) tools
  then tools
  else List.map
         (fun tool => if jseq (name tool) oldName then updatedTool else tool)
         tools.

(** The calls of the store, and a sequence of them from the initial list
    (state.ts line 117: [tools: []]). *)
Inductive call :=
| ToggleTool (toolName : jsstring)
| AddTool
| RemoveTool (toolName : jsstring)
| UpdateTool (oldName : jsstring) (updatedTool : FunctionCall).

Definition perform (c : call) (tools : list FunctionCall)
  : option (list FunctionCall) :=
  match c with
  | ToggleTool n => Some (toggleTool n tools)
  | AddTool => addTool tools
  | RemoveTool n => Some (removeTool n tools)
  | UpdateTool old upd => Some (updateTool old upd tools)
  end.

Fixpoint performAll (cs : list call) (tools : list FunctionCall)
  : option (list FunctionCall) :=
  match cs with
  | [] => Some tools
  | c :: rest =>
      match perform c tools with
      | Some tools' => performAll rest tools'
      | None => None
      end
  end.

(** The [n]-th name that [addTool] tries. *)
Definition candidate (n : nat) : jsstring :=
  match n with
  | O => str "new_function"
  | S _ => str "new_function_" ++ numberToString n
  end.

(** StreamingConsole.tsx lines 131-145: what the connection's
    configuration declares, one entry with one function declaration for
    every enabled tool; [config.tools] is set when there is one at
    least. *)
Record FunctionDeclaration := mkDeclaration {
  decl_name : jsstring;
  decl_description : option jsstring;
  decl_parameters : option Params
}.

Record Tool := mkEntry { functionDeclarations : list FunctionDeclaration }.

Definition enabledTools (tools : list FunctionCall) : list Tool :=
  List.map
    (fun tool =>
       mkEntry [mkDeclaration (name tool) (description tool)
                  (parameters tool)])
    (filter isEnabled tools).

Definition configTools (tools : list FunctionCall) : option (list Tool) :=
  match enabledTools tools with
  | [] => None
  | declared => Some declared
  end.

(** The function names of a configuration. *)
Definition declaredNames (config_tools : option (list Tool))
  : list jsstring :=
  match config_tools with
  | None => []
  | Some entries =>
      flat_map (fun e => List.map decl_name (functionDeclarations e)) entries
  end.

End Tools.
End Tools.

Module Settings.
Section Settings.
(** lib/constants, which the store imports. *)
Variables DEFAULT_LIVE_API_MODEL DEFAULT_VOICE : jsstring.

Definition DQUOTE : jschar := 34%N.

(** state.ts lines 17-37: the template literal, line by line.  [speed] is
    not used by it. *)
Definition generateSystemPrompt (language : jsstring) (speed : float)
  : jsstring :=
     [LF]
  ++ str "SYSTEM ROLE: STRICT TEXT-TO-SPEECH & TRANSLATION ENGINE."
     ++ [LF]
  ++ str "TARGET LANGUAGE: ["
     ++ (if falsy language then str "Taglish (Philippines)" else language)
     ++ str "]"
     ++ [LF]
  ++ [LF]
  ++ str "CRITICAL INSTRUCTIONS:"
     ++ [LF]
  ++ str "1. YOU ARE NOT A CHATBOT. Do not engage in conversation. Do "
     ++ str "not say "
     ++ [DQUOTE]
     ++ str "Sure"
     ++ [DQUOTE]
     ++ str ", "
     ++ [DQUOTE]
     ++ str "Here is the translation"
     ++ [DQUOTE]
     ++ str ", or "
     ++ [DQUOTE]
     ++ str "I can help with that"
     ++ [DQUOTE]
     ++ str "."
     ++ [LF]
  ++ str "2. YOUR ONLY TASK: Read the input text aloud in ["
     ++ language
     ++ str "]."
     ++ [LF]
  ++ str "3. IF INPUT IS NOT IN ["
     ++ language
     ++ str "]: Translate it immediately and read the TRANSLATION."
     ++ [LF]
  ++ str "4. IF INPUT IS IN ["
     ++ language
     ++ str "]: Read it exactly as written."
     ++ [LF]
  ++ str "5. PROSODY: Speak naturally with a native accent."
     ++ [LF]
  ++ str "6. IGNORE STAGE DIRECTIONS: Do not read text in parentheses "
     ++ str "() or brackets []. Act them out if possible (e.g., pause for "
     ++ str "[pause]), otherwise silent."
     ++ [LF]
  ++ [LF]
  ++ str "MULTI-SPEAKER PROTOCOL:"
     ++ [LF]
  ++ str "- If the text implies multiple speakers, you will be assigned "
     ++ str "specific voices automatically by the system pipeline."
     ++ [LF]
  ++ str "- Your output must simply be the audio of the translated text."
     ++ [LF]
  ++ [LF]
  ++ str "INPUT: Text"
     ++ [LF]
  ++ str "OUTPUT: Audio of Translated Text"
     ++ [LF].

(** state.ts lines 42-58. *)
Record state := mkState {
  systemPrompt : jsstring;
  model : jsstring;
  voice : jsstring;
  voiceStyle : VoiceStyle;
  language : jsstring;
  speechRate : float;
  backgroundPadEnabled : bool;
  backgroundPadVolume : float
}.

(** state.ts lines 60-67. *)
Definition initial : state :=
  mkState (generateSystemPrompt (str "Taglish (Philippines)") 1%float)
    DEFAULT_LIVE_API_MODEL DEFAULT_VOICE breathy
    (str "Taglish (Philippines)") 1%float false 0.2%float.

(** state.ts lines 68-81. *)
Definition setSystemPrompt (prompt : jsstring) (s : state) : state :=
  mkState prompt (model s) (voice s) (voiceStyle s) (language s)
    (speechRate s) (backgroundPadEnabled s) (backgroundPadVolume s).

Definition setModel (m : jsstring) (s : state) : state :=
  mkState (systemPrompt s) m (voice s) (voiceStyle s) (language s)
    (speechRate s) (backgroundPadEnabled s) (backgroundPadVolume s).

Definition setVoice (v : jsstring) (s : state) : state :=
  mkState (systemPrompt s) (model s) v (voiceStyle s) (language s)
    (speechRate s) (backgroundPadEnabled s) (backgroundPadVolume s).

Definition setVoiceStyle (style : VoiceStyle) (s : state) : state :=
  mkState (systemPrompt s) (model s) (voice s) style (language s)
    (speechRate s) (backgroundPadEnabled s) (backgroundPadVolume s).

Definition setLanguage (l : jsstring) (s : state) : state :=
  mkState (generateSystemPrompt l (speechRate s)) (model s) (voice s)
    (voiceStyle s) l (speechRate s) (backgroundPadEnabled s)
    (backgroundPadVolume s).

Definition setSpeechRate (rate : float) (s : state) : state :=
  mkState (generateSystemPrompt (language s) rate) (model s) (voice s)
    (voiceStyle s) (language s) rate (backgroundPadEnabled s)
    (backgroundPadVolume s).

Definition setBackgroundPadEnabled (enabled : bool) (s : state) : state :=
  mkState (systemPrompt s) (model s) (voice s) (voiceStyle s) (language s)
    (speechRate s) enabled (backgroundPadVolume s).

Definition setBackgroundPadVolume (volume : float) (s : state) : state :=
  mkState (systemPrompt s) (model s) (voice s) (voiceStyle s) (language s)
    (speechRate s) (backgroundPadEnabled s) volume.

Inductive call :=
| SetSystemPrompt (prompt : jsstring)
| SetModel (m : jsstring)
| SetVoice (v : jsstring)
| SetVoiceStyle (style : VoiceStyle)
| SetLanguage (l : jsstring)
| SetSpeechRate (rate : float)
| SetBackgroundPadEnabled (enabled : bool)
| SetBackgroundPadVolume (volume : float).

Definition perform (c : call) (s : state) : state :=
  match c with
  | SetSystemPrompt prompt => setSystemPrompt prompt s
  | SetModel m => setModel m s
  | SetVoice v => setVoice v s
  | SetVoiceStyle style => setVoiceStyle style s
  | SetLanguage l => setLanguage l s
  | SetSpeechRate rate => setSpeechRate rate s
  | SetBackgroundPadEnabled enabled => setBackgroundPadEnabled enabled s
  | SetBackgroundPadVolume volume => setBackgroundPadVolume volume s
  end.

Definition performAll (cs : list call) (s : state) : state :=
  fold_left (fun s c => perform c s) cs s.

(** The prompt is the one generated for the language and the rate of the
    state. *)
Definition generated (s : state) : Prop :=
  systemPrompt s = generateSystemPrompt (language s) (speechRate s).

End Settings.
End Settings.

Module Log.
Section Log.
(** [LiveServerToolCall], [FunctionResponse] and the web reference of a
    [GroundingChunk], which the store keeps and does not read. *)
Variables ToolCall ToolResponse Grounding : Type.

Inductive Role := user | agent | system.

(** state.ts lines 187-196; [timestamp] in milliseconds. *)
Record ConversationTurn := mkTurn {
  timestamp : Z;
  role : Role;
  text : jsstring;
  sourceText : option jsstring;
  isFinal : bool;
  toolUseRequest : option ToolCall;
  toolUseResponse : option ToolResponse;
  groundingChunks : option (list Grounding)
}.

(** [Omit<ConversationTurn, 'timestamp'>] *)
Record NewTurn := mkNew {
  new_role : Role;
  new_text : jsstring;
  new_sourceText : option jsstring;
  new_isFinal : bool;
  new_toolUseRequest : option ToolCall;
  new_toolUseResponse : option ToolResponse;
  new_groundingChunks : option (list Grounding)
}.

(** [Partial<ConversationTurn>]: [None] for a key that the object does not
    have.  (A key that is there holds a value of its type; the optional
    fields may hold [undefined].) *)
Record TurnUpdate := mkUpdate {
  upd_timestamp : option Z;
  upd_role : option Role;
  upd_text : option jsstring;
  upd_sourceText : option (option jsstring);
  upd_isFinal : option bool;
  upd_toolUseRequest : option (option ToolCall);
  upd_toolUseResponse : option (option ToolResponse);
  upd_groundingChunks : option (option (list Grounding))
}.

Definition override (A : Type) (old : A) (new : option A) : A :=
  match new with Some v => v | None => old end.

(** [{ ...lastTurn, ...update }] *)
Definition spread (t : ConversationTurn) (u : TurnUpdate) : ConversationTurn :=
  mkTurn (override (timestamp t) (upd_timestamp u))
    (override (role t) (upd_role u))
    (override (text t) (upd_text u))
    (override (sourceText t) (upd_sourceText u))
    (override (isFinal t) (upd_isFinal u))
    (override (toolUseRequest t) (upd_toolUseRequest u))
    (override (toolUseResponse t) (upd_toolUseResponse u))
    (override (groundingChunks t) (upd_groundingChunks u)).

(** [newTurns[i] = x] for an index of the array. *)
Fixpoint setAt (A : Type) (i : nat) (x : A) (l : list A) : list A :=
  match l, i with
  | [], _ => []
  | _ :: rest, O => x :: rest
  | y :: rest, S i' => y :: setAt i' x rest
  end.

(** state.ts lines 205-208; [now] is [new Date()]. *)
Definition addTurn (turn : NewTurn) (now : Z) (turns : list ConversationTurn)
  : list ConversationTurn :=
  turns ++ [mkTurn now (new_role turn) (new_text turn) (new_sourceText turn)
              (new_isFinal turn) (new_toolUseRequest turn)
              (new_toolUseResponse turn) (new_groundingChunks turn)].

(** state.ts lines 209-219. *)
Definition updateLastTurn (update : TurnUpdate)
  (turns : list ConversationTurn) : list ConversationTurn :=
  if (length turns =? 0)%nat then turns
  else match nth_error turns (length turns - 1) with
       | Some lastTurn =>
           setAt (length turns - 1) (spread lastTurn update) turns
       | None => turns
       end.

(** state.ts line 220. *)
Definition clearTurns (turns : list ConversationTurn)
  : list ConversationTurn := [].

(** StreamingConsole.tsx line 178. *)
Definition scriptTurns (turns : list ConversationTurn)
  : list ConversationTurn :=
  filter (fun t => match role t with system => true | _ => false end) turns.

(** [{ text: diarizedScript }] *)
Definition textUpdate (script : jsstring) : TurnUpdate :=
  mkUpdate None None (Some script) None None None None None.

(** DatabaseBridge.tsx lines 212-217, part_001 lines 229-234. *)
Definition rawTurn (source : jsstring) : NewTurn :=
  mkNew system source (Some source) true None None None.

(** DatabaseBridge.tsx lines 204-221 with the log: [processNewData] up to
    the [await] of the diarization. *)
Definition processNewData_shown (data : Transcript) (now : Z)
  (st : refs * list ConversationTurn)
  : (refs * list ConversationTurn) * verdict :=
  match processNewData data (fst st) with
  | (r1, Accepted source) =>
      ((r1, addTurn (rawTurn source) now (snd st)), Accepted source)
  | (r1, v) => ((r1, snd st), v)
  end.

(** DatabaseBridge.tsx lines 221-233 with the log: [processNewData] from
    the answer of the diarization, but its call of [processQueueLoop]. *)
Definition processNewData_resumed (answer : flashAnswer) (source : jsstring)
  (st : refs * list ConversationTurn) : refs * list ConversationTurn :=
  let diarizedScript := diarizeAndTranslate answer source in
  (processNewData_queue diarizedScript (fst st),
   updateLastTurn (textUpdate diarizedScript) (snd st)).

(** part_001 lines 221-248 with the log, but the call of
    [processQueueLoop]. *)
Definition processNewData_v1_shown (data : Transcript) (now : Z)
  (st : refs * list ConversationTurn)
  : (refs * list ConversationTurn) * verdict :=
  match processNewData_v1 data (fst st) with
  | (r1, Accepted source) =>
      ((r1, addTurn (rawTurn source) now (snd st)), Accepted source)
  | (r1, v) => ((r1, snd st), v)
  end.

(** part_001: the updates that reach [processNewData] one after the other,
    each with the time of its call. *)
Fixpoint ingest_v1 (updates : list (Transcript * Z))
  (st : refs * list ConversationTurn) : refs * list ConversationTurn :=
  match updates with
  | [] => st
  | (data, now) :: rest =>
      ingest_v1 rest (fst (processNewData_v1_shown data now st))
  end.

End Log.
End Log.

(* ===================================================================== *)
(** * StreamingConsole.tsx: the rendering of a script                    *)
(* ===================================================================== *)

Module ScriptReader.

(** A literal at the start of [s]: what follows it. *)
Fixpoint literal (lit s : jsstring) : option jsstring :=
  match lit, s with
  | [], _ => Some s
  | _ :: _, [] => None
  | p :: lit', c :: s' => if (c =? p)%N then literal lit' s' else None
  end.

(** An ASCII literal under the [i] flag: the code units are compared after
    [toUpperCase], which without the [u] flag maps no code unit above 127
    to an ASCII one. *)
Definition upperASCII (c : jschar) : jschar :=
  if ((97 <=? c) && (c <=? 122))%N then (c - 32)%N else c.

Fixpoint literalIgnoreCase (lit s : jsstring) : option jsstring :=
  match lit, s with
  | [], _ => Some s
  | _ :: _, [] => None
  | p :: lit', c :: s' =>
      if (upperASCII c =? upperASCII p)%N then literalIgnoreCase lit' s'
      else None
  end.

Definition orElse (A : Type) (a b : option A) : option A :=
  match a with Some _ => a | None => b end.

(** [name \d:] at the start of [s]: the text matched and what follows. *)
Definition numbered (name s : jsstring) : option (jsstring * jsstring) :=
  match literal name s with
  | Some (sp :: d :: colon :: r) =>
      if ((sp =? 32) && isDigit d && (colon =? 58))%N
      then Some (name ++ [sp; d; colon], r) else None
  | _ => None
  end.

Definition plain (lit s : jsstring) : option (jsstring * jsstring) :=
  match literal lit s with
  | Some r => Some (lit, r)
  | None => None
  end.

(** Line 50: [((?:Male|Female) \d:|Speaker \d:|Host:|Guest:)] at the start
    of [s]. *)
Definition speakerLabel (s : jsstring) : option (jsstring * jsstring) :=
  orElse (numbered (str "Male") s)
    (orElse (numbered (str "Female") s)
       (orElse (numbered (str "Speaker") s)
          (orElse (plain (str "Host:") s) (plain (str "Guest:") s)))).

Definition isOpener (c : jschar) : bool := ((c =? 40) || (c =? 91))%N.
Definition isCloser (c : jschar) : bool := ((c =? 41) || (c =? 93))%N.

(** What [.] does not match. *)
Definition isLineTerminator (c : jschar) : bool :=
  ((c =? 10) || (c =? 13) || (c =? 8232) || (c =? 8233))%N.

(** [.*?[)\]]] at the start of [s]: the lazy star gives way to the first
    closing bracket, and stops at a line terminator. *)
Fixpoint lazyToCloser (s : jsstring) : option (jsstring * jsstring) :=
  match s with
  | [] => None
  | c :: r =>
      if isCloser c then Some ([c], r)
      else if isLineTerminator c then None
      else match lazyToCloser r with
           | Some (m, rest) => Some (c :: m, rest)
           | None => None
           end
  end.

(** Line 72: [([(\[].*?[)\]])] at the start of [s]. *)
Definition direction (s : jsstring) : option (jsstring * jsstring) :=
  match s with
  | c :: r =>
      if isOpener c then
        match lazyToCloser r with
        | Some (m, rest) => Some (c :: m, rest)
        | None => None
        end
      else None
  | [] => None
  end.

Section Split.
(** [String.prototype.split] with an expression that is one capture group
    and matches no empty string; [matchAt s] is the match of the expression
    at the start of [s], with what follows it. *)
Variable matchAt : jsstring -> option (jsstring * jsstring).

(** The scan of [split]: [cur] is the text since the last match, [s] what
    is left to read; a match ends the piece, is itself a piece, and the
    scan goes on after it.  [fuel] bounds the turns of the loop. *)
Fixpoint splitFrom (fuel : nat) (cur s : jsstring) : list jsstring :=
  match s with
  | [] => [cur]
  | c :: s' =>
      match fuel with
      | O => [cur ++ s]
      | S fuel' =>
          match matchAt s with
          | Some (m, rest) => cur :: m :: splitFrom fuel' [] rest
          | None => splitFrom fuel' (cur ++ [c]) s'
          end
      end
  end.

Definition split (s : jsstring) : list jsstring :=
  splitFrom (length s) [] s.

End Split.

Inductive speakerClass := male_1 | female_1 | male_2 | female_2.

(** [trimmed.match(/^(A|B|C):?$/i)] *)
Definition named (names : list jsstring) (trimmed : jsstring) : bool :=
  existsb
    (fun n =>
       match literalIgnoreCase n trimmed with
       | Some [] => true
       | Some [colon] => (colon =? 58)%N
       | _ => false
       end)
    names.

(** Lines 58-69. *)
Definition classify (trimmed : jsstring) : option speakerClass :=
  if named [str "Male 1"; str "Speaker 1"; str "Host"] trimmed
  then Some male_1
  else if named [str "Female 1"; str "Speaker 2"; str "Guest"] trimmed
  then Some female_1
  else if named [str "Male 2"; str "Speaker 3"] trimmed
  then Some male_2
  else if named [str "Female 2"; str "Speaker 4"] trimmed
  then Some female_2
  else None.

(** Line 76: [sub.match(/^[(\[].*[)\]]$/)] *)
Definition isDirection (sub : jsstring) : bool :=
  match sub with
  | o :: r =>
      isOpener o &&
      match rev r with
      | c :: mid =>
          isCloser c && forallb (fun x => negb (isLineTerminator x)) mid
      | [] => false
      end
  | [] => false
  end.

(** The spans of the line, in the order of the document, with their
    class. *)
Inductive span :=
| SpeakerLabel (c : speakerClass) (shown : jsstring)
| ScriptDirection (shown : jsstring)
| ScriptSpoken (shown : jsstring).

Definition shownText (s : span) : jsstring :=
  match s with
  | SpeakerLabel _ shown => shown
  | ScriptDirection shown => shown
  | ScriptSpoken shown => shown
  end.

(** Lines 54-83, for one part: its spans, without the span that wraps the
    sub-parts of a part that is no label. *)
Definition renderPart (part : jsstring) : list span :=
  let trimmed := trim part in
  match classify trimmed with
  | Some c => [SpeakerLabel c trimmed]
  | None =>
      List.map
        (fun sub =>
           if isDirection sub then ScriptDirection sub else ScriptSpoken sub)
        (split direction part)
  end.

(** Lines 50-85. *)
Definition render (displayedText : jsstring) : list span :=
  flat_map renderPart (split speakerLabel displayedText).

End ScriptReader.

(* ===================================================================== *)
(** * Concrete runs of the definitions                                  *)
(* ===================================================================== *)

Example segmentText_paragraphs :
  segmentText (str "Male 1: Hola

  Female 1: Adios  ") = [str "Male 1: Hola"; str "Female 1: Adios"].
Proof. reflexivity. Qed.

Example split_lines_regex_cases :
  split_lines_regex [97; LF; CR; LF; 98]%N = [[97]; []; [98]]%N
  /\ split_lines_regex [97; CR; LF; LF; 98]%N = [[97]; [98]]%N
  /\ split_lines_regex [97; LF; CR; 98]%N = [[97]; [CR; 98]]%N
  /\ split_lines_regex [LF; 97; LF]%N = [[]; [97]; []]%N.
Proof. repeat split; reflexivity. Qed.

Example stripSpeakerLabel_cases :
  stripSpeakerLabel (str "Male 1: Hola") = str "Hola"
  /\ stripSpeakerLabel (str "FEMALE 2:Adios") = str "Adios"
  /\ stripSpeakerLabel (str "Male 12: Hola") = str "Male 12: Hola"
  /\ stripSpeakerLabel (str "Narrator: Hola") = str "Narrator: Hola"
  /\ stripSpeakerLabel (str " Male 1: Hola") = str " Male 1: Hola".
Proof. repeat split; reflexivity. Qed.

Example arrived_cases :
  arrived (mkAudio 1 0) (mkAudio 1.2 0) = true
  /\ arrived (mkAudio 1 0) (mkAudio 1.1 0) = false
  /\ arrived (mkAudio 1 0) (mkAudio nan 0) = false
  /\ lowWater (mkAudio 0 2.9) = true
  /\ lowWater (mkAudio 0 3) = false
  /\ lowWater (mkAudio 0 nan) = false.
Proof. repeat split; reflexivity. Qed.

Example enqueue_fillers :
  enqueue [str "a"; str "b"; str "c"; str "d"] [] 1
  = ([str "a"; str "b"; filler; str "c"; str "d"], 5%Z).
Proof. reflexivity. Qed.

(** DatabaseBridge.tsx queues the segments of the diarized script as they
    are: no filler, and the paragraph count is not touched. *)
Lemma processNewData_queue_plain (diarizedScript : jsstring) (r : refs) :
  segmentQueue (processNewData_queue diarizedScript r)
  = segmentQueue r ++ segmentText diarizedScript
  /\ paragraphCountRef (processNewData_queue diarizedScript r)
     = paragraphCountRef r.
Proof. split; reflexivity. Qed.

(* ===================================================================== *)
(** * Strings: trimming and splitting                                   *)
(* ===================================================================== *)

Lemma trimStart_suffix (s : jsstring) :
  exists pre, s = pre ++ trimStart s /\ forallb isWhiteSpace pre = true.
Proof.
  induction s as [|c r [pre [Hr Hpre]]]; simpl.
  - exists []. auto.
  - destruct (isWhiteSpace c) eqn:Hc.
    + exists (c :: pre). simpl. rewrite Hc, Hpre. split; [congruence | reflexivity].
    + exists []. auto.
Qed.

Lemma trimStart_idem (s : jsstring) : trimStart (trimStart s) = trimStart s.
Proof.
  induction s as [|c r IH]; simpl; auto.
  destruct (isWhiteSpace c) eqn:Hc; auto. simpl. now rewrite Hc.
Qed.

Lemma trimStart_app_nil (s t : jsstring) :
  trimStart s = [] -> trimStart (s ++ t) = trimStart t.
Proof.
  induction s as [|c r IH]; simpl; auto.
  destruct (isWhiteSpace c); auto. discriminate.
Qed.

Lemma trimStart_app_cons (s t : jsstring) :
  trimStart s <> [] -> trimStart (s ++ t) = trimStart s ++ t.
Proof.
  induction s as [|c r IH]; simpl; [congruence|].
  destruct (isWhiteSpace c); auto.
Qed.

Lemma trim_app_ws (s : jsstring) (w : jschar) :
  isWhiteSpace w = true -> trim (s ++ [w]) = trim s.
Proof.
  intros Hw. unfold trim, trimEnd.
  destruct (trimStart s) eqn:Hs.
  - rewrite trimStart_app_nil by assumption. simpl. now rewrite Hw.
  - rewrite trimStart_app_cons by congruence. rewrite Hs.
    rewrite rev_app_distr. simpl rev at 1. simpl app at 1.
    simpl trimStart at 1. now rewrite Hw.
Qed.

Lemma clean_trimStart (s : jsstring) : clean (trimStart s).
Proof. apply trimStart_idem. Qed.

Lemma clean_prefix (a b : jsstring) : clean (a ++ b) -> clean a.
Proof.
  unfold clean. destruct a as [|c r]; simpl; auto.
  destruct (isWhiteSpace c) eqn:Hc; auto.
  intros H. exfalso.
  destruct (trimStart_suffix (r ++ b)) as [pre [E _]].
  rewrite H in E. apply (f_equal (@length _)) in E.
  rewrite !length_app in E. simpl in E. rewrite ?length_app in E. lia.
Qed.

Lemma clean_rev_trimStart_rev (t : jsstring) :
  clean t -> clean (rev (trimStart (rev t))).
Proof.
  intros Ht. destruct (trimStart_suffix (rev t)) as [pre [E _]].
  apply (f_equal (@rev _)) in E. rewrite rev_involutive, rev_app_distr in E.
  rewrite E in Ht. exact (clean_prefix _ _ Ht).
Qed.

Lemma trim_idem (s : jsstring) : trim (trim s) = trim s.
Proof.
  unfold trim, trimEnd.
  pose proof (clean_rev_trimStart_rev (clean_trimStart s)) as H.
  unfold clean in H. rewrite H, rev_involutive, trimStart_idem. reflexivity.
Qed.

Lemma filter_map_trim (l : list jsstring) :
  filter (fun t => negb (falsy t)) (List.map trim l)
  = List.map trim (filter (fun t => negb (falsy (trim t))) l).
Proof.
  induction l as [|a l IH]; simpl; auto.
  destruct (falsy (trim a)); simpl; now rewrite IH.
Qed.

Lemma trim_nil : trim [] = [].
Proof. reflexivity. Qed.

(** The regular expression and the plain split at line feeds leave the same
    trimmed non-empty pieces: an empty piece between two line feeds is
    dropped, and a carriage return before a line feed is trimmed away. *)
Lemma splitLines_linesFrom (s : jsstring) :
  forall (inSep : bool) (cur : jsstring),
    (inSep = true -> cur = []) ->
    filter (fun t => negb (falsy t)) (List.map trim (splitLines inSep cur s))
    = filter (fun t => negb (falsy t)) (List.map trim (linesFrom cur s)).
Proof.
  induction s as [|c r IH]; intros inSep cur Hsep; [reflexivity|].
  cbn [splitLines linesFrom].
  destruct (c =? LF)%N eqn:Hc.
  - destruct inSep.
    + rewrite (Hsep eq_refl). cbn [List.map filter]. rewrite trim_nil. cbn.
      apply IH; auto.
    + cbn [List.map filter]. rewrite (IH true []); auto.
  - destruct ((c =? CR)%N && startsWithLF r) eqn:Hcr.
    + apply andb_prop in Hcr. destruct Hcr as [Hcr Hlf].
      apply N.eqb_eq in Hcr. subst c.
      destruct r as [|c' r']; [discriminate|]. simpl in Hlf.
      cbn [linesFrom]. rewrite Hlf.
      cbn [List.map filter]. rewrite trim_app_ws by reflexivity.
      specialize (IH true [] (fun _ => eq_refl)).
      cbn [splitLines linesFrom] in IH. rewrite Hlf in IH.
      cbn [List.map filter] in IH. rewrite trim_nil in IH.
      cbn [falsy negb] in IH.
      cbn [splitLines]. rewrite Hlf. rewrite IH. reflexivity.
    + apply IH. discriminate.
Qed.

Lemma segmentText_lines (text : jsstring) :
  segmentText text = List.map trim (spec_nonEmptyLines text).
Proof.
  unfold segmentText, spec_nonEmptyLines, spec_lines, split_lines_regex.
  destruct text as [|c r]; [reflexivity|]. cbn [falsy].
  rewrite <- filter_map_trim. apply splitLines_linesFrom. discriminate.
Qed.

Lemma segmentText_trimmed (text t : jsstring) :
  In t (segmentText text) -> trim t = t /\ t <> [].
Proof.
  unfold segmentText. destruct (falsy text); [contradiction|].
  intros H. apply filter_In in H. destruct H as [H Hne].
  apply in_map_iff in H. destruct H as [l [<- _]]. split.
  - apply trim_idem.
  - intros E. rewrite E in Hne. discriminate.
Qed.

(* ===================================================================== *)
(** * Fillers                                                           *)
(* ===================================================================== *)

Lemma combine_seq_shift (A : Type) (l : list A) (a n : nat) :
  combine (seq (S a) n) l
  = List.map (fun ks => (S (fst ks), snd ks)) (combine (seq a n) l).
Proof.
  revert a l. induction n as [|n IH]; intros a l; [reflexivity|].
  destruct l as [|x l]; [reflexivity|]. cbn [seq combine List.map fst snd].
  now rewrite IH.
Qed.

Lemma spec_withFillers_cons (count : Z) (seg : jsstring) (rest : list jsstring) :
  spec_withFillers count (seg :: rest)
  = (seg :: if ((count + 1) mod 3 =? 0)%Z then [filler] else [])
    ++ spec_withFillers (count + 1) rest.
Proof.
  unfold spec_withFillers. cbn [length seq combine flat_map fst snd].
  rewrite combine_seq_shift, flat_map_concat_map, map_map,
    <- flat_map_concat_map.
  replace (count + Z.of_nat 1)%Z with (count + 1)%Z by lia.
  assert (E : flat_map
    (fun x : nat * jsstring =>
       if ((count + Z.of_nat (fst (S (fst x), snd x))) mod 3 =? 0)%Z
       then [snd (S (fst x), snd x); filler] else [snd (S (fst x), snd x)])
    (combine (seq 1 (length rest)) rest)
    = flat_map
    (fun ks : nat * jsstring =>
       if ((count + 1 + Z.of_nat (fst ks)) mod 3 =? 0)%Z
       then [snd ks; filler] else [snd ks])
    (combine (seq 1 (length rest)) rest)).
  { apply flat_map_ext. intros [k s]. cbn [fst snd].
    replace (count + Z.of_nat (S k))%Z with (count + 1 + Z.of_nat k)%Z by lia.
    reflexivity. }
  rewrite E. destruct ((count + 1) mod 3 =? 0)%Z; reflexivity.
Qed.

Lemma enqueue_withFillers (segs : list jsstring) :
  forall (q : list jsstring) (count : Z),
    (0 <= count)%Z -> (count + Z.of_nat (length segs) <= 2 ^ 53)%Z ->
    enqueue segs q count
    = (q ++ spec_withFillers count segs, (count + Z.of_nat (length segs))%Z).
Proof.
  induction segs as [|seg rest IH]; intros q count H0 Hmax.
  - cbn. rewrite app_nil_r. f_equal. lia.
  - cbn [enqueue]. cbn [length] in Hmax.
    assert (Hp : plusOne count = (count + 1)%Z).
    { unfold plusOne. destruct (count <? 2 ^ 53)%Z eqn:E; [reflexivity|].
      apply Z.ltb_ge in E. lia. }
    rewrite Hp. rewrite Z.rem_mod_nonneg by lia.
    assert (Hpos : (0 <? count + 1)%Z = true) by (apply Z.ltb_lt; lia).
    rewrite Hpos. cbn [andb]. rewrite spec_withFillers_cons.
    rewrite IH by lia. f_equal.
    + destruct ((count + 1) mod 3 =? 0)%Z; cbn [app];
        repeat rewrite <- app_assoc; reflexivity.
    + cbn [length]. lia.
Qed.

Lemma spec_withFillers_length (segs : list jsstring) :
  forall count : Z,
    Z.of_nat (length (spec_withFillers count segs))
    = (Z.of_nat (length segs)
       + ((count + Z.of_nat (length segs)) / 3 - count / 3))%Z.
Proof.
  induction segs as [|seg rest IH]; intros count.
  - cbn. replace (count + 0)%Z with count by lia. lia.
  - rewrite spec_withFillers_cons, length_app, Nat2Z.inj_add, IH.
    replace (count + Z.of_nat (length (seg :: rest)))%Z
      with (count + 1 + Z.of_nat (length rest))%Z by (cbn [length]; lia).
    replace (Z.of_nat (length (seg :: rest)))
      with (1 + Z.of_nat (length rest))%Z by (cbn [length]; lia).
    assert (E : Z.of_nat (length
                 (seg :: if ((count + 1) mod 3 =? 0)%Z then [filler] else []))
                = (1 + ((count + 1) / 3 - count / 3))%Z).
    { destruct ((count + 1) mod 3 =? 0)%Z eqn:Hm; cbn [length].
      - apply Z.eqb_eq in Hm.
        pose proof (Z.div_mod (count + 1) 3) as D1.
        pose proof (Z.div_mod count 3) as D2.
        pose proof (Z.mod_pos_bound count 3) as B2. lia.
      - apply Z.eqb_neq in Hm.
        pose proof (Z.div_mod (count + 1) 3) as D1.
        pose proof (Z.div_mod count 3) as D2.
        pose proof (Z.mod_pos_bound count 3) as B2.
        pose proof (Z.mod_pos_bound (count + 1) 3) as B1. lia. }
    rewrite E. lia.
Qed.

Lemma enqueue_app (segs1 segs2 : list jsstring) :
  forall (q : list jsstring) (count : Z),
    enqueue (segs1 ++ segs2) q count
    = enqueue segs2 (fst (enqueue segs1 q count)) (snd (enqueue segs1 q count)).
Proof.
  induction segs1 as [|seg rest IH]; intros q count; [reflexivity|].
  cbn [app enqueue]. apply IH.
Qed.

(** C8.  An accepted update whose text has [n] non-empty lines queues [n]
    segments, the trimmed lines in their order, and a filler after every
    segment whose number in the running count of the pipeline is a multiple
    of three; the running count goes on from update to update. *)
Theorem C8_segments_and_fillers (data : Transcript) (r : refs)
  (source : jsstring) :
  gate data (lastProcessedIdRef r) = Accepted source ->
  (0 <= paragraphCountRef r)%Z ->
  (paragraphCountRef r + Z.of_nat (length (spec_nonEmptyLines source))
   <= 2 ^ 53)%Z ->
  let n := length (spec_nonEmptyLines source) in
  let count := paragraphCountRef r in
  segmentText source = List.map trim (spec_nonEmptyLines source)
  /\ length (segmentText source) = n
  /\ (forall t, In t (segmentText source) -> trim t = t /\ t <> [])
  /\ processNewData_v1 data r
     = (mkRefs (Some (id data)) (count + Z.of_nat n)
          (segmentQueue r ++ spec_withFillers count (segmentText source)),
        Accepted source)
  /\ Z.of_nat (length (spec_withFillers count (segmentText source)))
     = (Z.of_nat n + ((count + Z.of_nat n) / 3 - count / 3))%Z
  /\ (forall (data2 : Transcript) (source2 : jsstring),
        gate data2 (Some (id data)) = Accepted source2 ->
        segmentQueue (fst (processNewData_v1 data2
                             (fst (processNewData_v1 data r))))
        = fst (enqueue (segmentText source ++ segmentText source2)
                 (segmentQueue r) count)).
Proof.
  intros Hgate H0 Hmax n count.
  assert (Hlen : length (segmentText source) = n).
  { rewrite segmentText_lines. apply length_map. }
  assert (Hv1 : processNewData_v1 data r
     = (mkRefs (Some (id data)) (count + Z.of_nat n)
          (segmentQueue r ++ spec_withFillers count (segmentText source)),
        Accepted source)).
  { unfold processNewData_v1. rewrite Hgate.
    rewrite enqueue_withFillers; rewrite ?Hlen; auto. }
  repeat split.
  - apply segmentText_lines.
  - exact Hlen.
  - apply (segmentText_trimmed _ _ H).
  - apply (segmentText_trimmed _ _ H).
  - exact Hv1.
  - rewrite spec_withFillers_length, Hlen. reflexivity.
  - intros data2 source2 Hgate2.
    unfold processNewData_v1 at 2. rewrite Hgate.
    rewrite enqueue_app.
    destruct (enqueue (segmentText source) (segmentQueue r) count)
      as [q1 n1] eqn:E1.
    unfold count in E1. rewrite E1.
    unfold processNewData_v1. cbn [fst snd lastProcessedIdRef].
    rewrite Hgate2. cbn [segmentQueue paragraphCountRef].
    destruct (enqueue (segmentText source2) q1 n1) as [q2 n2]. reflexivity.
Qed.

(** An update of four non-empty lines, with one segment counted before. *)
Lemma C8_witness :
  let data := row "u1" "one
 two 

three
four" "t1" in
  let r := mkRefs None 1 [str "zero"] in
  gate data (lastProcessedIdRef r) = Accepted (str "one
 two 

three
four")
  /\ processNewData_v1 data r
     = (mkRefs (Some (str "u1")) 5
          [str "zero"; str "one"; str "two"; filler; str "three"; str "four"],
        Accepted (str "one
 two 

three
four")).
Proof.
  cbv zeta. split; [reflexivity|].
  assert (H0 : (0 <= 1)%Z) by lia.
  assert (Hmax : (1 + Z.of_nat (length (spec_nonEmptyLines (str "one
 two 

three
four"))) <= 2 ^ 53)%Z) by (vm_compute; discriminate).
  destruct (@C8_segments_and_fillers (row "u1" "one
 two 

three
four" "t1") (mkRefs None 1 [str "zero"]) (str "one
 two 

three
four") eq_refl H0 Hmax) as (_ & _ & _ & H & _).
  exact H.
Defined.

(* ===================================================================== *)
(** * The duplicate gate                                                *)
(* ===================================================================== *)

Lemma jseq_true (a b : jsstring) : jseq a b = true <-> a = b.
Proof.
  unfold jseq. destruct (list_eq_dec N.eq_dec a b); split; congruence.
Qed.

Lemma jseq_refl (a : jsstring) : jseq a a = true.
Proof. now apply jseq_true. Qed.

Lemma gate_noText (data : Transcript) (last : option jsstring) :
  noText data -> gate data last = NoText.
Proof. unfold gate. intros [-> | ->]; reflexivity. Qed.

Lemma gate_text (data : Transcript) (last : option jsstring)
  (source : jsstring) :
  full_transcript_text data = Some source -> source <> [] ->
  gate data last = if option_eq_dec_js last (Some (id data))
                   then Stale else Accepted source.
Proof.
  intros Ht Hne. unfold gate. rewrite Ht.
  destruct source as [|c s]; [congruence|]. cbn [falsy].
  destruct last as [l|].
  - destruct (jseq l (id data)) eqn:E.
    + apply jseq_true in E. subst l.
      destruct (option_eq_dec_js (Some (id data)) (Some (id data))); congruence.
    + destruct (option_eq_dec_js (Some l) (Some (id data))) as [E'|]; auto.
      injection E' as ->. rewrite jseq_refl in E. discriminate.
  - destruct (option_eq_dec_js None (Some (id data))); congruence.
Qed.

Lemma gate_Accepted_inv (data : Transcript) (last : option jsstring)
  (source : jsstring) :
  gate data last = Accepted source ->
  full_transcript_text data = Some source /\ source <> []
  /\ last <> Some (id data).
Proof.
  unfold gate. destruct (full_transcript_text data) as [s|]; [|discriminate].
  destruct s as [|c s]; [discriminate|]. cbn [falsy].
  destruct last as [l|].
  - destruct (jseq l (id data)) eqn:E; [discriminate|].
    intros [= <-]. repeat split; try congruence.
    intros [= ->]. rewrite jseq_refl in E. discriminate.
  - intros [= <-]. repeat split; congruence.
Qed.

Lemma processNewData_last (data : Transcript) (r : refs) :
  lastProcessedIdRef (fst (processNewData data r))
  = match gate data (lastProcessedIdRef r) with
    | Accepted _ => Some (id data)
    | _ => lastProcessedIdRef r
    end.
Proof.
  unfold processNewData. destruct (gate data (lastProcessedIdRef r)); reflexivity.
Qed.

Lemma processNewData_v1_last (data : Transcript) (r : refs) :
  lastProcessedIdRef (fst (processNewData_v1 data r))
  = match gate data (lastProcessedIdRef r) with
    | Accepted _ => Some (id data)
    | _ => lastProcessedIdRef r
    end.
Proof.
  unfold processNewData_v1.
  destruct (gate data (lastProcessedIdRef r)); try reflexivity.
  destruct (enqueue _ _ _). reflexivity.
Qed.

Lemma processNewData_verdict (data : Transcript) (r : refs) :
  snd (processNewData data r) = gate data (lastProcessedIdRef r)
  /\ snd (processNewData_v1 data r) = gate data (lastProcessedIdRef r).
Proof.
  unfold processNewData, processNewData_v1.
  destruct (gate data (lastProcessedIdRef r)); auto.
  destruct (enqueue _ _ _). auto.
Qed.

Lemma last_cons_default (A : Type) (l : list A) :
  forall a d : A, List.last (a :: l) d = List.last l a.
Proof.
  induction l as [|b l IH]; intros a d; [reflexivity|].
  change (List.last (a :: b :: l) d) with (List.last (b :: l) d).
  rewrite (IH b d), (IH b a). reflexivity.
Qed.

Lemma feed_squeeze (updates : list Transcript) :
  forall last : option jsstring,
    fst (feed updates last)
    = squeeze last (List.map id (filter hasText updates)).
Proof.
  induction updates as [|data rest IH]; intros last; [reflexivity|].
  cbn [feed filter]. unfold hasText at 1.
  destruct (full_transcript_text data) as [[|c source]|] eqn:Ht.
  - rewrite (@gate_noText data last) by (right; exact Ht). apply IH.
  - rewrite (@gate_text data last (c :: source) Ht) by discriminate.
    cbn [List.map squeeze].
    destruct (option_eq_dec_js last (Some (id data))); [apply IH|].
    specialize (IH (Some (id data))).
    destruct (feed rest (Some (id data))) as [ids last']. cbn [fst] in *.
    now rewrite IH.
  - rewrite (@gate_noText data last) by (left; exact Ht). apply IH.
Qed.

Lemma feed_noRepeat (updates : list Transcript) :
  forall last : option jsstring,
    noRepeat last (fst (feed updates last))
    /\ snd (feed updates last)
       = List.last (List.map Some (fst (feed updates last))) last.
Proof.
  induction updates as [|data rest IH]; intros last; [cbn; auto|].
  cbn [feed]. destruct (gate data last) eqn:G; try apply IH.
  apply gate_Accepted_inv in G. destruct G as (_ & _ & Hne).
  destruct (feed rest (Some (id data))) as [ids last'] eqn:F.
  specialize (IH (Some (id data))). rewrite F in IH. cbn [fst snd] in *.
  destruct IH as [IH1 IH2]. split; [split; assumption|].
  rewrite IH2. cbn [List.map]. now rewrite last_cons_default.
Qed.

(** C3, as stated, fails: with another id accepted in between, an id comes
    through the gate a second time; and an update without text is rejected
    although its id is new. *)
Lemma C3_counterexample :
  fst (feed updates_aba None) = [str "a"; str "b"; str "a"]
  /\ ~ NoDup (fst (feed updates_aba None))
  /\ gate (mkTranscript (str "c") (Some []) (str "t3")) (Some (str "a"))
     = NoText.
Proof.
  assert (E : fst (feed updates_aba None) = [str "a"; str "b"; str "a"])
    by reflexivity.
  split; [exact E|]. split; [|reflexivity]. rewrite E. intros H.
  apply NoDup_cons_iff in H. destruct H as [H _]. apply H. right. left.
  reflexivity.
Qed.

(** C3, amended.  The gate compares the id of an update with the last
    accepted id only.  An update that has a text is stale exactly when its
    id is the last accepted id and is accepted otherwise; on acceptance both
    bridges store its id, and on rejection they leave the cell alone; the
    timestamp plays no part.  So in a sequence of updates no id is accepted
    twice in a row, the cell ends on the last accepted id, and the accepted
    ids are the ids of the updates that have a text, without those that
    repeat their predecessor. *)
Theorem C3_gate_compares_with_last_accepted :
  (forall (data : Transcript) (last : option jsstring) (source : jsstring),
      full_transcript_text data = Some source -> source <> [] ->
      (gate data last = Stale <-> last = Some (id data))
      /\ (gate data last = Accepted source <-> last <> Some (id data)))
  /\ (forall (data : Transcript) (r : refs),
        let after := match gate data (lastProcessedIdRef r) with
                     | Accepted _ => Some (id data)
                     | _ => lastProcessedIdRef r
                     end in
        lastProcessedIdRef (fst (processNewData data r)) = after
        /\ lastProcessedIdRef (fst (processNewData_v1 data r)) = after)
  /\ (forall (data : Transcript) (last : option jsstring) (stamp : jsstring),
        gate (mkTranscript (id data) (full_transcript_text data) stamp) last
        = gate data last)
  /\ (forall (updates : list Transcript) (last : option jsstring),
        noRepeat last (fst (feed updates last))
        /\ snd (feed updates last)
           = List.last (List.map Some (fst (feed updates last))) last
        /\ fst (feed updates last)
           = squeeze last (List.map id (filter hasText updates))).
Proof.
  repeat split; try apply feed_squeeze.
  - rewrite (gate_text data last H H0).
    destruct (option_eq_dec_js last (Some (id data))); congruence.
  - intros ->. rewrite (gate_text data _ H H0).
    destruct (option_eq_dec_js (Some (id data)) (Some (id data))); congruence.
  - rewrite (gate_text data last H H0).
    destruct (option_eq_dec_js last (Some (id data))); congruence.
  - intros Hne. rewrite (gate_text data last H H0).
    destruct (option_eq_dec_js last (Some (id data))); congruence.
  - apply processNewData_last.
  - apply processNewData_v1_last.
  - apply feed_noRepeat.
  - apply feed_noRepeat.
Qed.

(** The gate on a new id and on the last accepted id. *)
Lemma C3_witness :
  (gate (row "b" "two" "t2") (Some (str "a")) = Accepted (str "two")
   <-> Some (str "a") <> Some (str "b"))
  /\ (gate (row "a" "one" "t3") (Some (str "a")) = Stale
      <-> Some (str "a") = Some (str "a")).
Proof.
  destruct C3_gate_compares_with_last_accepted as [H _]. split.
  - apply (H (row "b" "two" "t2") (Some (str "a")) (str "two"));
      [reflexivity | discriminate].
  - apply (H (row "a" "one" "t3") (Some (str "a")) (str "one"));
      [reflexivity | discriminate].
Defined.

(** C10.  An update with no text, or with the empty text, is dropped before
    its id is looked at and leaves the refs as they are, so that it does not
    change what the gate answers to a later update; the cell of the last
    accepted id changes only for an update that has a non-empty text and an
    id other than the one in the cell. *)
Theorem C10_empty_text_dropped_first (data : Transcript) (r : refs) :
  (noText data ->
     gate data (lastProcessedIdRef r) = NoText
     /\ processNewData data r = (r, NoText)
     /\ processNewData_v1 data r = (r, NoText)
     /\ forall (later : Transcript) (source : jsstring),
          id later = id data ->
          full_transcript_text later = Some source -> source <> [] ->
          lastProcessedIdRef r <> Some (id data) ->
          snd (processNewData later (fst (processNewData data r)))
          = Accepted source
          /\ snd (processNewData_v1 later (fst (processNewData_v1 data r)))
             = Accepted source)
  /\ (forall after : option jsstring,
        after = lastProcessedIdRef (fst (processNewData data r))
        \/ after = lastProcessedIdRef (fst (processNewData_v1 data r)) ->
        after <> lastProcessedIdRef r ->
        after = Some (id data)
        /\ lastProcessedIdRef r <> Some (id data)
        /\ exists source, full_transcript_text data = Some source
                          /\ source <> []).
Proof.
  split.
  - intros Hno. pose proof (gate_noText (lastProcessedIdRef r) Hno) as G.
    assert (P : processNewData data r = (r, NoText)).
    { unfold processNewData. now rewrite G. }
    assert (P1 : processNewData_v1 data r = (r, NoText)).
    { unfold processNewData_v1. now rewrite G. }
    repeat split; auto.
    + rewrite P. cbn [fst].
      destruct (processNewData_verdict later r) as [-> _].
      rewrite (gate_text later _ H0 H1), H.
      destruct (option_eq_dec_js (lastProcessedIdRef r) (Some (id data)));
        congruence.
    + rewrite P1. cbn [fst].
      destruct (processNewData_verdict later r) as [_ ->].
      rewrite (gate_text later _ H0 H1), H.
      destruct (option_eq_dec_js (lastProcessedIdRef r) (Some (id data)));
        congruence.
  - intros after Hafter Hchg.
    assert (E : after = match gate data (lastProcessedIdRef r) with
                        | Accepted _ => Some (id data)
                        | _ => lastProcessedIdRef r
                        end).
    { destruct Hafter as [-> | ->];
        [apply processNewData_last | apply processNewData_v1_last]. }
    destruct (gate data (lastProcessedIdRef r)) eqn:G; try congruence.
    apply gate_Accepted_inv in G. destruct G as (Ht & Hne & Hlast).
    repeat split; auto. exists source. auto.
Qed.

(** An update with an empty text, then the same id with a text. *)
Lemma C10_witness :
  let empty := mkTranscript (str "a") (Some []) (str "t1") in
  let r := mkRefs (Some (str "z")) 0 [] in
  noText empty
  /\ processNewData empty r = (r, NoText)
  /\ snd (processNewData (row "a" "one" "t2") (fst (processNewData empty r)))
     = Accepted (str "one").
Proof.
  cbv zeta.
  assert (Hno : noText (mkTranscript (str "a") (Some []) (str "t1")))
    by (right; reflexivity).
  destruct (C10_empty_text_dropped_first
              (mkTranscript (str "a") (Some []) (str "t1"))
              (mkRefs (Some (str "z")) 0 [])) as [H _].
  destruct (H Hno) as (_ & P & _ & L).
  split; [exact Hno|]. split; [exact P|].
  apply (L (row "a" "one" "t2") (str "one"));
    [reflexivity | reflexivity | discriminate | discriminate].
Defined.

(* ===================================================================== *)
(** * Turns and waits                                                   *)
(* ===================================================================== *)

Section Turns.
Context {W : Type} {API : LiveAPI W}.
Variable B : bridge.

Lemma run_S (n : nat) (c : config W) : run B (S n) c = run B n (resume B c).
Proof. unfold run. apply Nat.iter_succ_r. Qed.

Lemma run_add (n m : nat) (c : config W) :
  run B (n + m) c = run B m (run B n c).
Proof.
  unfold run. rewrite Nat.add_comm. apply Nat.iter_add.
Qed.

Lemma resume_exited (c : config W) : exited c = true -> resume B c = c.
Proof.
  unfold exited, resume. destruct (at_ c); try discriminate. reflexivity.
Qed.

Lemma run_exited (n : nat) (c : config W) : exited c = true -> run B n c = c.
Proof.
  intros H. induction n as [|n IH]; [reflexivity|].
  rewrite run_S, resume_exited; assumption.
Qed.


(** While the wait goes on, a turn is one poll and one timer. *)
Lemma arrival_rounds (pre : AudioStreamerState) (t0 : Z) (q : list jsstring)
  (p : bool) (k : nat) :
  forall (w : W) (tr : list event),
    (forall j, j < k -> waiting pre t0 (worldAfter 100 j w) = true) ->
    run B k (arrivalCheck B pre t0 q p w tr)
    = arrivalCheck B pre t0 q p (worldAfter 100 k w) (tr ++ polls 100 k w).
Proof.
  induction k as [|k IH]; intros w tr Hw.
  - cbn. now rewrite app_nil_r.
  - rewrite run_S. pose proof (Hw 0 (Nat.lt_0_succ k)) as H0.
    cbn [worldAfter] in H0. unfold waiting in H0.
    apply andb_prop in H0. destruct H0 as [Ht Ha].
    apply negb_true_iff in Ha.
    unfold arrivalCheck at 1. rewrite Ht, Ha.
    unfold resume. cbn [at_ queueRef isProcessingRef world trace].
    rewrite IH.
    + cbn [worldAfter polls]. rewrite <- app_assoc. reflexivity.
    + intros j Hj. apply (Hw (S j)). lia.
Qed.

Lemma arrival_end (pre : AudioStreamerState) (t0 : Z) (q : list jsstring)
  (p : bool) (w : W) (tr : list event) :
  waiting pre t0 w = false ->
  arrivalCheck B pre t0 q p w tr
  = pipelineCheck B q p w (tr ++ [arrivalEnd t0 w]).
Proof.
  unfold waiting, arrivalCheck, arrivalEnd. intros H.
  destruct (now w - t0 <? 15000)%Z; [|reflexivity].
  cbn [andb] in H. apply negb_false_iff in H. now rewrite H.
Qed.

Lemma arrival_still (pre : AudioStreamerState) (t0 : Z) (q : list jsstring)
  (p : bool) (w : W) (tr : list event) :
  waiting pre t0 w = true ->
  at_ (arrivalCheck B pre t0 q p w tr) = AwaitArrival pre t0.
Proof.
  unfold waiting, arrivalCheck. intros H. apply andb_prop in H.
  destruct H as [-> H]. apply negb_true_iff in H. now rewrite H.
Qed.

Lemma pipeline_rounds (q : list jsstring) (p : bool) (k : nat) :
  forall (w : W) (tr : list event),
    (forall j, j < k ->
               lowWater (getAudioStreamerState (worldAfter 200 j w)) = false) ->
    run B k (pipelineCheck B q p w tr)
    = pipelineCheck B q p (worldAfter 200 k w) (tr ++ polls 200 k w).
Proof.
  induction k as [|k IH]; intros w tr Hw.
  - cbn. now rewrite app_nil_r.
  - rewrite run_S. pose proof (Hw 0 (Nat.lt_0_succ k)) as H0.
    cbn [worldAfter] in H0.
    unfold pipelineCheck at 1. rewrite H0.
    unfold resume. cbn [at_ queueRef isProcessingRef world trace].
    rewrite IH.
    + cbn [worldAfter polls]. rewrite <- app_assoc. reflexivity.
    + intros j Hj. apply (Hw (S j)). lia.
Qed.

Lemma pipeline_end (q : list jsstring) (p : bool) (w : W) (tr : list event) :
  lowWater (getAudioStreamerState w) = true ->
  pipelineCheck B q p w tr
  = loopTop B q p w (tr ++ [EvGetState (getAudioStreamerState w)]).
Proof. unfold pipelineCheck. now intros ->. Qed.

Lemma pipeline_still (q : list jsstring) (p : bool) (w : W) (tr : list event) :
  lowWater (getAudioStreamerState w) = false ->
  at_ (pipelineCheck B q p w tr) = AwaitPipeline.
Proof. unfold pipelineCheck. now intros ->. Qed.

(** A buffer that stays at or above the low-water mark keeps the loop in
    the pipelining wait for ever. *)
Lemma pipeline_stuck (q : list jsstring) (p : bool) (w : W) (tr : list event) :
  (forall j, lowWater (getAudioStreamerState (worldAfter 200 j w)) = false) ->
  forall n, at_ (run B n (pipelineCheck B q p w tr)) = AwaitPipeline.
Proof.
  intros H n. rewrite pipeline_rounds by (intros; apply H).
  apply pipeline_still, H.
Qed.

End Turns.

Lemma first_index (f : nat -> bool) (k : nat) :
  f k = true ->
  exists k0, k0 <= k /\ f k0 = true /\ forall j, j < k0 -> f j = false.
Proof.
  induction k as [k IH] using lt_wf_ind. intros Hk.
  destruct (existsb f (seq 0 k)) eqn:E.
  - apply existsb_exists in E. destruct E as [j [Hin Hj]].
    apply in_seq in Hin. destruct (IH j ltac:(lia) Hj) as [k0 (Hle & H0 & Hmin)].
    exists k0. repeat split; auto. lia.
  - exists k. repeat split; auto. intros j Hj.
    destruct (f j) eqn:Fj; auto.
    assert (existsb f (seq 0 k) = true).
    { apply existsb_exists. exists j. split; auto. apply in_seq. lia. }
    congruence.
Qed.

Section Clock.
Context {W : Type} {API : LiveAPI W}.
Variable B : bridge.
Variable d : Z.
Hypothesis d_pos : (0 < d)%Z.
(** A timer of 100 ms moves [Date.now()] on by at least [d]. *)
Hypothesis timer_advances : forall w : W, (now w + d <= now (setTimeout 100 w))%Z.

Lemma clock_after (k : nat) :
  forall w : W, (now w + Z.of_nat k * d <= now (worldAfter 100 k w))%Z.
Proof.
  induction k as [|k IH]; intros w; [cbn; lia|].
  cbn [worldAfter]. specialize (IH (setTimeout 100 w)).
  pose proof (timer_advances w). nia.
Qed.

(** The arrival wait ends: at the first poll that finds the audio or the
    timeout, after fewer than [15000 / d + 1] timers, and the loop goes on
    with the pipelining wait. *)
Lemma arrival_wait_bounded (pre : AudioStreamerState) (t0 : Z)
  (q : list jsstring) (p : bool) (w : W) (tr : list event) :
  (t0 <= now w)%Z ->
  exists k,
    (Z.of_nat k * d < 15000 + d)%Z
    /\ waiting pre t0 (worldAfter 100 k w) = false
    /\ (forall j, j < k -> waiting pre t0 (worldAfter 100 j w) = true)
    /\ run B k (arrivalCheck B pre t0 q p w tr)
       = pipelineCheck B q p (worldAfter 100 k w)
           (tr ++ polls 100 k w ++ [arrivalEnd t0 (worldAfter 100 k w)]).
Proof.
  intros Ht0.
  set (K := Z.to_nat (15000 / d + 1)).
  assert (HK : negb (waiting pre t0 (worldAfter 100 K w)) = true).
  { apply negb_true_iff. unfold waiting. apply andb_false_intro1.
    apply Z.ltb_ge. pose proof (clock_after K w) as Hc.
    assert (15000 <= Z.of_nat K * d)%Z.
    { unfold K. rewrite Z2Nat.id.
      - pose proof (Z.div_mod 15000 d ltac:(lia)) as D.
        pose proof (Z.mod_pos_bound 15000 d d_pos). nia.
      - pose proof (Z.div_pos 15000 d ltac:(lia) d_pos). lia. }
    lia. }
  destruct (first_index (fun j => negb (waiting pre t0 (worldAfter 100 j w))) K HK)
    as [k (Hle & Hk & Hmin)].
  apply negb_true_iff in Hk.
  assert (Hmin' : forall j, j < k -> waiting pre t0 (worldAfter 100 j w) = true).
  { intros j Hj. specialize (Hmin j Hj). now apply negb_false_iff in Hmin. }
  exists k. repeat split; auto.
  - destruct k as [|k']; [lia|].
    pose proof (Hmin' k' ltac:(lia)) as Hw. unfold waiting in Hw.
    apply andb_prop in Hw. destruct Hw as [Hw _]. apply Z.ltb_lt in Hw.
    pose proof (clock_after k' w). lia.
  - rewrite arrival_rounds by assumption.
    rewrite arrival_end by assumption. now rewrite <- app_assoc.
Qed.

End Clock.

(* ===================================================================== *)
(** * What a trace shows                                                *)
(* ===================================================================== *)

Lemma shifted_app (a b : list event) : shifted (a ++ b) = shifted a ++ shifted b.
Proof. apply flat_map_app. Qed.

Lemma pushed_app (a b : list event) : pushed (a ++ b) = pushed a ++ pushed b.
Proof. apply flat_map_app. Qed.

Lemma submitted_app (a b : list event) :
  submitted (a ++ b) = submitted a ++ submitted b.
Proof. apply flat_map_app. Qed.

Lemma results_app (a b : list event) : results (a ++ b) = results a ++ results b.
Proof. apply flat_map_app. Qed.

Lemma statusReads_app (a b : list event) :
  statusReads (a ++ b) = statusReads a ++ statusReads b.
Proof. apply flat_map_app. Qed.

Lemma fallbacks_app (a b : list event) :
  fallbacks (a ++ b) = fallbacks a ++ fallbacks b.
Proof. apply flat_map_app. Qed.

Ltac tr_norm :=
  rewrite ?shifted_app, ?pushed_app, ?submitted_app, ?results_app,
    ?statusReads_app, ?fallbacks_app;
  try simpl (shifted (_ :: _)); try simpl (pushed (_ :: _));
  try simpl (submitted (_ :: _)); try simpl (results (_ :: _));
  try simpl (statusReads (_ :: _)); try simpl (fallbacks (_ :: _));
  rewrite ?app_nil_r.

Ltac tr_norm_in H :=
  rewrite ?shifted_app, ?pushed_app, ?submitted_app, ?results_app,
    ?statusReads_app, ?fallbacks_app in H;
  try simpl (shifted (_ :: _)) in H; try simpl (pushed (_ :: _)) in H;
  try simpl (submitted (_ :: _)) in H; try simpl (results (_ :: _)) in H;
  try simpl (statusReads (_ :: _)) in H; try simpl (fallbacks (_ :: _)) in H;
  rewrite ?app_nil_r in H.

Section Polls.
Context {W : Type} {API : LiveAPI W}.

Lemma polls_quiet (ms : Z) (k : nat) :
  forall w : W,
    shifted (polls ms k w) = [] /\ pushed (polls ms k w) = []
    /\ submitted (polls ms k w) = [] /\ results (polls ms k w) = []
    /\ statusReads (polls ms k w) = [] /\ fallbacks (polls ms k w) = [].
Proof.
  induction k as [|k IH]; intros w; [cbn; auto 6|].
  destruct (IH (setTimeout ms w)) as (H1 & H2 & H3 & H4 & H5 & H6).
  cbn [polls]. repeat split; assumption.
Qed.

Lemma arrivalEnd_quiet (t0 : Z) (w : W) :
  shifted [arrivalEnd t0 w] = [] /\ pushed [arrivalEnd t0 w] = []
  /\ submitted [arrivalEnd t0 w] = [] /\ results [arrivalEnd t0 w] = []
  /\ statusReads [arrivalEnd t0 w] = [] /\ fallbacks [arrivalEnd t0 w] = [].
Proof. unfold arrivalEnd. destruct (now w - t0 <? 15000)%Z; cbn; auto 6. Qed.

End Polls.

Lemma failedOf_pending (ss : list jsstring) :
  forall (rs : list bool) (s : jsstring),
    length rs = length ss -> failedOf (ss ++ [s]) rs = failedOf ss rs.
Proof.
  unfold failedOf. induction ss as [|a ss IH]; intros rs s Hlen.
  - destruct rs; [reflexivity | discriminate].
  - destruct rs as [|b rs]; [discriminate|]. cbn [app combine filter snd].
    injection Hlen as Hlen. specialize (IH rs s Hlen).
    destruct (negb b); cbn [List.map]; now rewrite IH.
Qed.

Lemma failedOf_snoc (ss : list jsstring) :
  forall (rs : list bool) (s : jsstring) (b : bool),
    length rs = length ss ->
    failedOf (ss ++ [s]) (rs ++ [b])
    = failedOf ss rs ++ (if b then [] else [s]).
Proof.
  unfold failedOf. induction ss as [|a ss IH]; intros rs s b Hlen.
  - destruct rs; [|discriminate]. destruct b; reflexivity.
  - destruct rs as [|b' rs]; [discriminate|]. cbn [app combine filter snd].
    injection Hlen as Hlen. specialize (IH rs s b Hlen).
    destruct (negb b'); cbn [List.map app]; now rewrite IH.
Qed.

Lemma repeat_snoc (A : Type) (a : A) (n : nat) :
  repeat a n ++ [a] = repeat a (S n).
Proof. induction n as [|n IH]; [reflexivity|]. cbn. now rewrite IH. Qed.

Section InvariantProofs.
Context {W : Type} {API : LiveAPI W}.
Variable B : bridge.

Lemma scripted_snoc_skip (xs ss : list jsstring) (x : jsstring)
  (st : VoiceStyle) :
  scripted B xs ss -> blank (scriptOf B st x) = true ->
  scripted B (xs ++ [x]) ss.
Proof.
  intros H Hb. induction H.
  - cbn. eapply scripted_skip; [eassumption | constructor].
  - cbn. eapply scripted_skip; eassumption.
  - cbn. eapply scripted_call; eassumption.
Qed.

Lemma scripted_snoc_call (xs ss : list jsstring) (x : jsstring)
  (st : VoiceStyle) :
  scripted B xs ss -> blank (scriptOf B st x) = false ->
  scripted B (xs ++ [x]) (ss ++ [scriptOf B st x]).
Proof.
  intros H Hb. induction H.
  - cbn. eapply scripted_call; [eassumption | constructor].
  - cbn. eapply scripted_skip; eassumption.
  - cbn. eapply scripted_call; eassumption.
Qed.

Lemma base_quiet (q0 q : list jsstring) (tr evs : list event)
  (pend : list jsstring) (reads : list bool) (a : nat) :
  base B q0 q tr pend reads a ->
  shifted evs = [] /\ pushed evs = [] /\ submitted evs = []
  /\ results evs = [] /\ statusReads evs = [] /\ fallbacks evs = [] ->
  base B q0 q (tr ++ evs) pend reads a.
Proof.
  intros (F & S & R & FB) (H1 & H2 & H3 & H4 & H5 & H6).
  unfold base. tr_norm. rewrite H1, H2, H3, H4, H5, H6. rewrite !app_nil_r.
  auto.
Qed.

Lemma base_disconnect (q0 q : list jsstring) (tr : list event) :
  base B q0 q tr [] [] 0 -> base B q0 q (tr ++ [EvStatus false]) [] [false] 0.
Proof.
  intros (F & S & R & FB). unfold base. tr_norm.
  rewrite app_nil_r in R. rewrite R. auto.
Qed.

Lemma base_skip (q0 rest : list jsstring) (x : jsstring) (st : VoiceStyle)
  (tr : list event) :
  base B q0 (x :: rest) tr [] [] 0 -> blank (scriptOf B st x) = true ->
  base B q0 rest (tr ++ [EvStatus true; EvShift (Some x)]) [] [] 0.
Proof.
  intros (F & (ss & S1 & S2 & S3) & R & FB) Hb. unfold base. tr_norm.
  repeat split.
  - rewrite <- app_assoc. exact F.
  - exists ss. repeat split; auto. eapply scripted_snoc_skip; eassumption.
  - rewrite app_nil_r in R. rewrite R, length_app, repeat_snoc.
    cbn [length]. now rewrite Nat.add_1_r.
  - exact FB.
Qed.

Lemma base_call (q0 q : list jsstring) (tr : list event) (s : jsstring)
  (pre : AudioStreamerState) :
  base B q0 q tr [] [] 0 ->
  base B q0 q (tr ++ [EvStatus true; EvGetState pre; EvSynth s]) [s] [true] 0.
Proof.
  intros (F & (ss & S1 & S2 & S3) & R & FB). unfold base. tr_norm.
  rewrite app_nil_r in S1, R. repeat split; auto.
  - exists ss. rewrite S1. auto.
  - now rewrite R.
  - rewrite FB, S1, failedOf_pending by lia. reflexivity.
Qed.

Lemma base_answer (q0 rest : list jsstring) (x s : jsstring) (st : VoiceStyle)
  (tr evs : list event) (ok : bool) :
  base B q0 (x :: rest) tr [s] [true] 0 ->
  s = scriptOf B st x -> blank s = false ->
  shifted evs = [x] -> pushed evs = [] -> submitted evs = [] ->
  results evs = [ok] -> statusReads evs = [] ->
  fallbacks evs = (if ok then [] else [fallbackText B s]) ->
  base B q0 rest (tr ++ evs) [] [] 0.
Proof.
  intros (F & (ss & S1 & S2 & S3) & R & FB) Hs Hb H1 H2 H3 H4 H5 H6.
  unfold base. tr_norm. rewrite H1, H2, H3, H4, H5, H6, !app_nil_r.
  repeat split.
  - rewrite <- app_assoc. exact F.
  - exists (ss ++ [s]). split; [|split].
    + now rewrite app_nil_r.
    + subst s. now apply scripted_snoc_call.
    + rewrite !length_app. cbn [length]. lia.
  - rewrite R, length_app. cbn [length].
    now rewrite repeat_snoc, Nat.add_1_r.
  - rewrite FB, S1. rewrite failedOf_snoc by lia.
    rewrite failedOf_pending by lia. rewrite map_app.
    destruct ok; reflexivity.
Qed.

Lemma base_throw (q0 q : list jsstring) (s : jsstring) (tr evs : list event) :
  base B q0 q tr [s] [true] 0 ->
  shifted evs = [] -> pushed evs = [] -> submitted evs = [] ->
  results evs = [false] -> statusReads evs = [] ->
  fallbacks evs = [fallbackText B s] ->
  base B q0 q (tr ++ evs) [s] [true] 1.
Proof.
  intros (F & (ss & S1 & S2 & S3) & R & FB) H1 H2 H3 H4 H5 H6.
  unfold base. tr_norm. rewrite H1, H2, H3, H4, H5, H6, !app_nil_r.
  repeat split; auto.
  - exists ss. repeat split; auto. rewrite length_app. cbn [length]. lia.
  - rewrite FB, S1. rewrite failedOf_snoc by lia.
    rewrite failedOf_pending by lia. now rewrite map_app.
Qed.

Lemma base_push (q0 q : list jsstring) (tr : list event) (seg : jsstring)
  (pend : list jsstring) (reads : list bool) (a : nat) :
  base B q0 q tr pend reads a ->
  base B q0 (q ++ [seg]) (tr ++ [EvPush seg]) pend reads a.
Proof.
  intros (F & S & R & FB). unfold base. tr_norm. repeat split; auto.
  rewrite !app_assoc. now rewrite F.
Qed.

End InvariantProofs.

(* ===================================================================== *)
(** * The invariant of the loop                                         *)
(* ===================================================================== *)

Section InvariantSteps.
Context {W : Type} {API : LiveAPI W}.
Variable B : bridge.
Variable q0 : list jsstring.

Lemma loopTop_inv (q : list jsstring) :
  forall (w : W) (tr : list event),
    base B q0 q tr [] [] 0 -> invariant B q0 (loopTop B q true w tr).
Proof.
  induction q as [|x rest IH]; intros w tr Hb.
  - cbn. auto.
  - cbn [loopTop]. destruct (connected w) eqn:Hc; cbn [negb].
    + destruct (blank (scriptOf B (voiceStyle w) x)) eqn:Hbl.
      * apply IH. eapply base_skip; eassumption.
      * unfold invariant. cbn [at_ isProcessingRef queueRef trace].
        split; [reflexivity|]. split.
        -- exists x, rest, (voiceStyle w). auto.
        -- now apply base_call.
    + unfold invariant. cbn [at_ isProcessingRef queueRef trace].
      split; [reflexivity|]. split; [discriminate|].
      now apply base_disconnect.
Qed.

Lemma pipelineCheck_inv (q : list jsstring) (w : W) (tr : list event) :
  base B q0 q tr [] [] 0 -> invariant B q0 (pipelineCheck B q true w tr).
Proof.
  intros Hb. unfold pipelineCheck.
  destruct (lowWater (getAudioStreamerState w)).
  - apply loopTop_inv. apply base_quiet; [assumption | cbn; auto 6].
  - unfold invariant. cbn [at_ isProcessingRef queueRef trace].
    split; [reflexivity|]. apply base_quiet; [assumption | cbn; auto 6].
Qed.

Lemma arrivalCheck_inv (pre : AudioStreamerState) (t0 : Z)
  (q : list jsstring) (w : W) (tr : list event) :
  base B q0 q tr [] [] 0 -> invariant B q0 (arrivalCheck B pre t0 q true w tr).
Proof.
  intros Hb. unfold arrivalCheck. destruct (now w - t0 <? 15000)%Z.
  - destruct (arrived pre (getAudioStreamerState w)).
    + apply pipelineCheck_inv. apply base_quiet; [assumption | cbn; auto 6].
    + unfold invariant. cbn [at_ isProcessingRef queueRef trace].
      split; [reflexivity|]. apply base_quiet; [assumption | cbn; auto 6].
  - apply pipelineCheck_inv. apply base_quiet; [assumption | cbn; auto 6].
Qed.

Lemma afterSynth_inv (s : jsstring) (pre : AudioStreamerState)
  (q : list jsstring) (w : W) (tr : list event) :
  pendingHead B q s -> base B q0 q tr [s] [true] 0 ->
  invariant B q0 (afterSynth B s pre q true w tr).
Proof.
  intros (x & rest & st & -> & Hs & Hbl) Hb. unfold afterSynth.
  destruct (generateMultiSpeakerAudio s w) as [ok w1].
  cbn [tl hd_error]. destruct ok.
  - apply arrivalCheck_inv. rewrite <- app_assoc.
    eapply base_answer with (ok := true); try eassumption; reflexivity.
  - destruct (client_send (fallbackText B s) w1) as [w2|].
    + apply arrivalCheck_inv. rewrite <- !app_assoc.
      eapply base_answer with (ok := false); try eassumption; reflexivity.
    + unfold invariant. cbn [at_ isProcessingRef queueRef trace].
      split; [reflexivity|]. exists s. split.
      * exists x, rest, st. auto.
      * rewrite <- app_assoc. apply base_throw; auto.
Qed.

Lemma resume_inv (c : config W) :
  invariant B q0 c -> invariant B q0 (resume B c).
Proof.
  intros H. unfold resume. unfold invariant in H.
  destruct (at_ c) as [s pre | pre t0 | | e] eqn:Hat.
  - destruct H as (Hp & Hh & Hb). rewrite Hp. now apply afterSynth_inv.
  - destruct H as (Hp & Hb). rewrite Hp. now apply arrivalCheck_inv.
  - destruct H as (Hp & Hb). rewrite Hp. now apply pipelineCheck_inv.
  - unfold invariant. rewrite Hat. exact H.
Qed.

Lemma push_inv (c : config W) (seg : jsstring) :
  exited c = false -> invariant B q0 c -> invariant B q0 (push seg c).
Proof.
  unfold exited, invariant, push. cbn [at_ isProcessingRef queueRef trace].
  destruct (at_ c) as [s pre | pre t0 | | e]; try discriminate; intros _.
  - intros (Hp & (x & rest & st & Hq & Hs) & Hb). split; [assumption|]. split.
    + exists x, (rest ++ [seg]), st. rewrite Hq. auto.
    + now apply base_push.
  - intros (Hp & Hb). split; [assumption|]. now apply base_push.
  - intros (Hp & Hb). split; [assumption|]. now apply base_push.
Qed.

Lemma start_inv (w : W) :
  invariant B q0 (processQueueLoop B q0 false w []).
Proof.
  unfold processQueueLoop. apply loopTop_inv. unfold base. cbn.
  rewrite app_nil_r. repeat split; auto.
  exists []. repeat split; auto. constructor.
Qed.

Lemma reaches_inv (w : W) (c : config W) :
  reaches B (processQueueLoop B q0 false w []) c -> invariant B q0 c.
Proof.
  induction 1 as [|c c' _ IH Hstep].
  - apply start_inv.
  - destruct Hstep as [c _ | c seg Hex].
    + now apply resume_inv.
    + now apply push_inv.
Qed.

Lemma run_reaches (c0 : config W) (n : nat) : reaches B c0 (run B n c0).
Proof.
  induction n as [|n IH]; [constructor|].
  change (run B (S n) c0) with (resume B (run B n c0)).
  destruct (exited (run B n c0)) eqn:E.
  - rewrite resume_exited by assumption. exact IH.
  - eapply reaches_step; [exact IH | now constructor].
Qed.

End InvariantSteps.

(* ===================================================================== *)
(** * The loop drains the queue                                         *)
(* ===================================================================== *)

Section Liveness.
Context {W : Type} {API : LiveAPI W}.
Variable B : bridge.
Variable d : Z.
Hypothesis d_pos : (0 < d)%Z.
Hypothesis timer_advances : forall w : W, (now w + d <= now (setTimeout 100 w))%Z.
Hypothesis stays_connected : forall w : W, connected w = true.
Hypothesis buffer_drains :
  forall w : W,
  exists k, lowWater (getAudioStreamerState (worldAfter 200 k w)) = true.
Variable sc : jsstring -> jsstring.
Hypothesis script_fixed : forall (w : W) (x : jsstring),
  scriptOf B (voiceStyle w) x = sc x.
Variable ok : jsstring -> bool.
Hypothesis adapter : forall (s : jsstring) (w : W),
  fst (generateMultiSpeakerAudio s w) = ok s.
Hypothesis send_returns : forall (s : jsstring) (w : W),
  ok s = false -> client_send (fallbackText B s) w <> None.

Lemma pipeline_wait_ends (q : list jsstring) (p : bool) (w : W)
  (tr : list event) :
  exists k,
    run B k (pipelineCheck B q p w tr)
    = loopTop B q p (worldAfter 200 k w)
        (tr ++ polls 200 k w
            ++ [EvGetState (getAudioStreamerState (worldAfter 200 k w))]).
Proof.
  destruct (buffer_drains w) as [k1 Hk1].
  destruct (first_index
              (fun j => lowWater (getAudioStreamerState (worldAfter 200 j w)))
              k1 Hk1) as [k (_ & Hk & Hmin)].
  exists k. rewrite pipeline_rounds by assumption.
  rewrite pipeline_end by assumption. now rewrite <- app_assoc.
Qed.

Lemma waits_then (pre : AudioStreamerState) (rest : list jsstring) (p : bool)
  (w : W) (tr : list event) (P : config W -> Prop) :
  (forall (w' : W) (evs : list event),
      shifted evs = [] /\ pushed evs = [] /\ submitted evs = []
      /\ results evs = [] /\ statusReads evs = [] /\ fallbacks evs = [] ->
      exists n, P (run B n (loopTop B rest p w' (tr ++ evs)))) ->
  exists n, P (run B n (arrivalCheck B pre (now w) rest p w tr)).
Proof.
  intros Hnext.
  destruct (arrival_wait_bounded B d_pos timer_advances pre rest p w tr
              (Z.le_refl (now w))) as [k1 (_ & _ & _ & E1)].
  destruct (pipeline_wait_ends rest p (worldAfter 100 k1 w)
              (tr ++ polls 100 k1 w
                  ++ [arrivalEnd (now w) (worldAfter 100 k1 w)]))
    as [k2 E2].
  match type of E2 with _ = loopTop _ _ _ ?w' (?t ++ ?e) =>
    destruct (Hnext w' ((polls 100 k1 w
                          ++ [arrivalEnd (now w) (worldAfter 100 k1 w)]) ++ e))
      as [n3 H3] end.
  - destruct (polls_quiet 100 k1 w) as (A1 & A2 & A3 & A4 & A5 & A6).
    destruct (polls_quiet 200 k2 (worldAfter 100 k1 w))
      as (B1 & B2 & B3 & B4 & B5 & B6).
    destruct (arrivalEnd_quiet (now w) (worldAfter 100 k1 w))
      as (C1 & C2 & C3 & C4 & C5 & C6).
    rewrite ?shifted_app, ?pushed_app, ?submitted_app, ?results_app,
      ?statusReads_app, ?fallbacks_app.
    rewrite A1, A2, A3, A4, A5, A6, B1, B2, B3, B4, B5, B6,
      C1, C2, C3, C4, C5, C6. cbn. auto 6.
  - exists (k1 + (k2 + n3)). rewrite !run_add, E1, E2.
    rewrite <- !app_assoc in H3. rewrite <- !app_assoc. exact H3.
Qed.

Lemma loop_drains (q : list jsstring) :
  forall (p : bool) (w : W) (tr : list event),
  exists n, drained B sc ok tr q (run B n (loopTop B q p w tr)).
Proof.
  induction q as [|x rest IH]; intros p w tr.
  - exists 0. cbn. unfold drained. cbn. rewrite !app_nil_r. auto 8.
  - cbn [loopTop]. rewrite stays_connected, script_fixed. cbn [negb].
    destruct (blank (sc x)) eqn:Hbl.
    + destruct (IH p w (tr ++ [EvStatus true; EvShift (Some x)])) as [n H].
      assert (Hnb : nonblank (sc x) = false)
        by (unfold nonblank; now rewrite Hbl).
      exists n. revert H. unfold drained. tr_norm.
      cbn [List.map filter]. rewrite Hnb.
      rewrite <- !app_assoc. auto.
    + assert (Hnb : nonblank (sc x) = true)
        by (unfold nonblank; now rewrite Hbl).
      set (pre := getAudioStreamerState w).
      set (tr1 := tr ++ [EvStatus true; EvGetState pre; EvSynth (sc x)]).
      assert (Hnext : forall (b : bool) (w' : W) (evs : list event),
                 b = ok (sc x) ->
                 shifted evs = [x] /\ pushed evs = [] /\ submitted evs = []
                 /\ results evs = [b] /\ statusReads evs = []
                 /\ fallbacks evs
                    = (if b then [] else [fallbackText B (sc x)]) ->
                 exists n,
                   drained B sc ok tr (x :: rest)
                     (run B n (arrivalCheck B pre (now w') rest p w'
                                 (tr1 ++ evs)))).
      { intros b w' evs Hb (E1 & E2 & E3 & E4 & E5 & E6).
        apply waits_then. intros w'' evs' (Q1 & Q2 & Q3 & Q4 & Q5 & Q6).
        destruct (IH p w'' ((tr1 ++ evs) ++ evs')) as [n H].
        exists n. revert H. unfold drained, tr1. tr_norm.
        rewrite E1, E3, E4, E6, Q1, Q3, Q4, Q6.
        cbn [List.map filter]. rewrite Hnb.
        cbn [List.map filter]. rewrite <- Hb.
        intros (H1 & H2 & H3 & H4 & H5 & H6 & H7).
        repeat split; auto.
        - rewrite H4, !app_nil_r, <- !app_assoc. reflexivity.
        - rewrite H5, !app_nil_r, <- !app_assoc. reflexivity.
        - rewrite H6, !app_nil_r, <- !app_assoc. reflexivity.
        - rewrite H7, !app_nil_r, <- !app_assoc.
          destruct b; reflexivity. }
      assert (Hturn : exists n,
                 drained B sc ok tr (x :: rest)
                   (run B n (afterSynth B (sc x) pre (x :: rest) p w tr1))).
      { unfold afterSynth. pose proof (adapter (sc x) w) as Hok.
        destruct (generateMultiSpeakerAudio (sc x) w) as [b w1].
        cbn [fst] in Hok. cbn [tl hd_error]. destruct b.
        - rewrite <- app_assoc. apply (Hnext true); cbn; auto 6.
        - destruct (client_send (fallbackText B (sc x)) w1) as [w2|] eqn:Hs.
          + rewrite <- !app_assoc. apply (Hnext false); cbn; auto 6.
          + exfalso. exact (send_returns w1 (eq_sym Hok) Hs). }
      destruct Hturn as [n H]. exists (S n). rewrite run_S. exact H.
Qed.

End Liveness.

(* ===================================================================== *)
(** * The claims on the scheduler loop                                  *)
(* ===================================================================== *)

Lemma scripted_DatabaseBridge (xs ss : list jsstring) :
  scripted DatabaseBridge xs ss -> ss = filter nonblank xs.
Proof.
  induction 1 as [| x xs ss st Hb _ IH | x xs ss st Hb _ IH];
    cbn [filter]; cbn [DatabaseBridge scriptOf] in *.
  - reflexivity.
  - unfold nonblank at 1. now rewrite Hb.
  - unfold nonblank at 1. rewrite Hb. cbn [negb]. now rewrite IH.
Qed.

Lemma invariant_fifo (W : Type) (B : bridge)
  (q0 : list jsstring) (c : config W) :
  invariant B q0 c ->
  shifted (trace c) ++ queueRef c = q0 ++ pushed (trace c)
  /\ exists ss pend,
       submitted (trace c) = ss ++ pend /\ scripted B (shifted (trace c)) ss
       /\ (midCall c = false -> pend = [])
       /\ (midCall c = true ->
           exists x rest st, queueRef c = x :: rest
                             /\ pend = [scriptOf B st x]
                             /\ blank (scriptOf B st x) = false)
       /\ fallbacks (trace c)
          = List.map (fallbackText B)
              (failedOf (submitted (trace c)) (results (trace c))).
Proof.
  unfold invariant, midCall.
  destruct (at_ c) as [s pre | pre t0 | | []].
  - intros (_ & (x & rest & st & Hq & Hs & Hb)
              & (F & (ss & S1 & S2 & _) & _ & FB)).
    split; [assumption|]. exists ss, [s].
    split; [assumption|]. split; [assumption|].
    split; [discriminate|]. split; [|assumption].
    intros _. exists x, rest, st. subst s. auto.
  - intros (_ & (F & (ss & S1 & S2 & _) & _ & FB)).
    split; [assumption|]. exists ss, []. repeat split; auto. discriminate.
  - intros (_ & (F & (ss & S1 & S2 & _) & _ & FB)).
    split; [assumption|]. exists ss, []. repeat split; auto. discriminate.
  - intros (_ & _ & (F & (ss & S1 & S2 & _) & _ & FB)).
    split; [assumption|]. exists ss, []. repeat split; auto. discriminate.
  - intros (_ & _ & (F & (ss & S1 & S2 & _) & _ & FB)).
    split; [assumption|]. exists ss, []. repeat split; auto. discriminate.
  - intros (_ & (s & (x & rest & st & Hq & Hs & Hb)
                   & (F & (ss & S1 & S2 & _) & _ & FB))).
    split; [assumption|]. exists ss, [s].
    split; [assumption|]. split; [assumption|].
    split; [discriminate|]. split; [|assumption].
    intros _. exists x, rest, st. subst s. auto.
  - contradiction.
Qed.

Lemma filter_none (A : Type) (l : list A) : filter (fun _ => false) l = [].
Proof. induction l; auto. Qed.

Lemma filter_all (A : Type) (f : A -> bool) (l : list A) :
  forallb f l = true -> filter f l = l.
Proof.
  induction l as [|a l IH]; [reflexivity|]. cbn. intros H.
  apply andb_prop in H. destruct H as [-> H]. now rewrite IH.
Qed.

(** C1, as stated, fails on DatabaseBridge.tsx: when the synthesis call
    fails and the fallback [client.send] throws, the head is not removed;
    the activation ends with the segment still first in the queue, and the
    next start of the loop hands it to the synthesis call a second time. *)
Lemma C1_counterexample :
  results (trace (simRun sendFails DatabaseBridge [segA; segB] 1)) = [false]
  /\ at_ (simRun sendFails DatabaseBridge [segA; segB] 1) = Exited Threw
  /\ shifted (trace (simRun sendFails DatabaseBridge [segA; segB] 1)) = []
  /\ queueRef (simRun sendFails DatabaseBridge [segA; segB] 1) = [segA; segB]
  /\ submitted (trace (simRun sendFails DatabaseBridge [segA; segB] 1))
     = [segA]
  /\ submitted
       (trace (startOn sendFails DatabaseBridge
                 (queueRef (simRun sendFails DatabaseBridge [segA; segB] 1))))
     = [segA].
Proof. repeat split; vm_compute; reflexivity. Qed.

(** C1, amended.  One activation of the loop of DatabaseBridge.tsx, started
    on a queue [q0] and not overlapped by another activation, for any
    behaviour of its collaborators and with producers appending meanwhile.
    - At every point the elements removed so far, followed by the queue, are
      [q0] followed by the elements appended: removal is from the head, in
      the order of queueing.
    - The texts handed to the synthesis call are the non-blank removed
      elements, in that order and once each, followed by the head of the
      queue while its call is in flight (or when the fallback threw).
    - When the synthesis call answers with success, or with failure and a
      fallback [client.send] that returns, the head is removed in the same
      turn.
    - When the synthesis call answers with failure and the fallback
      [client.send] throws, nothing is removed: the activation ends with
      the flag reset and the head still first in the queue, and the next
      start of the loop on a connected client hands that head to the
      synthesis call again.
    - With an adapter that always succeeds, a connection that stays up,
      timers that advance and a buffer that drains, the loop ends with an
      empty queue, having called the adapter on the non-blank elements of
      [q0] in order: on [A; B; C] for a queue [A; B; C] of non-blank
      segments. *)
Theorem C1_fifo_at_most_once (W : Type) (API : LiveAPI W)
  (q0 : list jsstring) (w0 : W) :
  let start := processQueueLoop DatabaseBridge q0 false w0 [] in
  (forall c : config W,
      reaches DatabaseBridge start c ->
      shifted (trace c) ++ queueRef c = q0 ++ pushed (trace c)
      /\ submitted (trace c)
         = filter nonblank (shifted (trace c))
           ++ (if midCall c then firstn 1 (queueRef c) else [])
      /\ (midCall c = true -> queueRef c <> []))
  /\ (forall (s : jsstring) (pre : AudioStreamerState) (x : jsstring)
        (rest : list jsstring) (p : bool) (w : W) (tr : list event),
        fst (generateMultiSpeakerAudio s w) = true
        \/ client_send (stripSpeakerLabel s)
             (snd (generateMultiSpeakerAudio s w)) <> None ->
        exists (w2 : W) (evs : list event),
          afterSynth DatabaseBridge s pre (x :: rest) p w tr
          = arrivalCheck DatabaseBridge pre (now w2) rest p w2 (tr ++ evs)
          /\ shifted evs = [x] /\ submitted evs = []
          /\ results evs = [fst (generateMultiSpeakerAudio s w)])
  /\ (forall (pre : AudioStreamerState) (x : jsstring)
        (rest : list jsstring) (p : bool) (w : W) (tr : list event),
        fst (generateMultiSpeakerAudio x w) = false ->
        client_send (stripSpeakerLabel x)
          (snd (generateMultiSpeakerAudio x w)) = None ->
        at_ (afterSynth DatabaseBridge x pre (x :: rest) p w tr)
        = Exited Threw
        /\ queueRef (afterSynth DatabaseBridge x pre (x :: rest) p w tr)
           = x :: rest
        /\ isProcessingRef (afterSynth DatabaseBridge x pre (x :: rest) p w tr)
           = false
        /\ shifted (trace (afterSynth DatabaseBridge x pre (x :: rest) p w tr))
           = shifted tr
        /\ (forall w1 : W,
              connected w1 = true -> blank x = false ->
              at_ (processQueueLoop DatabaseBridge
                     (queueRef
                        (afterSynth DatabaseBridge x pre (x :: rest) p w tr))
                     (isProcessingRef
                        (afterSynth DatabaseBridge x pre (x :: rest) p w tr))
                     w1 [])
              = AwaitSynth x (getAudioStreamerState w1)))
  /\ (forall d : Z,
        (0 < d)%Z ->
        (forall w : W, (now w + d <= now (setTimeout 100 w))%Z) ->
        (forall w : W, connected w = true) ->
        (forall w : W,
            exists k,
              lowWater (getAudioStreamerState (worldAfter 200 k w)) = true) ->
        (forall (s : jsstring) (w : W),
            fst (generateMultiSpeakerAudio s w) = true) ->
        exists n : nat,
          let c := run DatabaseBridge n start in
          at_ c = Exited Drained /\ queueRef c = []
          /\ shifted (trace c) = q0
          /\ submitted (trace c) = filter nonblank q0
          /\ (forallb nonblank q0 = true -> submitted (trace c) = q0)
          /\ fallbacks (trace c) = []).
Proof.
  cbv zeta. split; [|split; [|split]].
  - intros c Hc. apply reaches_inv in Hc.
    destruct (@invariant_fifo _ _ _ _ Hc)
      as (F & ss & pend & S1 & S2 & P0 & P1 & _).
    apply scripted_DatabaseBridge in S2. subst ss.
    split; [assumption|]. destruct (midCall c).
    + destruct (P1 eq_refl) as (x & rest & st & Hq & Hp & _).
      rewrite Hq, S1, Hp. cbn. split; [reflexivity|]. discriminate.
    + rewrite S1, (P0 eq_refl). split; [reflexivity|]. discriminate.
  - intros s pre x rest p w tr Hok. unfold afterSynth.
    destruct (generateMultiSpeakerAudio s w) as [ok w1].
    cbn [fst snd] in Hok. cbn [tl hd_error DatabaseBridge fallbackText].
    destruct ok.
    + exists w1, [EvSynthResult true; EvShift (Some x)].
      rewrite <- app_assoc. cbn. auto.
    + destruct Hok as [Hok | Hok]; [discriminate|].
      destruct (client_send (stripSpeakerLabel s) w1) as [w2|]; [|congruence].
      exists w2, [EvSynthResult false; EvSend (stripSpeakerLabel s);
                  EvShift (Some x)].
      rewrite <- !app_assoc. cbn. auto.
  - intros pre x rest p w tr Hfail Hthrow. unfold afterSynth.
    destruct (generateMultiSpeakerAudio x w) as [ok w1].
    cbn [fst snd] in Hfail, Hthrow. subst ok.
    cbn [DatabaseBridge fallbackText]. rewrite Hthrow.
    cbn [at_ queueRef isProcessingRef trace].
    repeat split.
    + rewrite !shifted_app. cbn. now rewrite !app_nil_r.
    + intros w1' Hconn Hb. unfold processQueueLoop. cbn [loopTop].
      rewrite Hconn. cbn [negb DatabaseBridge scriptOf]. rewrite Hb.
      reflexivity.
  - intros d Hd Htimer Hconn Hdrain Hok.
    destruct (@loop_drains W API DatabaseBridge d Hd Htimer Hconn Hdrain
                (fun x => x) (fun _ _ => eq_refl)
                (fun _ => true) Hok
                (fun s w (H : true = false) =>
                   False_ind _ (Bool.diff_true_false H))
                q0 true w0 []) as [n H].
    exists n. unfold processQueueLoop.
    destruct H as (H1 & H2 & _ & H4 & H5 & _ & H7).
    cbn in H4, H5, H7. rewrite map_id in H5.
    rewrite map_id, filter_none in H7.
    repeat split; auto.
    intros Hall. rewrite H5. now apply filter_all.
Qed.

(** The drain of three segments on the calm world. *)
Lemma C1_witness :
  (forall w : sim,
      (@now _ (simAPI calm) w + 100
       <= @now _ (simAPI calm) (@setTimeout _ (simAPI calm) 100 w))%Z)
  /\ exists n : nat,
       at_ (simRun calm DatabaseBridge [segA; segB; segC] n) = Exited Drained
       /\ queueRef (simRun calm DatabaseBridge [segA; segB; segC] n) = []
       /\ submitted (trace (simRun calm DatabaseBridge [segA; segB; segC] n))
          = [segA; segB; segC].
Proof.
  assert (Htimer : forall w : sim,
             (@now _ (simAPI calm) w + 100
              <= @now _ (simAPI calm) (@setTimeout _ (simAPI calm) 100 w))%Z)
    by (intros w; cbn; lia).
  split; [exact Htimer|].
  destruct (@C1_fifo_at_most_once sim (simAPI calm) [segA; segB; segC] sim0)
    as (_ & _ & _ & L).
  destruct (L 100%Z eq_refl Htimer (fun _ => eq_refl)
              (fun w => ex_intro _ 0 eq_refl) (fun _ _ => eq_refl))
    as [n (H1 & H2 & _ & _ & H5 & _)].
  exists n. unfold simRun, startOn. repeat split; auto.
Defined.

Lemma invariant_flag (W : Type) (B : bridge) (q0 : list jsstring)
  (c : config W) :
  invariant B q0 c ->
  (exited c = false -> isProcessingRef c = true)
  /\ (forall e, at_ c = Exited e ->
                isProcessingRef c = false
                /\ (e = Drained \/ e = Disconnected \/ e = Threw)).
Proof.
  unfold invariant, exited.
  destruct (at_ c) as [s pre | pre t0 | | []].
  - intros (Hp & _). split; [auto | discriminate].
  - intros (Hp & _). split; [auto | discriminate].
  - intros (Hp & _). split; [auto | discriminate].
  - intros (Hp & _). split; [discriminate|]. intros e [= <-]. auto.
  - intros (Hp & _). split; [discriminate|]. intros e [= <-]. auto.
  - intros (Hp & _). split; [discriminate|]. intros e [= <-]. auto.
  - contradiction.
Qed.

Lemma loopTop_not_busy (W : Type) (API : LiveAPI W) (B : bridge)
  (q : list jsstring) :
  forall (p : bool) (w : W) (tr : list event),
    at_ (loopTop B q p w tr) <> Exited Busy.
Proof.
  induction q as [|x rest IH]; intros p w tr; cbn [loopTop].
  - cbn. discriminate.
  - destruct (negb (connected w)); [cbn; discriminate|].
    destruct (blank (scriptOf B (voiceStyle w) x)); [apply IH|].
    cbn. discriminate.
Qed.

(** C6, as stated, fails on DatabaseBridge.tsx: a start of the loop while
    an activation is suspended is not always turned away.  The effect
    clears the flag each time it runs (line 134) and then starts the loop
    when the queue is not empty (lines 200-202): here the first activation
    awaits the synthesis of its head, with the flag up, and the effect
    starts a second activation that hands the same head to the synthesis
    call. *)
Lemma C6_counterexample :
  exited (startOn calm DatabaseBridge [segA]) = false
  /\ isProcessingRef (startOn calm DatabaseBridge [segA]) = true
  /\ option_map (@at_ sim)
       (snd (@effectStart _ (simAPI calm) DatabaseBridge true true
               (queueRef (startOn calm DatabaseBridge [segA]))
               (isProcessingRef (startOn calm DatabaseBridge [segA]))
               sim0 []))
     = Some (AwaitSynth segA (mkAudio 0 0))
  /\ option_map (fun c : config sim => submitted (trace c))
       (snd (@effectStart _ (simAPI calm) DatabaseBridge true true
               (queueRef (startOn calm DatabaseBridge [segA]))
               (isProcessingRef (startOn calm DatabaseBridge [segA]))
               sim0 []))
     = Some [segA].
Proof. repeat split; vm_compute; reflexivity. Qed.

(** C6, amended.  The flag starts as [false].  A call of
    [processQueueLoop] that finds it [true] returns at once and changes
    nothing; a call that finds it [false] sets it and enters the loop.
    While an activation started that way is suspended the flag is [true],
    so that another call of [processQueueLoop] is of the first kind as
    long as the effect does not run again; and however the activation ends
    (queue drained, connection lost, or an error thrown) the flag is
    [false].  A run of the effect is not turned away: while an activation
    is suspended it clears the flag, and with the context connected and
    the queue not empty it starts a second loop on the same queue. *)
Theorem C6_single_flight (W : Type) (API : LiveAPI W) (B : bridge)
  (q0 : list jsstring) (w0 : W) :
  isProcessingRef_initial = false
  /\ (forall (q : list jsstring) (w : W) (tr : list event),
        processQueueLoop B q true w tr = mkConfig q true w (Exited Busy) tr
        /\ processQueueLoop B q false w tr = loopTop B q true w tr)
  /\ (forall c : config W,
        reaches B (processQueueLoop B q0 false w0 []) c ->
        (exited c = false ->
         isProcessingRef c = true
         /\ forall (w : W) (tr : list event),
              processQueueLoop B (queueRef c) (isProcessingRef c) w tr
              = mkConfig (queueRef c) true w (Exited Busy) tr)
        /\ (forall e : exit,
              at_ c = Exited e ->
              isProcessingRef c = false
              /\ (e = Drained \/ e = Disconnected \/ e = Threw)))
  /\ (forall (c : config W) (w1 : W),
        reaches B (processQueueLoop B q0 false w0 []) c ->
        exited c = false ->
        effectStart B true false (queueRef c) (isProcessingRef c) w1 []
        = (false, None)
        /\ (queueRef c <> [] ->
            effectStart B true true (queueRef c) (isProcessingRef c) w1 []
            = (isProcessingRef (loopTop B (queueRef c) true w1 []),
               Some (loopTop B (queueRef c) true w1 []))
            /\ at_ (loopTop B (queueRef c) true w1 []) <> Exited Busy)).
Proof.
  split; [reflexivity|]. split; [intros; split; reflexivity|]. split.
  - intros c Hc. apply reaches_inv in Hc.
    destruct (@invariant_flag _ _ _ _ Hc) as [H1 H2]. split; [|exact H2].
    intros Hex. specialize (H1 Hex). split; [exact H1|].
    intros w tr. now rewrite H1.
  - intros c w1 Hc Hex. split; [reflexivity|].
    intros Hq. unfold effectStart. cbn [negb].
    destruct (queueRef c) as [|x rest]; [contradiction|].
    split; [reflexivity | apply loopTop_not_busy].
Qed.

(** One segment drained: the flag is down at the end. *)
Lemma C6_witness :
  @reaches _ (simAPI calm) DatabaseBridge (startOn calm DatabaseBridge [segA])
    (simRun calm DatabaseBridge [segA] 1)
  /\ at_ (simRun calm DatabaseBridge [segA] 1) = Exited Drained
  /\ isProcessingRef (simRun calm DatabaseBridge [segA] 1) = false.
Proof.
  pose proof (@run_reaches _ (simAPI calm) DatabaseBridge
                (startOn calm DatabaseBridge [segA]) 1) as Hr.
  split; [exact Hr|]. split; [reflexivity|].
  destruct (@C6_single_flight sim (simAPI calm) DatabaseBridge [segA] sim0)
    as (_ & _ & H & _).
  destruct (H _ Hr) as [_ H2]. exact (proj1 (H2 Drained eq_refl)).
Defined.

(** The three ways out of the loop, on simulated worlds. *)
Example exits_happen :
  at_ (simRun calm DatabaseBridge [segA] 1) = Exited Drained
  /\ at_ (startOn (mkScenario (fun _ => true) (fun _ => 0%float)
                     (fun _ => false) natural false)
            DatabaseBridge [segA])
     = Exited Disconnected
  /\ at_ (simRun (mkScenario (fun _ => false) (fun _ => 0%float)
                    (fun _ => true) natural true)
            DatabaseBridge [segA] 1)
     = Exited Threw.
Proof. repeat split; reflexivity. Qed.

Section Stuck.
Context {W : Type} {API : LiveAPI W}.
Variable B : bridge.

Lemma stuck_from (c : config W) :
  at_ c = AwaitPipeline ->
  (forall j, lowWater (getAudioStreamerState
                         (worldAfter 200 j (setTimeout 200 (world c)))) = false) ->
  forall n, at_ (run B n c) = AwaitPipeline.
Proof.
  intros Hat Hlow [|n]; [exact Hat|].
  rewrite run_S. unfold resume. rewrite Hat. now apply pipeline_stuck.
Qed.

Lemma never_exits (c0 : config W) (k : nat) :
  at_ (run B k c0) = AwaitPipeline ->
  (forall j, lowWater (getAudioStreamerState
                         (worldAfter 200 j
                            (setTimeout 200 (world (run B k c0))))) = false) ->
  forall n, exited (run B n c0) = false.
Proof.
  intros Hat Hlow n. destruct (le_lt_dec n k) as [Hle | Hlt].
  - destruct (exited (run B n c0)) eqn:E; [|reflexivity].
    replace k with (n + (k - n)) in Hat by lia.
    rewrite run_add, run_exited in Hat by assumption.
    unfold exited in E. rewrite Hat in E. discriminate.
  - replace n with (k + (n - k)) by lia. rewrite run_add.
    unfold exited. now rewrite (stuck_from _ Hat Hlow).
Qed.

End Stuck.

(** C2, as stated, fails: the pipelining wait has no bound.  On a buffer
    that always reports five seconds of remaining audio the loop started on
    one segment never ends. *)
Lemma C2_counterexample :
  ~ exists n : nat, exited (simRun stuck DatabaseBridge [segA] n) = true.
Proof.
  intros [n Hn]. unfold simRun in Hn.
  rewrite (@never_exits _ (simAPI stuck) DatabaseBridge _ 1) in Hn.
  - discriminate.
  - reflexivity.
  - intros j. reflexivity.
Qed.

(** C2, amended.  The arrival wait is bounded by the clock: when a timer of
    100 ms moves [Date.now()] on by at least [d > 0], it ends after fewer
    than [15000 / d + 1] timers.  The pipelining wait is not bounded: it
    ends at the first poll, 200 ms apart, whose remaining duration is below
    3.0 (zero included), and the loop goes on from there; while no poll
    finds that, the loop stays in the wait. *)
Theorem C2_waits (W : Type) (API : LiveAPI W) (B : bridge) (d : Z) :
  (0 < d)%Z ->
  (forall w : W, (now w + d <= now (setTimeout 100 w))%Z) ->
  (forall (pre : AudioStreamerState) (q : list jsstring) (p : bool) (w : W)
      (tr : list event),
      exists k,
        (Z.of_nat k * d < 15000 + d)%Z
        /\ run B k (arrivalCheck B pre (now w) q p w tr)
           = pipelineCheck B q p (worldAfter 100 k w)
               (tr ++ polls 100 k w
                   ++ [arrivalEnd (now w) (worldAfter 100 k w)]))
  /\ (forall (q : list jsstring) (p : bool) (w : W) (tr : list event)
        (k : nat),
        (forall j, j < k ->
           lowWater (getAudioStreamerState (worldAfter 200 j w)) = false) ->
        lowWater (getAudioStreamerState (worldAfter 200 k w)) = true ->
        run B k (pipelineCheck B q p w tr)
        = loopTop B q p (worldAfter 200 k w)
            (tr ++ polls 200 k w
                ++ [EvGetState (getAudioStreamerState (worldAfter 200 k w))]))
  /\ (forall (q : list jsstring) (p : bool) (w : W) (tr : list event),
        (forall j,
           lowWater (getAudioStreamerState (worldAfter 200 j w)) = false) ->
        forall n, at_ (run B n (pipelineCheck B q p w tr)) = AwaitPipeline)
  /\ (forall e : float, lowWater (mkAudio e 0) = true).
Proof.
  intros Hd Htimer. split; [|split; [|split]].
  - intros pre q p w tr.
    destruct (arrival_wait_bounded B Hd Htimer pre q p w tr (Z.le_refl _))
      as [k (Hk & _ & _ & E)].
    exists k. auto.
  - intros q p w tr k Hbefore Hk.
    rewrite pipeline_rounds by assumption.
    rewrite pipeline_end by assumption. now rewrite <- app_assoc.
  - intros q p w tr Hlow. now apply pipeline_stuck.
  - intros e. reflexivity.
Qed.

(** The pipelining wait on the buffer that stays at five seconds. *)
Lemma C2_witness :
  (forall w : sim,
      (@now _ (simAPI stuck) w + 100
       <= @now _ (simAPI stuck) (@setTimeout _ (simAPI stuck) 100 w))%Z)
  /\ forall n : nat,
       at_ (@run _ (simAPI stuck) DatabaseBridge n
              (@pipelineCheck _ (simAPI stuck) DatabaseBridge [] true sim0 []))
       = AwaitPipeline.
Proof.
  assert (Htimer : forall w : sim,
             (@now _ (simAPI stuck) w + 100
              <= @now _ (simAPI stuck) (@setTimeout _ (simAPI stuck) 100 w))%Z)
    by (intros w; cbn; lia).
  split; [exact Htimer|].
  destruct (@C2_waits sim (simAPI stuck) DatabaseBridge 100 eq_refl Htimer)
    as (_ & _ & H & _).
  apply H. intros j. reflexivity.
Defined.



Lemma filter_jseq_absent (t : jsstring) (l : list jsstring) :
  ~ In t l -> filter (fun s => negb (negb (jseq s t))) l = [].
Proof.
  induction l as [|a l IH]; [reflexivity|]. cbn [filter In]. intros H.
  destruct (jseq a t) eqn:E.
  - apply jseq_true in E. exfalso. apply H. now left.
  - cbn [negb]. apply IH. intros Hin. apply H. now right.
Qed.

Lemma filter_In_keeps (t : jsstring) (f : jsstring -> bool)
  (l : list jsstring) :
  ~ In t l -> ~ In t (filter f l).
Proof. intros H Hin. apply filter_In in Hin. tauto. Qed.

(** C5, as stated, fails on part_001: there the fallback sends the
    style-annotated script, not the raw text of the segment. *)
Lemma C5_counterexample :
  at_ (simRun (failsOn (styledText breathy segB) breathy) DatabaseBridge_v1
         [segA; segB; segC] 153)
  = Exited Drained
  /\ fallbacks
       (trace (simRun (failsOn (styledText breathy segB) breathy)
                 DatabaseBridge_v1 [segA; segB; segC] 153))
     = [str "(soft inhale) Female 1: B ... (pause)"]
  /\ fallbacks
       (trace (simRun (failsOn (styledText breathy segB) breathy)
                 DatabaseBridge_v1 [segA; segB; segC] 153))
     <> [segB].
Proof.
  split; [vm_compute; reflexivity|].
  assert (E : fallbacks
                (trace (simRun (failsOn (styledText breathy segB) breathy)
                          DatabaseBridge_v1 [segA; segB; segC] 153))
              = [str "(soft inhale) Female 1: B ... (pause)"])
    by (vm_compute; reflexivity).
  split; [exact E|]. rewrite E. discriminate.
Qed.

(** C5, amended.  In both bridges, at every point of a run the texts sent
    through the fallback are the fallback texts of the scripts whose
    synthesis call answered [false], in order and once each.  When the call
    fails for the script of one segment [b] only, and the connection stays
    up, timers advance, the buffer drains and [client.send] returns, the
    loop ends with an empty queue after one fallback, for [b]; every other
    non-blank segment goes through the synthesis call only.  The text sent
    is, in DatabaseBridge.tsx, the segment without a leading
    [Male n:] / [Female n:] label, and in part_001 the style-annotated
    script that was given to the synthesis call. *)
Theorem C5_one_fallback_for_the_failed_segment (W : Type) (API : LiveAPI W)
  (B : bridge) (q0 : list jsstring) (w0 : W) :
  let start := processQueueLoop B q0 false w0 [] in
  (forall c : config W,
      reaches B start c ->
      fallbacks (trace c)
      = List.map (fallbackText B)
          (failedOf (submitted (trace c)) (results (trace c))))
  /\ (forall (d : Z) (sc : jsstring -> jsstring)
        (before after : list jsstring) (b : jsstring),
        q0 = before ++ b :: after ->
        (0 < d)%Z ->
        (forall w : W, (now w + d <= now (setTimeout 100 w))%Z) ->
        (forall w : W, connected w = true) ->
        (forall w : W,
            exists k,
              lowWater (getAudioStreamerState (worldAfter 200 k w)) = true) ->
        (forall (w : W) (x : jsstring), scriptOf B (voiceStyle w) x = sc x) ->
        (forall (s : jsstring) (w : W),
            fst (generateMultiSpeakerAudio s w) = negb (jseq s (sc b))) ->
        (forall w : W, client_send (fallbackText B (sc b)) w <> None) ->
        blank (sc b) = false ->
        ~ In (sc b) (List.map sc (before ++ after)) ->
        exists n : nat,
          let c := run B n start in
          at_ c = Exited Drained /\ queueRef c = []
          /\ isProcessingRef c = false
          /\ shifted (trace c) = q0
          /\ submitted (trace c) = filter nonblank (List.map sc q0)
          /\ results (trace c)
             = List.map (fun s => negb (jseq s (sc b))) (submitted (trace c))
          /\ fallbacks (trace c) = [fallbackText B (sc b)])
  /\ (forall s : jsstring,
        fallbackText DatabaseBridge s = stripSpeakerLabel s
        /\ fallbackText DatabaseBridge_v1 s = s)
  /\ stripSpeakerLabel segB = str "B"
  /\ styledText breathy segB = str "(soft inhale) Female 1: B ... (pause)".
Proof.
  cbv zeta. split; [|split; [|split; [|split]]].
  - intros c Hc. apply reaches_inv in Hc.
    destruct (@invariant_fifo _ _ _ _ Hc) as (_ & ss & pend & _ & _ & _ & _ & FB).
    exact FB.
  - intros d sc before after b Hq Hd Htimer Hconn Hdrain Hsc Hfail Hsend
      Hnb Hother.
    assert (Hsend' : forall (s : jsstring) (w : W),
               negb (jseq s (sc b)) = false ->
               client_send (fallbackText B s) w <> None).
    { intros s w Hs. apply negb_false_iff, jseq_true in Hs. subst s.
      apply Hsend. }
    destruct (@loop_drains W API B d Hd Htimer Hconn Hdrain sc Hsc
                (fun s => negb (jseq s (sc b))) Hfail Hsend' q0 true w0 [])
      as [n (H1 & H2 & H3 & H4 & H5 & H6 & H7)].
    exists n. unfold processQueueLoop. cbn in H4, H5, H6, H7.
    repeat split; auto.
    + now rewrite H5.
    + rewrite H7, Hq, map_app, !filter_app. cbn [List.map filter].
      unfold nonblank at 2. rewrite Hnb. cbn [negb filter].
      rewrite jseq_refl. cbn [negb].
      rewrite map_app in Hother.
      rewrite !filter_jseq_absent.
      * reflexivity.
      * apply filter_In_keeps. intros Hin. apply Hother, in_or_app. now right.
      * apply filter_In_keeps. intros Hin. apply Hother, in_or_app. now left.
  - intros s. split; reflexivity.
  - reflexivity.
  - reflexivity.
Qed.

(** The adapter fails on the second of three segments. *)
Lemma C5_witness :
  (forall w : sim,
      (@now _ (simAPI (failsOn segB natural)) w + 100
       <= @now _ (simAPI (failsOn segB natural))
            (@setTimeout _ (simAPI (failsOn segB natural)) 100 w))%Z)
  /\ exists n : nat,
       at_ (simRun (failsOn segB natural) DatabaseBridge [segA; segB; segC] n)
       = Exited Drained
       /\ queueRef (simRun (failsOn segB natural) DatabaseBridge
                      [segA; segB; segC] n) = []
       /\ fallbacks (trace (simRun (failsOn segB natural) DatabaseBridge
                              [segA; segB; segC] n))
          = [str "B"].
Proof.
  assert (Htimer : forall w : sim,
             (@now _ (simAPI (failsOn segB natural)) w + 100
              <= @now _ (simAPI (failsOn segB natural))
                   (@setTimeout _ (simAPI (failsOn segB natural)) 100 w))%Z)
    by (intros w; cbn; lia).
  split; [exact Htimer|].
  destruct (@C5_one_fallback_for_the_failed_segment sim
              (simAPI (failsOn segB natural)) DatabaseBridge
              [segA; segB; segC] sim0) as (_ & L & _).
  assert (Hfail : forall (s : jsstring) (w : sim),
             fst (@generateMultiSpeakerAudio _ (simAPI (failsOn segB natural))
                    s w)
             = negb (jseq s segB)).
  { intros s w. cbv [generateMultiSpeakerAudio simAPI adapterOk failsOn].
    destruct (negb (jseq s segB)); reflexivity. }
  destruct (L 100%Z (fun x => x) [segA] [segC] segB eq_refl eq_refl Htimer
              (fun _ => eq_refl) (fun w => ex_intro _ 0 eq_refl)
              (fun _ _ => eq_refl) Hfail)
    as [n (H1 & H2 & _ & _ & _ & _ & H7)].
  - intros w. discriminate.
  - reflexivity.
  - cbn. intros [H | [H | []]]; discriminate.
  - exists n. unfold simRun, startOn. repeat split; auto.
Defined.

Lemma invariant_reads (W : Type) (B : bridge) (q0 : list jsstring)
  (c : config W) :
  invariant B q0 c ->
  statusReads (trace c)
  = repeat true (length (shifted (trace c))) ++ openRead c.
Proof.
  unfold invariant, openRead.
  destruct (at_ c) as [s pre | pre t0 | | []].
  - intros (_ & _ & (_ & _ & R & _)). exact R.
  - intros (_ & (_ & _ & R & _)). exact R.
  - intros (_ & (_ & _ & R & _)). exact R.
  - intros (_ & _ & (_ & _ & R & _)). exact R.
  - intros (_ & _ & (_ & _ & R & _)). exact R.
  - intros (_ & (s & _ & (_ & _ & R & _))). exact R.
  - contradiction.
Qed.

Section Calls.
Context {W : Type} {API : LiveAPI W}.
Variable B : bridge.

(** A synthesis call is issued in a turn that has just read the connection
    as up, and right after the snapshot. *)
Lemma loopTop_call (q : list jsstring) :
  forall (p : bool) (w : W) (tr : list event) (s : jsstring)
    (pre : AudioStreamerState),
    at_ (loopTop B q p w tr) = AwaitSynth s pre ->
    connected w = true /\ world (loopTop B q p w tr) = w
    /\ pre = getAudioStreamerState w
    /\ exists tr', trace (loopTop B q p w tr)
                   = tr' ++ [EvStatus true; EvGetState pre; EvSynth s].
Proof.
  induction q as [|x rest IH]; intros p w tr s pre; [discriminate|].
  cbn [loopTop]. destruct (connected w) eqn:Hc; cbn [negb]; [|discriminate].
  destruct (blank (scriptOf B (voiceStyle w) x)).
  - intros H. destruct (IH _ _ _ _ _ H) as (_ & H2 & H3 & H4). auto.
  - cbn. intros [= <- <-]. repeat split; auto. now exists tr.
Qed.

End Calls.

(** C7, as stated, fails.  The waits do not look at the connection: with
    the connection lost while the first synthesis call is in flight and a
    buffer that does not drain, the loop polls on, reads the connection no
    more and never ends, so the flag stays set.  And when that call fails,
    the fallback is sent although the connection is lost. *)
Lemma C7_counterexample :
  @connected _ (simAPI (dropped true))
    (world (simRun (dropped true) DatabaseBridge [segA; segB] 1)) = false
  /\ (~ exists n,
         exited (simRun (dropped true) DatabaseBridge [segA; segB] n) = true)
  /\ statusReads (trace (simRun (dropped true) DatabaseBridge [segA; segB] 200))
     = [true]
  /\ length (trace (simRun (dropped true) DatabaseBridge [segA; segB] 200))
     > length (trace (simRun (dropped true) DatabaseBridge [segA; segB] 1))
  /\ isProcessingRef (simRun (dropped true) DatabaseBridge [segA; segB] 200)
     = true
  /\ @connected _ (simAPI (dropped false))
       (world (simRun (dropped false) DatabaseBridge [segA; segB] 1)) = false
  /\ fallbacks (trace (startOn (dropped false) DatabaseBridge [segA; segB]))
     = []
  /\ fallbacks (trace (simRun (dropped false) DatabaseBridge [segA; segB] 1))
     = [str "A"].
Proof.
  split; [reflexivity|]. split.
  - intros [n Hn]. unfold simRun in Hn.
    rewrite (@never_exits _ (simAPI (dropped true)) DatabaseBridge _ 1) in Hn.
    + discriminate.
    + reflexivity.
    + intros j. reflexivity.
  - repeat split; try (vm_compute; reflexivity). vm_compute. lia.
Qed.

(** C7, amended.  The loop reads the connection once per iteration, at its
    top, and nowhere else: the waits do not read it.  An iteration that
    finds the connection lost ends the loop at once, with the flag reset
    and nothing called; a synthesis call is issued only in a turn that has
    just read the connection as up; and an activation that has ended calls
    nothing more. *)
Theorem C7_connection_read_per_iteration (W : Type) (API : LiveAPI W)
  (B : bridge) (q0 : list jsstring) (w0 : W) :
  (forall (x : jsstring) (rest : list jsstring) (p : bool) (w : W)
      (tr : list event),
      connected w = false ->
      loopTop B (x :: rest) p w tr
      = mkConfig (x :: rest) false w (Exited Disconnected)
          (tr ++ [EvStatus false]))
  /\ (forall (q : list jsstring) (p : bool) (w : W) (tr : list event)
        (s : jsstring) (pre : AudioStreamerState),
        at_ (loopTop B q p w tr) = AwaitSynth s pre ->
        connected w = true /\ world (loopTop B q p w tr) = w
        /\ pre = getAudioStreamerState w
        /\ exists tr', trace (loopTop B q p w tr)
                       = tr' ++ [EvStatus true; EvGetState pre; EvSynth s])
  /\ (forall c : config W,
        reaches B (processQueueLoop B q0 false w0 []) c ->
        statusReads (trace c)
        = repeat true (length (shifted (trace c))) ++ openRead c
        /\ (at_ c = Exited Disconnected -> isProcessingRef c = false)
        /\ (exited c = true -> forall n, run B n c = c))
  /\ (forall (ms : Z) (k : nat) (w : W) (t0 : Z),
        statusReads (polls ms k w) = []
        /\ statusReads [arrivalEnd t0 w] = []).
Proof.
  split; [|split; [|split]].
  - intros x rest p w tr Hc. cbn [loopTop]. now rewrite Hc.
  - intros q p w tr s pre. apply loopTop_call.
  - intros c Hc. apply reaches_inv in Hc. split; [|split].
    + exact (@invariant_reads _ _ _ _ Hc).
    + intros Hat. destruct (@invariant_flag _ _ _ _ Hc) as [_ H].
      exact (proj1 (H _ Hat)).
    + intros Hex n. now apply run_exited.
  - intros ms k w t0. split.
    + apply polls_quiet.
    + apply arrivalEnd_quiet.
Qed.

(** An iteration that starts after the connection is lost. *)
Lemma C7_witness :
  let api := simAPI (dropped true) in
  @connected _ api (mkSim 300 0) = false
  /\ @loopTop _ api DatabaseBridge [segA] true (mkSim 300 0) []
     = mkConfig [segA] false (mkSim 300 0) (Exited Disconnected)
         [EvStatus false].
Proof.
  cbv zeta. split; [reflexivity|].
  destruct (@C7_connection_read_per_iteration sim (simAPI (dropped true))
              DatabaseBridge [] sim0) as (H & _).
  exact (H segA [] true (mkSim 300 0) [] eq_refl).
Defined.

(** C9, as stated, fails: under the breathy style the loop of part_001
    hands the filler over as it is, and the loop of DatabaseBridge.tsx
    hands every segment over as it is. *)
Lemma C9_counterexample :
  @voiceStyle _ (simAPI calm) sim0 = breathy
  /\ submitted (trace (startOn calm DatabaseBridge_v1 [filler]))
     = [str "(clears throat)"]
  /\ submitted (trace (startOn calm DatabaseBridge_v1 [filler]))
     <> [str "(soft inhale) (clears throat) ... (pause)"]
  /\ submitted (trace (startOn calm DatabaseBridge [str "Hola"]))
     = [str "Hola"]
  /\ submitted (trace (startOn calm DatabaseBridge [str "Hola"]))
     <> [str "(soft inhale) Hola ... (pause)"].
Proof. repeat split; try reflexivity; discriminate. Qed.

(** C9, amended.  In part_001 the script of a segment other than the filler
    is the segment between the markers of the voice style read in that
    iteration (breathy: soft inhale and pause; dramatic: slowly and long
    pause; natural: no marker), and the script of the filler is the filler
    under every style; in DatabaseBridge.tsx the script is the segment
    under every style.  In both, the scripts handed to the synthesis call
    are the scripts of the elements taken from the queue, in order, the
    blank ones left out. *)
Theorem C9_style_annotation :
  (forall rawText : jsstring,
      rawText <> filler ->
      styledText breathy rawText
      = str "(soft inhale) " ++ rawText ++ str " ... (pause)"
      /\ styledText dramatic rawText
         = str "(slowly) " ++ rawText ++ str " ... (long pause)"
      /\ styledText natural rawText = rawText)
  /\ (forall st : VoiceStyle, styledText st filler = filler)
  /\ (forall (st : VoiceStyle) (rawText : jsstring),
        scriptOf DatabaseBridge_v1 st rawText = styledText st rawText
        /\ scriptOf DatabaseBridge st rawText = rawText)
  /\ (forall (W : Type) (API : LiveAPI W) (B : bridge) (x : jsstring)
        (rest : list jsstring) (p : bool) (w : W) (tr : list event),
        connected w = true ->
        blank (scriptOf B (voiceStyle w) x) = false ->
        at_ (loopTop B (x :: rest) p w tr)
        = AwaitSynth (scriptOf B (voiceStyle w) x) (getAudioStreamerState w)
        /\ submitted (trace (loopTop B (x :: rest) p w tr))
           = submitted tr ++ [scriptOf B (voiceStyle w) x])
  /\ (forall (W : Type) (API : LiveAPI W) (B : bridge) (q0 : list jsstring)
        (w0 : W) (c : config W),
        reaches B (processQueueLoop B q0 false w0 []) c ->
        exists ss pend,
          submitted (trace c) = ss ++ pend
          /\ scripted B (shifted (trace c)) ss
          /\ (midCall c = false -> pend = [])
          /\ (midCall c = true ->
              exists x rest st,
                queueRef c = x :: rest /\ pend = [scriptOf B st x])).
Proof.
  split; [|split; [|split; [|split]]].
  - intros rawText Hne. unfold styledText.
    destruct (jseq rawText filler) eqn:E; [|auto].
    apply jseq_true in E. contradiction.
  - intros st. unfold styledText. now rewrite jseq_refl.
  - intros st rawText. split; reflexivity.
  - intros W API B x rest p w tr Hc Hb. cbn [loopTop]. rewrite Hc, Hb.
    cbn. split; [reflexivity|]. tr_norm. reflexivity.
  - intros W API B q0 w0 c Hc. apply reaches_inv in Hc.
    destruct (@invariant_fifo _ _ _ _ Hc)
      as (_ & ss & pend & S1 & S2 & P0 & P1 & _).
    exists ss, pend. repeat split; auto.
    intros Hm. destruct (P1 Hm) as (x & rest & st & Hq & Hp & _).
    exists x, rest, st. auto.
Qed.

(** A segment under the breathy and the dramatic style. *)
Lemma C9_witness :
  str "Hola" <> filler
  /\ styledText breathy (str "Hola") = str "(soft inhale) Hola ... (pause)"
  /\ styledText dramatic (str "Hola") = str "(slowly) Hola ... (long pause)".
Proof.
  assert (Hne : str "Hola" <> filler) by discriminate.
  split; [exact Hne|].
  destruct C9_style_annotation as (H & _).
  destruct (H (str "Hola") Hne) as (H1 & H2 & _). split; assumption.
Defined.

(* ===================================================================== *)
(** * Segments, scripts and deliveries                                    *)
(* ===================================================================== *)

Lemma trimStart_snoc_nonws (l : jsstring) (c : jschar) :
  isWhiteSpace c = false -> trimStart (l ++ [c]) <> [].
Proof.
  intros Hc. induction l as [|a l IH]; cbn.
  - rewrite Hc. discriminate.
  - destruct (isWhiteSpace a); [exact IH | discriminate].
Qed.

Lemma trim_cons_nonws (c : jschar) (x : jsstring) :
  isWhiteSpace c = false -> trim (c :: x) <> [].
Proof.
  intros Hc. unfold trim, trimEnd. cbn [trimStart]. rewrite Hc.
  cbn [rev]. intros H. apply (f_equal (@rev _)) in H.
  rewrite rev_involutive in H. cbn in H.
  exact (@trimStart_snoc_nonws (rev x) c Hc H).
Qed.

Lemma trim_head (t r : jsstring) (c : jschar) :
  trim t = c :: r -> isWhiteSpace c = false.
Proof.
  intros H. pose proof (trim_idem t) as Hi. rewrite H in Hi.
  destruct (isWhiteSpace c) eqn:Hc; [|reflexivity]. exfalso.
  assert (Hclean : trimStart (c :: r) = c :: r).
  { pose proof (clean_rev_trimStart_rev (clean_trimStart t)) as Hcl.
    unfold clean in Hcl. fold (trimEnd (trimStart t)) in Hcl.
    fold (trim t) in Hcl. now rewrite H in Hcl. }
  cbn [trimStart] in Hclean. rewrite Hc in Hclean.
  destruct (trimStart_suffix r) as [pre [E _]].
  rewrite Hclean in E. apply (f_equal (@length _)) in E.
  rewrite length_app in E. cbn [length] in E. lia.
Qed.

Lemma linesFrom_first (s : jsstring) :
  forall cur : jsstring,
  exists x rest, linesFrom cur s = (cur ++ x) :: rest.
Proof.
  induction s as [|c r IH]; intros cur; cbn [linesFrom].
  - exists [], []. now rewrite app_nil_r.
  - destruct (c =? LF)%N.
    + exists [], (linesFrom [] r). now rewrite app_nil_r.
    + destruct (IH (cur ++ [c])) as (x & rest & E).
      exists (c :: x), rest. rewrite E, <- app_assoc. reflexivity.
Qed.

(** A text that starts with a code unit other than white space has a
    segment. *)
Lemma segmentText_starts_nonws (c : jschar) (r : jsstring) :
  isWhiteSpace c = false -> segmentText (c :: r) <> [].
Proof.
  intros Hc. rewrite segmentText_lines.
  unfold spec_nonEmptyLines, spec_lines.
  destruct (linesFrom_first (c :: r) []) as (x & rest & E).
  rewrite E. cbn [app filter].
  assert (Hx : exists y, x = c :: y).
  { cbn [linesFrom] in E.
    assert (Hlf : (c =? LF)%N = false).
    { destruct (c =? LF)%N eqn:Hl; [|reflexivity].
      apply N.eqb_eq in Hl. subst c. discriminate. }
    rewrite Hlf in E.
    destruct (linesFrom_first r ([] ++ [c])) as (y & rest' & E').
    rewrite E' in E. injection E as E _. exists y. now rewrite <- E. }
  destruct Hx as [y ->].
  destruct (trim (c :: y)) eqn:Ht.
  - exfalso. exact (@trim_cons_nonws c y Hc Ht).
  - cbn. discriminate.
Qed.

Lemma trimStart_all_ws (s : jsstring) :
  forallb isWhiteSpace s = true -> trimStart s = [].
Proof.
  induction s as [|c r IH]; [reflexivity|]. cbn. intros H.
  apply andb_prop in H. destruct H as [-> H]. auto.
Qed.

Lemma trim_all_ws (s : jsstring) :
  forallb isWhiteSpace s = true -> trim s = [].
Proof. intros H. unfold trim. now rewrite trimStart_all_ws. Qed.

Lemma linesFrom_all_ws (s : jsstring) :
  forall cur : jsstring,
    forallb isWhiteSpace cur = true -> forallb isWhiteSpace s = true ->
    Forall (fun l => forallb isWhiteSpace l = true) (linesFrom cur s).
Proof.
  induction s as [|c r IH]; intros cur Hcur Hs; cbn [linesFrom].
  - constructor; auto.
  - cbn in Hs. apply andb_prop in Hs. destruct Hs as [Hc Hr].
    destruct (c =? LF)%N.
    + constructor; auto.
    + apply IH; auto. rewrite forallb_app, Hcur. cbn. now rewrite Hc.
Qed.

(** A text of white space only has no segment. *)
Lemma segmentText_all_ws (s : jsstring) :
  forallb isWhiteSpace s = true -> segmentText s = [].
Proof.
  intros H. rewrite segmentText_lines.
  unfold spec_nonEmptyLines, spec_lines.
  pose proof (@linesFrom_all_ws s [] eq_refl H) as Hall.
  induction Hall as [|l ls Hl _ IH]; [reflexivity|].
  cbn [filter]. rewrite (@trim_all_ws l Hl). cbn. exact IH.
Qed.

Lemma gate_after_accept (data : Transcript) (last : option jsstring) :
  gate data (Some (id data)) = NoText \/ gate data (Some (id data)) = Stale.
Proof.
  unfold gate. destruct (full_transcript_text data) as [[|c s]|]; auto.
  cbn [falsy]. rewrite jseq_refl. auto.
Qed.

Lemma processNewData_v1_twice (data : Transcript) (r : refs) :
  fst (processNewData_v1 data (fst (processNewData_v1 data r)))
  = fst (processNewData_v1 data r).
Proof.
  destruct (gate data (lastProcessedIdRef r)) eqn:G.
  - assert (E : processNewData_v1 data r = (r, NoText))
      by (unfold processNewData_v1; now rewrite G).
    rewrite E. cbn [fst]. now rewrite E.
  - assert (E : processNewData_v1 data r = (r, Stale))
      by (unfold processNewData_v1; now rewrite G).
    rewrite E. cbn [fst]. now rewrite E.
  - assert (E : exists q n,
               processNewData_v1 data r
               = (mkRefs (Some (id data)) n q, Accepted source)).
    { unfold processNewData_v1. rewrite G.
      destruct (enqueue _ _ _) as [q n]. eauto. }
    destruct E as (q & n & E). rewrite E. cbn [fst].
    unfold processNewData_v1. cbn [lastProcessedIdRef].
    destruct (gate_after_accept data None) as [-> | ->]; reflexivity.
Qed.

Lemma processNewData_full_twice (answer answer' : flashAnswer)
  (data : Transcript) (r : refs) :
  fst (processNewData_full answer' data (fst (processNewData_full answer data r)))
  = fst (processNewData_full answer data r).
Proof.
  destruct (gate data (lastProcessedIdRef r)) eqn:G.
  - assert (E : forall a, processNewData_full a data r = (r, NoText))
      by (intros a; unfold processNewData_full, processNewData; now rewrite G).
    rewrite (E answer). cbn [fst]. now rewrite E.
  - assert (E : forall a, processNewData_full a data r = (r, Stale))
      by (intros a; unfold processNewData_full, processNewData; now rewrite G).
    rewrite (E answer). cbn [fst]. now rewrite E.
  - assert (E : forall a, exists q,
               processNewData_full a data r
               = (mkRefs (Some (id data)) (paragraphCountRef r) q,
                  Accepted source)).
    { intros a. unfold processNewData_full, processNewData. rewrite G.
      unfold processNewData_queue. cbn. eauto. }
    destruct (E answer) as (q & Eq). rewrite Eq. cbn [fst].
    unfold processNewData_full, processNewData. cbn [lastProcessedIdRef].
    destruct (gate_after_accept data None) as [-> | ->]; reflexivity.
Qed.

(** X1.  A row delivered again right after itself, by the poll or by the
    subscription, changes nothing: the refs after two, or any number of,
    deliveries of a row are the refs after one.  In DatabaseBridge.tsx this
    holds before the diarization of the first delivery has answered: the
    gate does not accept the same row twice in a row. *)
Theorem X1_duplicate_delivery (d : delivery) (r : refs)
  (answer answer' : flashAnswer) (n : nat) :
  deliver_v1 d (deliver_v1 d r) = deliver_v1 d r
  /\ deliver answer' d (deliver answer d r) = deliver answer d r
  /\ Nat.iter (S n) (deliver_v1 d) r = deliver_v1 d r
  /\ (forall (data : Transcript) (source : jsstring),
        snd (processNewData data (fst (processNewData data r)))
        <> Accepted source).
Proof.
  assert (H1 : forall r0, deliver_v1 d (deliver_v1 d r0) = deliver_v1 d r0).
  { intros r0. unfold deliver_v1. destruct (delivered d) as [data|]; auto.
    apply processNewData_v1_twice. }
  split; [apply H1|]. split; [|split].
  - unfold deliver. destruct (delivered d) as [data|]; auto.
    apply processNewData_full_twice.
  - induction n as [|n IH]; [reflexivity|].
    change (Nat.iter (S (S n)) (deliver_v1 d) r)
      with (deliver_v1 d (Nat.iter (S n) (deliver_v1 d) r)).
    rewrite IH. apply H1.
  - intros data source.
    destruct (processNewData_verdict data (fst (processNewData data r)))
      as [-> _].
    rewrite processNewData_last.
    destruct (gate data (lastProcessedIdRef r)) eqn:G.
    + rewrite G. discriminate.
    + rewrite G. discriminate.
    + destruct (gate_after_accept data None) as [-> | ->]; discriminate.
Qed.

(** X2.  In part_001 an update whose text is white space only passes the
    gate: its id becomes the last accepted id although nothing is queued
    and nothing is counted; an update with the same id that comes next is
    then stale, whatever its text. *)
Theorem X2_blank_text_takes_the_id (data later : Transcript) (r : refs)
  (source : jsstring) :
  full_transcript_text data = Some source ->
  source <> [] ->
  forallb isWhiteSpace source = true ->
  lastProcessedIdRef r <> Some (id data) ->
  processNewData_v1 data r
  = (mkRefs (Some (id data)) (paragraphCountRef r) (segmentQueue r),
     Accepted source)
  /\ (id later = id data -> hasText later = true ->
      processNewData_v1 later (fst (processNewData_v1 data r))
      = (fst (processNewData_v1 data r), Stale)).
Proof.
  intros Ht Hne Hws Hlast.
  assert (E : processNewData_v1 data r
              = (mkRefs (Some (id data)) (paragraphCountRef r) (segmentQueue r),
                 Accepted source)).
  { unfold processNewData_v1. rewrite (gate_text data _ Ht Hne).
    destruct (option_eq_dec_js (lastProcessedIdRef r) (Some (id data)));
      [contradiction|].
    rewrite (segmentText_all_ws source Hws). reflexivity. }
  split; [exact E|]. intros Hid Hhas. rewrite E. cbn [fst].
  unfold processNewData_v1. cbn [lastProcessedIdRef].
  unfold hasText in Hhas.
  destruct (full_transcript_text later) as [[|c t]|] eqn:Hl; try discriminate.
  rewrite (@gate_text later _ (c :: t) Hl) by discriminate.
  rewrite Hid.
  destruct (option_eq_dec_js (Some (id data)) (Some (id data))); congruence.
Qed.

(** A blank row, then a row of the same id with a text. *)
Lemma X2_witness :
  processNewData_v1 (row "u" "hello" "t2")
    (fst (processNewData_v1 (row "u" "  " "t1") (mkRefs None 0 [])))
  = (mkRefs (Some (str "u")) 0 [], Stale).
Proof.
  assert (Hne : str "  " <> []) by discriminate.
  assert (Hlast : lastProcessedIdRef (mkRefs None 0 [])
                  <> Some (id (row "u" "  " "t1"))) by discriminate.
  destruct (@X2_blank_text_takes_the_id (row "u" "  " "t1")
              (row "u" "hello" "t2") (mkRefs None 0 []) (str "  ")
              eq_refl Hne eq_refl Hlast) as [E H].
  rewrite (H eq_refl eq_refl). rewrite E. reflexivity.
Defined.

(** X3.  The script that [diarizeAndTranslate] returns always has a
    segment, whatever the provider answers and whatever the text: it is the
    trimmed answer when that is not empty and the text under the label
    [Male 1: ] otherwise.  So in DatabaseBridge.tsx every accepted update
    lengthens the queue. *)
Theorem X3_diarized_script_has_a_segment (answer : flashAnswer)
  (text : jsstring) :
  segmentText (diarizeAndTranslate answer text) <> []
  /\ ((exists t, answer = FlashText (Some t) /\ trim t <> []
                 /\ diarizeAndTranslate answer text = trim t)
      \/ diarizeAndTranslate answer text = str "Male 1: " ++ text)
  /\ (forall (data : Transcript) (r : refs),
        gate data (lastProcessedIdRef r) = Accepted text ->
        length (segmentQueue (fst (processNewData_full answer data r)))
        > length (segmentQueue r)).
Proof.
  assert (Hdef : segmentText (str "Male 1: " ++ text) <> [])
    by (apply segmentText_starts_nonws; reflexivity).
  assert (Hseg : segmentText (diarizeAndTranslate answer text) <> []).
  { unfold diarizeAndTranslate. destruct answer as [|[t|]]; auto.
    destruct (trim t) as [|c x] eqn:Ht; cbn [falsy]; auto.
    apply segmentText_starts_nonws. exact (trim_head _ Ht). }
  split; [exact Hseg|]. split.
  - unfold diarizeAndTranslate. destruct answer as [|[t|]]; auto.
    destruct (trim t) as [|c x] eqn:Ht; cbn [falsy]; auto.
    left. exists t. rewrite Ht. repeat split; auto. discriminate.
  - intros data r G. unfold processNewData_full, processNewData.
    rewrite G. cbn [fst processNewData_queue segmentQueue].
    rewrite length_app.
    destruct (segmentText (diarizeAndTranslate answer text));
      [contradiction|]. cbn [length]. lia.
Qed.

(** A row whose diarization throws. *)
Lemma X3_witness :
  length (segmentQueue (fst (processNewData_full FlashThrows
                               (row "u" "hello" "t1") (mkRefs None 0 []))))
  > length (segmentQueue (mkRefs None 0 [])).
Proof.
  destruct (X3_diarized_script_has_a_segment FlashThrows (str "hello"))
    as (_ & _ & H).
  exact (H (row "u" "hello" "t1") (mkRefs None 0 []) eq_refl).
Defined.

Lemma matchIgnoreCase_suffix (pat : jsstring) :
  forall s r : jsstring,
    matchIgnoreCase pat s = Some r ->
    exists pre, s = pre ++ r /\ length pre = length pat.
Proof.
  induction pat as [|p pat IH]; intros s r; cbn [matchIgnoreCase].
  - intros [= ->]. exists []. auto.
  - destruct s as [|c s]; [discriminate|].
    destruct ((c =? p) || (c + 32 =? p))%N; [|discriminate].
    intros H. destruct (IH _ _ H) as (pre & -> & Hlen).
    exists (c :: pre). cbn. auto.
Qed.

Lemma linesFrom_noLF_single (s : jsstring) :
  forall cur : jsstring, ~ In LF s -> linesFrom cur s = [cur ++ s].
Proof.
  induction s as [|c r IH]; intros cur H; cbn [linesFrom].
  - now rewrite app_nil_r.
  - destruct (c =? LF)%N eqn:E.
    + apply N.eqb_eq in E. subst c. exfalso. apply H. now left.
    + rewrite IH, <- app_assoc; [reflexivity|].
      intros Hin. apply H. now right.
Qed.

Lemma linesFrom_pieces_noLF (s : jsstring) :
  forall cur : jsstring,
    ~ In LF cur -> Forall (fun l => ~ In LF l) (linesFrom cur s).
Proof.
  induction s as [|c r IH]; intros cur H; cbn [linesFrom].
  - constructor; auto.
  - destruct (c =? LF)%N eqn:E.
    + constructor; auto.
    + apply IH. intros Hin. apply in_app_or in Hin.
      destruct Hin as [Hin | [Hc | []]]; auto.
      apply N.eqb_neq in E. exact (E Hc).
Qed.

Lemma linesFrom_app_LF (a b : jsstring) :
  forall cur : jsstring,
    linesFrom cur (a ++ LF :: b) = linesFrom cur a ++ linesFrom [] b.
Proof.
  induction a as [|c r IH]; intros cur; cbn [app linesFrom].
  - reflexivity.
  - destruct (c =? LF)%N; [now rewrite IH | apply IH].
Qed.

Lemma trimStart_incl (s : jsstring) (x : jschar) :
  In x (trimStart s) -> In x s.
Proof.
  destruct (trimStart_suffix s) as (pre & E & _). intros H.
  rewrite E. apply in_or_app. now right.
Qed.

Lemma trim_incl (s : jsstring) (x : jschar) : In x (trim s) -> In x s.
Proof.
  unfold trim, trimEnd. intros H. apply in_rev in H.
  apply trimStart_incl in H. apply in_rev in H.
  now apply trimStart_incl in H.
Qed.

Lemma segmentText_of_segment (seg : jsstring) :
  ~ In LF seg -> trim seg = seg -> seg <> [] -> segmentText seg = [seg].
Proof.
  intros Hlf Ht Hne. rewrite segmentText_lines.
  unfold spec_nonEmptyLines, spec_lines.
  rewrite linesFrom_noLF_single by assumption. cbn [app filter].
  rewrite Ht. destruct seg as [|c x]; [contradiction|].
  cbn [falsy negb List.map]. now rewrite Ht.
Qed.

Lemma forallb_rev (A : Type) (f : A -> bool) (l : list A) :
  forallb f (rev l) = forallb f l.
Proof.
  destruct (forallb f l) eqn:E.
  - rewrite forallb_forall in *. intros x Hx. apply E. now apply in_rev.
  - destruct (forallb f (rev l)) eqn:E'; [|reflexivity].
    rewrite <- E. symmetry. rewrite forallb_forall in E'.
    apply forallb_forall. intros x Hx. apply E'. now apply in_rev in Hx.
Qed.

Lemma segmentText_single_line (x : jsstring) :
  ~ In LF x -> trim x <> [] -> segmentText x = [trim x].
Proof.
  intros Hlf Hne. rewrite segmentText_lines.
  unfold spec_nonEmptyLines, spec_lines.
  rewrite linesFrom_noLF_single by assumption. cbn [app filter].
  destruct (trim x) eqn:Ht; [contradiction|].
  cbn [falsy negb List.map]. now rewrite Ht.
Qed.

Lemma trimStart_nil_all_ws (l : jsstring) :
  trimStart l = [] -> forallb isWhiteSpace l = true.
Proof.
  induction l as [|c l IH]; [reflexivity|]. cbn [trimStart forallb].
  destruct (isWhiteSpace c); [exact IH | discriminate].
Qed.

Lemma trimEnd_all_ws (s : jsstring) :
  forallb isWhiteSpace s = true -> trimEnd s = [].
Proof.
  intros H. unfold trimEnd. rewrite trimStart_all_ws; [reflexivity|].
  now rewrite forallb_rev.
Qed.

Lemma trimEnd_app_text (a b : jsstring) :
  trimStart (rev b) <> [] -> trimEnd (a ++ b) = a ++ trimEnd b.
Proof.
  intros H. unfold trimEnd.
  rewrite rev_app_distr, trimStart_app_cons by assumption.
  now rewrite rev_app_distr, rev_involutive.
Qed.

Lemma trimEnd_app_blank (a b : jsstring) :
  trimStart (rev b) = [] -> trimEnd (a ++ b) = trimEnd a.
Proof.
  intros H. unfold trimEnd.
  now rewrite rev_app_distr, trimStart_app_nil by assumption.
Qed.

Lemma trimStart_trimEnd (s : jsstring) :
  trimStart (trimEnd s) = trimEnd (trimStart s).
Proof.
  destruct (trimStart_suffix s) as (pre & E & Hpre).
  destruct (trimStart (rev (trimStart s))) eqn:T.
  - assert (Hws : forallb isWhiteSpace (trimStart s) = true).
    { rewrite <- forallb_rev. now apply trimStart_nil_all_ws. }
    assert (Hnil : trimStart s = []).
    { rewrite <- trimStart_idem. now apply trimStart_all_ws. }
    rewrite Hnil in E. rewrite app_nil_r in E. subst pre.
    rewrite Hnil, trimEnd_all_ws by assumption. reflexivity.
  - assert (T' : trimStart (rev (trimStart s)) <> [])
      by (rewrite T; discriminate).
    rewrite E at 1. rewrite trimEnd_app_text by exact T'.
    rewrite trimStart_app_nil by (now apply trimStart_all_ws).
    apply (clean_rev_trimStart_rev (clean_trimStart s)).
Qed.

(** The fallback text of the trimmed default script. *)
Lemma strip_trimmed_Male_1 (s : jsstring) :
  stripSpeakerLabel (trim (str "Male 1: " ++ s)) = trim s.
Proof.
  unfold trim at 1.
  change (trimStart (str "Male 1: " ++ s)) with (str "Male 1:" ++ 32%N :: s).
  destruct (trimStart (rev (32%N :: s))) eqn:T.
  - rewrite trimEnd_app_blank by exact T.
    apply trimStart_nil_all_ws in T. rewrite forallb_rev in T.
    cbn [forallb] in T. apply andb_prop in T as [_ T].
    rewrite (trim_all_ws _ T). reflexivity.
  - assert (T' : trimStart (rev (32%N :: s)) <> [])
      by (rewrite T; discriminate).
    rewrite trimEnd_app_text by exact T'.
    assert (Hs : trimStart (rev s) <> []).
    { intros H. cbn [rev] in T.
      rewrite trimStart_app_nil in T by assumption. discriminate T. }
    change (32%N :: s) with ([32%N] ++ s).
    rewrite trimEnd_app_text by exact Hs.
    change (stripSpeakerLabel (str "Male 1:" ++ [32%N] ++ trimEnd s))
      with (trimStart (trimEnd s)).
    apply trimStart_trimEnd.
Qed.

(** X4.  The text that the fallback of DatabaseBridge.tsx sends for a
    queue element is the element or an end of it: what [stripSpeakerLabel]
    takes away is at most a [Male]/[Female] label of seven or nine code
    units at the start and the white space after it, so that the text sent
    does not start with white space when a label was taken away; after the
    label [Male 1: ] it leaves the rest without its leading white space.
    The queue holds trimmed lines: when the diarization of a text of one
    line fails, the queue gets one element, the trimmed [Male 1: ] script,
    and the fallback text for that element is the trimmed text (the empty
    text when the text is blank). *)
Theorem X4_fallback_text_is_an_end_of_the_script (s : jsstring) :
  (stripSpeakerLabel s = s
   \/ exists label ws,
        s = label ++ ws ++ stripSpeakerLabel s
        /\ (length label = 7 \/ length label = 9)
        /\ forallb isWhiteSpace ws = true
        /\ clean (stripSpeakerLabel s))
  /\ stripSpeakerLabel (str "Male 1: " ++ s) = trimStart s
  /\ (~ In LF s ->
      segmentText (diarizeAndTranslate FlashThrows s)
      = [trim (str "Male 1: " ++ s)]
      /\ stripSpeakerLabel (trim (str "Male 1: " ++ s)) = trim s).
Proof.
  split; [|split; [reflexivity|]].
  2: { intros Hlf. split; [|apply strip_trimmed_Male_1].
       unfold diarizeAndTranslate. apply segmentText_single_line.
       - intros Hin. apply in_app_or in Hin as [Hin | Hin]; [|now apply Hlf].
         cbn in Hin. repeat (destruct Hin as [Hin | Hin];
                             [discriminate Hin|]). exact Hin.
       - apply trim_cons_nonws. reflexivity. }
  unfold stripSpeakerLabel.
  assert (H : forall (pat : jsstring) (rest : jsstring),
             matchIgnoreCase pat s = Some rest ->
             (length pat = 4 \/ length pat = 6) ->
             match rest with
             | sp :: d :: colon :: r =>
                 if ((sp =? 32) && isDigit d && (colon =? 58))%N
                 then trimStart r else s
             | _ => s
             end = s
             \/ exists label ws,
                  s = label ++ ws ++
                      match rest with
                      | sp :: d :: colon :: r =>
                          if ((sp =? 32) && isDigit d && (colon =? 58))%N
                          then trimStart r else s
                      | _ => s
                      end
                  /\ (length label = 7 \/ length label = 9)
                  /\ forallb isWhiteSpace ws = true
                  /\ clean (match rest with
                            | sp :: d :: colon :: r =>
                                if ((sp =? 32) && isDigit d && (colon =? 58))%N
                                then trimStart r else s
                            | _ => s
                            end)).
  { intros pat rest Hm Hlen.
    destruct (matchIgnoreCase_suffix _ _ Hm) as (pre & Hs & Hpre).
    destruct rest as [|sp [|d [|colon r]]]; auto.
    destruct ((sp =? 32) && isDigit d && (colon =? 58))%N; auto.
    right. destruct (trimStart_suffix r) as (ws & Hr & Hws).
    exists (pre ++ [sp; d; colon]), ws. repeat split.
    - rewrite Hs at 1. rewrite Hr at 1. rewrite <- !app_assoc. reflexivity.
    - rewrite length_app, Hpre. cbn [length]. lia.
    - exact Hws.
    - apply clean_trimStart. }
  destruct (matchIgnoreCase (str "male") s) as [r1|] eqn:M1.
  - apply (H _ _ M1). left. reflexivity.
  - destruct (matchIgnoreCase (str "female") s) as [r2|] eqn:M2; auto.
    apply (H _ _ M2). right. reflexivity.
Qed.

(** A text of one line with white space at its end: the fallback sends it
    trimmed. *)
Lemma X4_witness :
  segmentText (diarizeAndTranslate FlashThrows (str "hi  "))
  = [str "Male 1: hi"]
  /\ stripSpeakerLabel (str "Male 1: hi") = str "hi".
Proof.
  refine (proj2 (proj2 (X4_fallback_text_is_an_end_of_the_script
                          (str "hi  "))) _).
  cbn. intros H. repeat (destruct H as [H | H]; [discriminate H|]). exact H.
Defined.

(** X5.  Segmenting goes line by line: the segments of two texts joined by
    a line feed are the segments of the first followed by the segments of
    the second.  A segment holds no line feed, and it is its own only
    segment: segmenting what was segmented changes nothing. *)
Theorem X5_segments_compose (a b : jsstring) :
  segmentText (a ++ LF :: b) = segmentText a ++ segmentText b
  /\ segmentText (a ++ [LF]) = segmentText a
  /\ (forall seg, In seg (segmentText a) ->
        ~ In LF seg /\ segmentText seg = [seg])
  /\ flat_map segmentText (segmentText a) = segmentText a.
Proof.
  assert (Happ : forall b', segmentText (a ++ LF :: b')
                            = List.map trim (spec_nonEmptyLines a)
                              ++ List.map trim (spec_nonEmptyLines b')).
  { intros b'. rewrite segmentText_lines.
    unfold spec_nonEmptyLines, spec_lines.
    now rewrite linesFrom_app_LF, filter_app, map_app. }
  assert (Hseg : forall seg, In seg (segmentText a) ->
                 ~ In LF seg /\ segmentText seg = [seg]).
  { intros seg Hin.
    destruct (segmentText_trimmed _ _ Hin) as [Ht Hne].
    assert (Hlf : ~ In LF seg).
    { rewrite segmentText_lines in Hin. apply in_map_iff in Hin.
      destruct Hin as (l & <- & Hl). unfold spec_nonEmptyLines in Hl.
      apply filter_In in Hl. destruct Hl as [Hl _].
      pose proof (@linesFrom_pieces_noLF a [] (fun H => H)) as Hall.
      rewrite Forall_forall in Hall. intros Hx.
      apply (Hall l Hl). now apply trim_incl. }
    split; [exact Hlf|]. now apply segmentText_of_segment. }
  split; [|split; [|split]].
  - rewrite Happ, <- !segmentText_lines. reflexivity.
  - rewrite Happ, <- segmentText_lines. cbn. now rewrite app_nil_r.
  - exact Hseg.
  - induction (segmentText a) as [|seg l IH]; [reflexivity|].
    cbn [flat_map]. destruct (Hseg seg (or_introl eq_refl)) as [_ ->].
    cbn [app]. f_equal. apply IH. intros s Hs. apply Hseg. now right.
Qed.

(** A segment of a text of two lines. *)
Lemma X5_witness :
  In (str "b") (segmentText (str "a
 b "))
  /\ segmentText (str "b") = [str "b"].
Proof.
  assert (Hin : In (str "b") (segmentText (str "a
 b "))) by (right; left; reflexivity).
  split; [exact Hin|].
  destruct (X5_segments_compose (str "a
 b ") []) as (_ & _ & H & _).
  exact (proj2 (H (str "b") Hin)).
Defined.

(* ===================================================================== *)
(** * The loop over several activations                                   *)
(* ===================================================================== *)

Lemma reaches_DatabaseBridge (W : Type) (API : LiveAPI W)
  (q0 : list jsstring) (w0 : W) (c : config W) :
  reaches DatabaseBridge (processQueueLoop DatabaseBridge q0 false w0 []) c ->
  shifted (trace c) ++ queueRef c = q0 ++ pushed (trace c)
  /\ submitted (trace c)
     = filter nonblank (shifted (trace c))
       ++ (if midCall c then firstn 1 (queueRef c) else []).
Proof.
  intros Hc. apply reaches_inv in Hc.
  destruct (@invariant_fifo _ _ _ _ Hc)
    as (F & ss & pend & S1 & S2 & P0 & P1 & _).
  apply scripted_DatabaseBridge in S2. subst ss.
  split; [assumption|]. destruct (midCall c).
  - destruct (P1 eq_refl) as (x & rest & st & Hq & Hp & _).
    rewrite Hq, S1, Hp. reflexivity.
  - now rewrite S1, (P0 eq_refl).
Qed.

(** X6.  The loop of DatabaseBridge.tsx over two activations.  When an
    activation has ended, with the queue drained or with the connection
    found lost, and a later activation is started on the queue it left
    (with whatever was appended meanwhile), the two traces together still
    show removal from the head in the order of queueing, and the texts
    handed to the synthesis call are still the non-blank removed elements,
    once each: an ended activation leaves nothing half done. *)
Theorem X6_restart_loses_and_repeats_nothing (W : Type) (API : LiveAPI W)
  (q0 more : list jsstring) (w0 w1 : W) (c1 c2 : config W) :
  reaches DatabaseBridge (processQueueLoop DatabaseBridge q0 false w0 []) c1 ->
  at_ c1 = Exited Drained \/ at_ c1 = Exited Disconnected ->
  reaches DatabaseBridge
    (processQueueLoop DatabaseBridge (queueRef c1 ++ more)
       (isProcessingRef c1) w1 []) c2 ->
  (shifted (trace c1) ++ shifted (trace c2)) ++ queueRef c2
  = q0 ++ pushed (trace c1) ++ more ++ pushed (trace c2)
  /\ submitted (trace c1) ++ submitted (trace c2)
     = filter nonblank (shifted (trace c1) ++ shifted (trace c2))
       ++ (if midCall c2 then firstn 1 (queueRef c2) else []).
Proof.
  intros H1 Hend H2.
  assert (Hp : isProcessingRef c1 = false).
  { apply reaches_inv in H1.
    destruct (@invariant_flag _ _ _ _ H1) as [_ Hf].
    destruct Hend as [E | E]; exact (proj1 (Hf _ E)). }
  rewrite Hp in H2.
  destruct (@reaches_DatabaseBridge _ _ _ _ _ H1) as [F1 S1].
  destruct (@reaches_DatabaseBridge _ _ _ _ _ H2) as [F2 S2].
  assert (Hm : midCall c1 = false)
    by (unfold midCall; destruct Hend as [-> | ->]; reflexivity).
  rewrite Hm, app_nil_r in S1. split.
  - rewrite <- app_assoc, F2, <- !app_assoc.
    rewrite (app_assoc (shifted (trace c1))), F1, <- app_assoc. reflexivity.
  - rewrite S1, S2, filter_app, app_assoc. reflexivity.
Qed.

(** One segment drained by a first activation, then a second activation
    on the queue it left with a segment appended, run to its end: both
    segments are removed and submitted, in order and once each. *)
Lemma X6_witness :
  at_ (simRun calm DatabaseBridge [segA] 1) = Exited Drained
  /\ (shifted (trace (simRun calm DatabaseBridge [segA] 1))
      ++ shifted
           (trace
              (@run _ (simAPI calm) DatabaseBridge 1
                 (@processQueueLoop _ (simAPI calm) DatabaseBridge
                    (queueRef (simRun calm DatabaseBridge [segA] 1) ++ [segB])
                    (isProcessingRef (simRun calm DatabaseBridge [segA] 1))
                    (world (simRun calm DatabaseBridge [segA] 1)) []))))
     ++ queueRef
          (@run _ (simAPI calm) DatabaseBridge 1
             (@processQueueLoop _ (simAPI calm) DatabaseBridge
                (queueRef (simRun calm DatabaseBridge [segA] 1) ++ [segB])
                (isProcessingRef (simRun calm DatabaseBridge [segA] 1))
                (world (simRun calm DatabaseBridge [segA] 1)) []))
     = [segA; segB]
  /\ submitted (trace (simRun calm DatabaseBridge [segA] 1))
     ++ submitted
          (trace
             (@run _ (simAPI calm) DatabaseBridge 1
                (@processQueueLoop _ (simAPI calm) DatabaseBridge
                   (queueRef (simRun calm DatabaseBridge [segA] 1) ++ [segB])
                   (isProcessingRef (simRun calm DatabaseBridge [segA] 1))
                   (world (simRun calm DatabaseBridge [segA] 1)) [])))
     = [segA; segB].
Proof.
  assert (Hend : at_ (simRun calm DatabaseBridge [segA] 1) = Exited Drained)
    by reflexivity.
  split; [exact Hend|].
  exact (@X6_restart_loses_and_repeats_nothing sim (simAPI calm)
           [segA] [segB] sim0 (world (simRun calm DatabaseBridge [segA] 1))
           (simRun calm DatabaseBridge [segA] 1)
           (@run _ (simAPI calm) DatabaseBridge 1
              (@processQueueLoop _ (simAPI calm) DatabaseBridge
                 (queueRef (simRun calm DatabaseBridge [segA] 1) ++ [segB])
                 (isProcessingRef (simRun calm DatabaseBridge [segA] 1))
                 (world (simRun calm DatabaseBridge [segA] 1)) []))
           (@run_reaches _ (simAPI calm) DatabaseBridge
              (startOn calm DatabaseBridge [segA]) 1)
           (or_introl Hend)
           (@run_reaches _ (simAPI calm) DatabaseBridge _ 1)).
Defined.

(** X7.  When the fallback of DatabaseBridge.tsx throws, the activation
    ends with the flag reset and with the segment still at the head of the
    queue, so that the next start of the loop, on a connected client, hands
    the same segment to the synthesis call a second time. *)
Theorem X7_throw_leaves_the_head (W : Type) (API : LiveAPI W)
  (q0 : list jsstring) (w0 w1 : W) (c1 : config W) :
  reaches DatabaseBridge (processQueueLoop DatabaseBridge q0 false w0 []) c1 ->
  at_ c1 = Exited Threw ->
  connected w1 = true ->
  exists (x : jsstring) (rest ss : list jsstring),
    queueRef c1 = x :: rest
    /\ isProcessingRef c1 = false
    /\ submitted (trace c1) = ss ++ [x]
    /\ at_ (processQueueLoop DatabaseBridge (queueRef c1)
              (isProcessingRef c1) w1 [])
       = AwaitSynth x (getAudioStreamerState w1)
    /\ submitted (trace (processQueueLoop DatabaseBridge (queueRef c1)
                           (isProcessingRef c1) w1 []))
       = [x].
Proof.
  intros H1 Hat Hconn. apply reaches_inv in H1.
  destruct (@invariant_flag _ _ _ _ H1) as [_ Hf].
  destruct (Hf _ Hat) as [Hp _].
  unfold invariant in H1. rewrite Hat in H1.
  destruct H1 as (_ & s & (x & rest & st & Hq & Hs & Hb)
                    & (_ & (ss & S1 & _ & _) & _)).
  cbn [DatabaseBridge scriptOf] in Hs. subst s.
  exists x, rest, ss. rewrite Hq, Hp.
  repeat split; auto; unfold processQueueLoop; cbn [loopTop];
    rewrite Hconn; cbn [negb DatabaseBridge scriptOf]; rewrite Hb;
    reflexivity.
Qed.

(** The adapter fails and the fallback throws. *)
Lemma X7_witness :
  exists ss : list jsstring,
    submitted (trace (simRun (mkScenario (fun _ => false) (fun _ => 0%float)
                                (fun _ => true) natural true)
                        DatabaseBridge [segA; segB] 1))
    = ss ++ [segA].
Proof.
  destruct (@X7_throw_leaves_the_head sim
              (simAPI (mkScenario (fun _ => false) (fun _ => 0%float)
                         (fun _ => true) natural true))
              [segA; segB] sim0 sim0
              (simRun (mkScenario (fun _ => false) (fun _ => 0%float)
                         (fun _ => true) natural true)
                 DatabaseBridge [segA; segB] 1))
    as (x & rest & ss & Hq & _ & Hs & _).
  - apply run_reaches.
  - reflexivity.
  - reflexivity.
  - exists ss. injection Hq as <- _. exact Hs.
Defined.

(** X8.  The start of the effect.  With the context not connected it
    forces the flag to [false] and starts nothing.  With the context
    connected it starts the loop whenever the queue is not empty, and that
    start is never turned away, because the flag has just been cleared:
    while an earlier activation is still suspended, a direct call of
    [processQueueLoop] returns at once, but the effect starts a second
    activation on the same queue; if the earlier one awaits the synthesis
    of the head, the second one of DatabaseBridge.tsx hands the same head
    to the synthesis call. *)
Theorem X8_effect_start_clears_the_flag (W : Type) (API : LiveAPI W)
  (B : bridge) (q0 : list jsstring) (w0 w1 : W) (c : config W) :
  reaches B (processQueueLoop B q0 false w0 []) c ->
  exited c = false ->
  effectStart B true false (queueRef c) (isProcessingRef c) w1 []
  = (false, None)
  /\ at_ (processQueueLoop B (queueRef c) (isProcessingRef c) w1 [])
     = Exited Busy
  /\ (queueRef c <> [] ->
      exists c2 : config W,
        snd (effectStart B true true (queueRef c) (isProcessingRef c) w1 [])
        = Some c2
        /\ c2 = loopTop B (queueRef c) true w1 []
        /\ at_ c2 <> Exited Busy)
  /\ (forall (s : jsstring) (pre : AudioStreamerState),
        B = DatabaseBridge -> at_ c = AwaitSynth s pre ->
        connected w1 = true ->
        exists c2 : config W,
          snd (effectStart B true true (queueRef c) (isProcessingRef c) w1 [])
          = Some c2
          /\ at_ c2 = AwaitSynth s (getAudioStreamerState w1)
          /\ submitted (trace c2) = [s]).
Proof.
  intros Hc Hex. apply reaches_inv in Hc.
  destruct (@invariant_flag _ _ _ _ Hc) as [Hf _].
  specialize (Hf Hex). rewrite Hf.
  split; [reflexivity|]. split; [reflexivity|]. split.
  - intros Hq. unfold effectStart. cbn [negb].
    destruct (queueRef c) as [|x rest] eqn:Eq; [contradiction|].
    eexists. split; [reflexivity|]. split; [reflexivity|].
    apply loopTop_not_busy.
  - intros s pre -> Hat Hconn. unfold invariant in Hc. rewrite Hat in Hc.
    destruct Hc as (_ & (x & rest & st & Hq & Hs & Hb) & _).
    cbn [DatabaseBridge scriptOf] in Hs. subst s.
    unfold effectStart. cbn [negb]. rewrite Hq.
    eexists. split; [reflexivity|].
    unfold processQueueLoop. cbn [loopTop]. rewrite Hconn.
    cbn [negb DatabaseBridge scriptOf]. rewrite Hb. split; reflexivity.
Qed.

(** The effect runs again while the first synthesis call is in flight. *)
Lemma X8_witness :
  exists c2 : config sim,
    snd (@effectStart _ (simAPI calm) DatabaseBridge true true [segA] true
           sim0 [])
    = Some c2
    /\ submitted (trace c2) = [segA].
Proof.
  destruct (@X8_effect_start_clears_the_flag sim (simAPI calm) DatabaseBridge
              [segA] sim0 sim0 (startOn calm DatabaseBridge [segA]))
    as (_ & _ & _ & H).
  - constructor.
  - reflexivity.
  - destruct (H segA (mkAudio 0 0) eq_refl eq_refl eq_refl)
      as (c2 & E & _ & S).
    exists c2. split; [exact E | exact S].
Defined.

Lemma blank_starts_nonws (c : jschar) (x : jsstring) :
  isWhiteSpace c = false -> blank (c :: x) = false.
Proof.
  intros Hc. unfold blank. cbn [falsy orb].
  destruct (trim (c :: x)) eqn:Ht; [|reflexivity].
  exfalso. exact (@trim_cons_nonws c x Hc Ht).
Qed.

Lemma styledText_nonblank (st : VoiceStyle) (x : jsstring) :
  x = filler \/ (trim x = x /\ x <> []) -> blank (styledText st x) = false.
Proof.
  intros Hx. unfold styledText.
  assert (Hraw : blank x = false).
  { destruct Hx as [-> | [Ht Hne]]; [reflexivity|].
    destruct x as [|c y]; [contradiction|].
    apply blank_starts_nonws. exact (trim_head _ Ht). }
  destruct (jseq x filler); [exact Hraw|].
  destruct st; [exact Hraw | |]; apply blank_starts_nonws; reflexivity.
Qed.

Lemma spec_withFillers_In (count : Z) (segs : list jsstring) (x : jsstring) :
  In x (spec_withFillers count segs) -> x = filler \/ In x segs.
Proof.
  unfold spec_withFillers. intros H. apply in_flat_map in H.
  destruct H as ([k s] & Hin & Hx). apply in_combine_r in Hin.
  cbn [fst snd] in Hx.
  destruct ((count + Z.of_nat k) mod 3 =? 0)%Z; cbn [In] in Hx;
    [destruct Hx as [<- | [<- | []]] | destruct Hx as [<- | []]]; auto.
Qed.

(** X9.  part_001 from an update to the synthesis calls.  When an update is
    accepted and the loop is started on the queue it leaves, on a client
    that stays connected, with an adapter that succeeds, timers that
    advance, a buffer that drains and a voice style that does not change,
    the loop ends with an empty queue, and the scripts handed to the
    synthesis call are the scripts of what was queued before, followed by
    the scripts of the trimmed non-empty lines of the update in their
    order, with the filler after every third segment of the running
    count: nothing of the update is skipped. *)
Theorem X9_update_to_synthesis_calls (W : Type) (API : LiveAPI W)
  (data : Transcript) (r : refs) (source : jsstring) (st : VoiceStyle)
  (d : Z) (w0 : W) :
  gate data (lastProcessedIdRef r) = Accepted source ->
  (0 <= paragraphCountRef r)%Z ->
  (paragraphCountRef r + Z.of_nat (length (segmentText source)) <= 2 ^ 53)%Z ->
  (0 < d)%Z ->
  (forall w : W, (now w + d <= now (setTimeout 100 w))%Z) ->
  (forall w : W, connected w = true) ->
  (forall w : W,
      exists k, lowWater (getAudioStreamerState (worldAfter 200 k w)) = true) ->
  (forall w : W, voiceStyle w = st) ->
  (forall (s : jsstring) (w : W), fst (generateMultiSpeakerAudio s w) = true) ->
  exists n : nat,
    let c := run DatabaseBridge_v1 n
               (processQueueLoop DatabaseBridge_v1
                  (segmentQueue (fst (processNewData_v1 data r))) false w0 []) in
    at_ c = Exited Drained /\ queueRef c = []
    /\ submitted (trace c)
       = filter nonblank (List.map (styledText st) (segmentQueue r))
         ++ List.map (styledText st)
              (spec_withFillers (paragraphCountRef r) (segmentText source))
    /\ fallbacks (trace c) = [].
Proof.
  intros G H0 Hmax Hd Htimer Hconn Hdrain Hst Hok.
  assert (E : processNewData_v1 data r
              = (mkRefs (Some (id data))
                   (paragraphCountRef r + Z.of_nat (length (segmentText source)))
                   (segmentQueue r
                    ++ spec_withFillers (paragraphCountRef r)
                         (segmentText source)),
                 Accepted source)).
  { unfold processNewData_v1. rewrite G.
    now rewrite enqueue_withFillers by assumption. }
  rewrite E. cbn [fst segmentQueue].
  destruct (@loop_drains W API DatabaseBridge_v1 d Hd Htimer Hconn Hdrain
              (styledText st)
              (fun w x => f_equal (fun s => styledText s x) (Hst w))
              (fun _ => true) Hok
              (fun s w (H : true = false) =>
                 False_ind _ (Bool.diff_true_false H))
              (segmentQueue r
               ++ spec_withFillers (paragraphCountRef r) (segmentText source))
              true w0 []) as [n H].
  exists n. unfold processQueueLoop.
  destruct H as (H1 & H2 & _ & _ & H5 & _ & H7).
  cbn in H5, H7. rewrite filter_none in H7.
  repeat split; auto.
  rewrite H5, map_app, filter_app. f_equal.
  apply filter_all. apply forallb_forall. intros s Hs.
  apply in_map_iff in Hs. destruct Hs as (x & <- & Hx).
  unfold nonblank. rewrite styledText_nonblank; [reflexivity|].
  apply spec_withFillers_In in Hx. destruct Hx as [-> | Hx]; auto.
  right. exact (segmentText_trimmed _ _ Hx).
Qed.

(** An update of three lines under the breathy style, on the calm world. *)
Lemma X9_witness :
  exists n : nat,
    submitted
      (trace (simRun calm DatabaseBridge_v1
                (segmentQueue
                   (fst (processNewData_v1 (row "u" "one
two
three" "t1") (mkRefs None 0 [])))) n))
    = [str "(soft inhale) one ... (pause)"; str "(soft inhale) two ... (pause)";
       str "(soft inhale) three ... (pause)"; filler].
Proof.
  assert (Htimer : forall w : sim,
             (@now _ (simAPI calm) w + 100
              <= @now _ (simAPI calm) (@setTimeout _ (simAPI calm) 100 w))%Z)
    by (intros w; cbn; lia).
  assert (Hmax : (paragraphCountRef (mkRefs None 0 [])
                  + Z.of_nat (length (segmentText (str "one
two
three"))) <= 2 ^ 53)%Z) by (vm_compute; discriminate).
  destruct (@X9_update_to_synthesis_calls sim (simAPI calm)
              (row "u" "one
two
three" "t1") (mkRefs None 0 []) (str "one
two
three") breathy 100 sim0 eq_refl (Z.le_refl 0) Hmax eq_refl Htimer
              (fun _ => eq_refl) (fun w => ex_intro _ 0 eq_refl)
              (fun _ => eq_refl) (fun _ _ => eq_refl))
    as [n (_ & _ & H & _)].
  exists n. exact H.
Defined.
(* ===================================================================== *)
(** * lib/state.ts: the tool list                                         *)
(* ===================================================================== *)

Lemma digits_inj (u v : Decimal.uint) : digits u = digits v -> u = v.
Proof.
  revert v. induction u; intros v; destruct v; cbn [digits];
    intros H; try reflexivity; try discriminate H;
    injection H as H; f_equal; now apply IHu.
Qed.

Lemma numberToString_inj (n m : nat) :
  numberToString n = numberToString m -> n = m.
Proof.
  unfold numberToString. intros H. apply digits_inj in H.
  rewrite <- (DecimalNat.Unsigned.of_to n), <- (DecimalNat.Unsigned.of_to m).
  now rewrite H.
Qed.

Lemma NoDup_map_inj (A B : Type) (f : A -> B) (l : list A) :
  (forall x y, f x = f y -> x = y) -> NoDup l -> NoDup (List.map f l).
Proof.
  intros Hf. induction 1 as [|x l Hx Hl IH]; cbn [List.map]; constructor;
    [|assumption].
  intros Hin. apply in_map_iff in Hin as (y & E & Hy).
  apply Hf in E. now subst.
Qed.

Section ToolsFacts.
Variables Params Scheduling : Type.
Variable objectParameters : Params.
Variable INTERRUPT : Scheduling.

Lemma candidate_inj (i j : nat) : Tools.candidate i = Tools.candidate j -> i = j.
Proof.
  destruct i as [|i], j as [|j]; cbn [Tools.candidate]; intros H.
  - reflexivity.
  - apply (f_equal (@length N)) in H. rewrite length_app in H.
    cbn in H. lia.
  - apply (f_equal (@length N)) in H. rewrite length_app in H.
    cbn in H. lia.
  - apply app_inv_head in H. now apply numberToString_inj.
Qed.

Lemma hasName_In (n : jsstring) (tools : list (Tools.FunctionCall Params Scheduling)) :
  Tools.hasName n tools = true <-> In n (Tools.names tools).
Proof.
  unfold Tools.hasName, Tools.names. rewrite existsb_exists, in_map_iff.
  split.
  - intros (t & Hin & E). apply jseq_true in E. now exists t.
  - intros (t & E & Hin). exists t. split; [assumption|]. now apply jseq_true.
Qed.

Lemma hasName_false (n : jsstring) (tools : list (Tools.FunctionCall Params Scheduling)) :
  Tools.hasName n tools = false <-> ~ In n (Tools.names tools).
Proof.
  rewrite <- hasName_In. destruct (Tools.hasName n tools); split; intros H;
    congruence.
Qed.

(** What the loop of [addTool] returns: the first candidate from the
    [k]-th that no tool has; it runs out of fuel only when all the
    candidates it tried are taken. *)
Lemma searchName_spec (tools : list (Tools.FunctionCall Params Scheduling)) (fuel k : nat) :
  match Tools.searchName fuel tools (Tools.candidate k) (S k) with
  | Some nm =>
      exists j, k <= j <= k + fuel /\ nm = Tools.candidate j /\
        Tools.hasName nm tools = false /\
        forall i, k <= i < j -> Tools.hasName (Tools.candidate i) tools = true
  | None =>
      forall i, k <= i <= k + fuel ->
        Tools.hasName (Tools.candidate i) tools = true
  end.
Proof.
  revert k. induction fuel as [|fuel IH]; intros k; cbn [Tools.searchName].
  - destruct (Tools.hasName (Tools.candidate k) tools) eqn:E.
    + intros i Hi. replace i with k by lia. exact E.
    + exists k. repeat split; try lia; try assumption.
  - destruct (Tools.hasName (Tools.candidate k) tools) eqn:E.
    + specialize (IH (S k)).
      change (str "new_function_" ++ numberToString (S k))
        with (Tools.candidate (S k)).
      destruct (Tools.searchName fuel tools (Tools.candidate (S k)) (S (S k)))
        as [nm|].
      * destruct IH as (j & Hj & -> & Hfree & Hbelow).
        exists j. repeat split; try lia; try assumption.
        intros i Hi. destruct (Nat.eq_dec i k) as [->|Hne]; [exact E|].
        apply Hbelow. lia.
      * intros i Hi. destruct (Nat.eq_dec i k) as [->|Hne]; [exact E|].
        apply IH. lia.
    + exists k. repeat split; try lia; try assumption.
Qed.

Lemma candidates_not_all_taken (tools : list (Tools.FunctionCall Params Scheduling)) :
  ~ (forall i, i <= length tools ->
       Tools.hasName (Tools.candidate i) tools = true).
Proof.
  intros H.
  assert (L : length (List.map Tools.candidate (seq 0 (S (length tools))))
              <= length (Tools.names tools)).
  { apply NoDup_incl_length.
    - apply NoDup_map_inj; [apply candidate_inj | apply seq_NoDup].
    - intros nm Hin. apply in_map_iff in Hin as (i & <- & Hi).
      apply in_seq in Hi. apply hasName_In. apply H. lia. }
  unfold Tools.names in L. rewrite !length_map, length_seq in L. lia.
Qed.

Lemma addTool_result (tools : list (Tools.FunctionCall Params Scheduling)) :
  exists j,
    Tools.addTool objectParameters INTERRUPT tools
    = Some (tools ++ [Tools.mkTool (Tools.candidate j) (Some [])
                        (Some objectParameters) true (Some INTERRUPT)])
    /\ ~ In (Tools.candidate j) (Tools.names tools)
    /\ forall i, i < j -> In (Tools.candidate i) (Tools.names tools).
Proof.
  unfold Tools.addTool.
  pose proof (searchName_spec tools (length tools) 0) as H.
  change (str "new_function") with (Tools.candidate 0).
  destruct (Tools.searchName (length tools) tools (Tools.candidate 0) 1)
    as [nm|].
  - destruct H as (j & Hj & -> & Hfree & Hbelow).
    exists j. split; [reflexivity|]. split.
    + now apply hasName_false.
    + intros i Hi. apply hasName_In. apply Hbelow. lia.
  - exfalso. apply (@candidates_not_all_taken tools).
    intros i Hi. apply H. lia.
Qed.

Lemma names_toggleTool (n : jsstring) (tools : list (Tools.FunctionCall Params Scheduling)) :
  Tools.names (Tools.toggleTool n tools) = Tools.names tools.
Proof.
  unfold Tools.names, Tools.toggleTool. rewrite map_map.
  apply map_ext. intros t. now destruct (jseq (Tools.name t) n).
Qed.

Lemma names_removeTool (n : jsstring) (tools : list (Tools.FunctionCall Params Scheduling)) :
  Tools.names (Tools.removeTool n tools)
  = filter (fun m => negb (jseq m n)) (Tools.names tools).
Proof.
  unfold Tools.names, Tools.removeTool.
  induction tools as [|t tools IH]; [reflexivity|].
  cbn [filter List.map]. destruct (jseq (Tools.name t) n); cbn [negb];
    [exact IH | cbn [List.map]; now rewrite IH].
Qed.

Lemma NoDup_filter' (A : Type) (f : A -> bool) (l : list A) :
  NoDup l -> NoDup (filter f l).
Proof.
  induction 1 as [|x l Hx Hl IH]; cbn [filter]; [constructor|].
  destruct (f x); [|assumption]. constructor; [|assumption].
  intros Hin. apply filter_In in Hin. now apply Hx.
Qed.

Lemma names_rename (old : jsstring) (upd : Tools.FunctionCall Params Scheduling)
  (tools : list (Tools.FunctionCall Params Scheduling)) :
  Tools.names
    (List.map (fun tool => if jseq (Tools.name tool) old then upd else tool)
       tools)
  = List.map (fun m => if jseq m old then Tools.name upd else m)
      (Tools.names tools).
Proof.
  unfold Tools.names. rewrite !map_map. apply map_ext.
  intros t. now destruct (jseq (Tools.name t) old).
Qed.

Lemma NoDup_rename (old new : jsstring) (l : list jsstring) :
  NoDup l -> (old = new \/ ~ In new l) ->
  NoDup (List.map (fun m => if jseq m old then new else m) l).
Proof.
  intros Hl [<- | Hnew].
  - erewrite map_ext; [rewrite map_id; exact Hl|].
    intros m. cbn. destruct (jseq m old) eqn:E; [|reflexivity].
    apply jseq_true in E. now subst.
  - induction Hl as [|x l Hx Hl IH]; cbn [List.map]; [constructor|].
    assert (Hnew' : ~ In new l) by (intros H; apply Hnew; now right).
    constructor; [|now apply IH].
    intros Hin. apply in_map_iff in Hin as (m & E & Hm).
    destruct (jseq x old) eqn:Ex.
    + apply jseq_true in Ex. subst x.
      destruct (jseq m old) eqn:Em.
      * apply jseq_true in Em. now subst m.
      * subst m. now apply Hnew'.
    + destruct (jseq m old) eqn:Em.
      * subst x. apply Hnew. now left.
      * now subst m.
Qed.

Lemma NoDup_names_updateTool (old : jsstring) (upd : Tools.FunctionCall Params Scheduling)
  (tools : list (Tools.FunctionCall Params Scheduling)) :
  NoDup (Tools.names tools) ->
  NoDup (Tools.names (Tools.updateTool old upd tools)).
Proof.
  intros Hl. unfold Tools.updateTool.
  destruct (jseq old (Tools.name upd)) eqn:E; cbn [negb andb].
  - apply jseq_true in E. rewrite names_rename.
    apply NoDup_rename; [assumption | now left].
  - destruct (Tools.hasName (Tools.name upd) tools) eqn:H; [assumption|].
    rewrite names_rename. apply NoDup_rename; [assumption|].
    right. now apply hasName_false.
Qed.

Lemma perform_NoDup (c : Tools.call Params Scheduling)
  (tools : list (Tools.FunctionCall Params Scheduling)) :
  NoDup (Tools.names tools) ->
  exists tools', Tools.perform objectParameters INTERRUPT c tools = Some tools'
                 /\ NoDup (Tools.names tools').
Proof.
  intros Hl. destruct c as [n | | n | old upd]; cbn [Tools.perform].
  - eexists. split; [reflexivity|]. now rewrite names_toggleTool.
  - destruct (addTool_result tools) as (j & -> & Hfree & _).
    eexists. split; [reflexivity|].
    unfold Tools.names. rewrite map_app. cbn [List.map Tools.name].
    apply NoDup_app; [exact Hl | repeat constructor; intros [] | ].
    intros x Hx [<- | []]. exact (Hfree Hx).
  - eexists. split; [reflexivity|]. rewrite names_removeTool.
    now apply NoDup_filter'.
  - eexists. split; [reflexivity|]. now apply NoDup_names_updateTool.
Qed.

End ToolsFacts.

Section ToolsDeclared.
Variables Params Scheduling : Type.

Lemma declaredNames_configTools
  (tools : list (Tools.FunctionCall Params Scheduling)) :
  Tools.declaredNames (Tools.configTools tools)
  = Tools.names (filter (@Tools.isEnabled _ _) tools).
Proof.
  unfold Tools.configTools.
  assert (E : Tools.declaredNames (Some (Tools.enabledTools tools))
              = Tools.names (filter (@Tools.isEnabled _ _) tools)).
  { unfold Tools.declaredNames, Tools.enabledTools, Tools.names.
    induction (filter (@Tools.isEnabled _ _) tools) as [|t l IH];
      [reflexivity|].
    cbn [List.map flat_map Tools.functionDeclarations Tools.decl_name app].
    now rewrite IH. }
  destruct (Tools.enabledTools tools) eqn:D; [|exact E].
  rewrite <- E. reflexivity.
Qed.

Lemma NoDup_names_filter (f : Tools.FunctionCall Params Scheduling -> bool)
  (tools : list (Tools.FunctionCall Params Scheduling)) :
  NoDup (Tools.names tools) -> NoDup (Tools.names (filter f tools)).
Proof.
  unfold Tools.names. induction tools as [|t l IH]; cbn [filter List.map];
    intros H; [constructor|].
  inversion H as [|? ? Hx Hl]; subst.
  destruct (f t); cbn [List.map]; [|now apply IH].
  constructor; [|now apply IH].
  intros Hin. apply Hx. apply in_map_iff in Hin as (u & E & Hu).
  apply in_map_iff. exists u. split; [assumption|].
  apply filter_In in Hu. tauto.
Qed.

End ToolsDeclared.

Section ToolsToggle.
Variables Params Scheduling : Type.

Lemma toggleTool_twice (n : jsstring)
  (tools : list (Tools.FunctionCall Params Scheduling)) :
  Tools.toggleTool n (Tools.toggleTool n tools) = tools.
Proof.
  unfold Tools.toggleTool. rewrite map_map.
  erewrite map_ext; [apply map_id|].
  intros [nm d p e s]. cbn.
  destruct (jseq nm n) eqn:E; cbn; rewrite ?E; [|reflexivity].
  now rewrite Bool.negb_involutive.
Qed.

Lemma In_declared (m : jsstring)
  (tools : list (Tools.FunctionCall Params Scheduling)) :
  In m (Tools.declaredNames (Tools.configTools tools))
  <-> exists t, In t tools /\ Tools.name t = m /\ Tools.isEnabled t = true.
Proof.
  rewrite declaredNames_configTools. unfold Tools.names.
  rewrite in_map_iff. split.
  - intros (t & E & Hin). apply filter_In in Hin. exists t. tauto.
  - intros (t & Hin & E & He). exists t. split; [assumption|].
    apply filter_In. tauto.
Qed.

Lemma In_toggleTool (n : jsstring) (u : Tools.FunctionCall Params Scheduling)
  (tools : list (Tools.FunctionCall Params Scheduling)) :
  In u (Tools.toggleTool n tools)
  <-> exists t, In t tools /\
        u = if jseq (Tools.name t) n
            then Tools.mkTool (Tools.name t) (Tools.description t)
                   (Tools.parameters t) (negb (Tools.isEnabled t))
                   (Tools.scheduling t)
            else t.
Proof.
  unfold Tools.toggleTool. rewrite in_map_iff. split.
  - intros (t & E & Hin). exists t. now split.
  - intros (t & Hin & E). exists t. now split.
Qed.

Lemma same_name_same_tool
  (tools : list (Tools.FunctionCall Params Scheduling)) t u :
  NoDup (Tools.names tools) -> In t tools -> In u tools ->
  Tools.name t = Tools.name u -> t = u.
Proof.
  unfold Tools.names. induction tools as [|x l IH]; cbn [List.map In];
    intros H Ht Hu E; [contradiction|].
  inversion H as [|? ? Hx Hl]; subst.
  destruct Ht as [-> | Ht], Hu as [-> | Hu].
  - reflexivity.
  - exfalso. apply Hx. rewrite E. now apply in_map.
  - exfalso. apply Hx. rewrite <- E. now apply in_map.
  - now apply IH.
Qed.

End ToolsToggle.

(** X10 ([addTool], state.ts lines 129-152).  The search for a name always
    ends: [addTool] appends one enabled tool whose name no tool of the list
    has, the first free one of [new_function], [new_function_1],
    [new_function_2], ..., and changes nothing else. *)
Theorem X10_addTool_finds_a_fresh_name
  (Params Scheduling : Type) (objectParameters : Params)
  (INTERRUPT : Scheduling)
  (tools : list (Tools.FunctionCall Params Scheduling)) :
  exists j,
    Tools.addTool objectParameters INTERRUPT tools
    = Some (tools ++ [Tools.mkTool (Tools.candidate j) (Some [])
                        (Some objectParameters) true (Some INTERRUPT)])
    /\ ~ In (Tools.candidate j) (Tools.names tools)
    /\ (forall i, i < j -> In (Tools.candidate i) (Tools.names tools))
    /\ j <= length tools.
Proof.
  destruct (addTool_result objectParameters INTERRUPT tools)
    as (j & E & Hfree & Hbelow).
  exists j. repeat split; try assumption.
  destruct (Nat.le_gt_cases j (length tools)) as [H|H]; [assumption|].
  exfalso. apply (@candidates_not_all_taken _ _ tools).
  intros i Hi. apply hasName_In. apply Hbelow. lia.
Qed.

(** X11 ([toggleTool], [addTool], [removeTool], [updateTool], state.ts lines
    122-171; [enabledTools], StreamingConsole.tsx lines 131-145).  Whatever
    calls the tool store receives, from a list without two tools of one name
    (the initial empty list is one) every call returns and the list never
    holds two tools of one name; so the configuration never declares a
    function name twice. *)
Theorem X11_tool_names_stay_unique
  (Params Scheduling : Type) (objectParameters : Params)
  (INTERRUPT : Scheduling)
  (cs : list (Tools.call Params Scheduling))
  (tools : list (Tools.FunctionCall Params Scheduling)) :
  NoDup (Tools.names tools) ->
  exists tools',
    Tools.performAll objectParameters INTERRUPT cs tools = Some tools'
    /\ NoDup (Tools.names tools')
    /\ NoDup (Tools.declaredNames (Tools.configTools tools')).
Proof.
  revert tools. induction cs as [|c cs IH]; intros tools H;
    cbn [Tools.performAll].
  - exists tools. repeat split; try assumption.
    rewrite declaredNames_configTools. now apply NoDup_names_filter.
  - destruct (@perform_NoDup _ _ objectParameters INTERRUPT c tools H)
      as (tools1 & -> & H1).
    now apply IH.
Qed.

(** Three calls of [addTool], a renaming that is refused and one that is
    not, a removal and a toggle. *)
Lemma X11_witness :
  exists tools',
    Tools.performAll tt tt
      [Tools.AddTool _ _; Tools.AddTool _ _; Tools.AddTool _ _;
       Tools.UpdateTool (str "new_function_2")
         (Tools.mkTool (str "new_function") None None true None);
       Tools.UpdateTool (str "new_function_1")
         (Tools.mkTool (str "reader") None None true None);
       Tools.RemoveTool _ _ (str "new_function");
       Tools.ToggleTool _ _ (str "reader")]
      []
    = Some tools'
    /\ NoDup (Tools.names tools')
    /\ NoDup (Tools.declaredNames (Tools.configTools tools')).
Proof.
  apply (@X11_tool_names_stay_unique unit unit tt tt). constructor.
Defined.

(** X12 ([removeTool], state.ts lines 153-156, after [addTool], lines
    129-152).  [removeTool] leaves no tool of the name it is given; and
    removing the tool that [addTool] has just added gives back the list as
    it was before. *)
Theorem X12_remove_undoes_add
  (Params Scheduling : Type) (objectParameters : Params)
  (INTERRUPT : Scheduling)
  (tools : list (Tools.FunctionCall Params Scheduling)) :
  (forall n, ~ In n (Tools.names (Tools.removeTool n tools)))
  /\ exists added,
       Tools.addTool objectParameters INTERRUPT tools = Some (tools ++ [added])
       /\ Tools.removeTool (Tools.name added) (tools ++ [added]) = tools.
Proof.
  split.
  - intros n. rewrite names_removeTool. intros H.
    apply filter_In in H as [_ H]. now rewrite jseq_refl in H.
  - destruct (addTool_result objectParameters INTERRUPT tools)
      as (j & -> & Hfree & _).
    eexists. split; [reflexivity|]. cbn [Tools.name].
    unfold Tools.removeTool. rewrite filter_app. cbn [filter Tools.name].
    rewrite jseq_refl. cbn [negb]. rewrite app_nil_r.
    apply forallb_filter_id. apply forallb_forall. intros t Ht.
    destruct (jseq (Tools.name t) (Tools.candidate j)) eqn:E; [|reflexivity].
    apply jseq_true in E. exfalso. apply Hfree. rewrite <- E.
    unfold Tools.names. now apply in_map.
Qed.

(** X13 ([toggleTool], state.ts lines 122-128; [enabledTools],
    StreamingConsole.tsx lines 131-145).  In a list without two tools of one
    name, toggling [n] switches whether [n] is declared to the provider when
    a tool has that name, and changes the declaration of no other name;
    toggling twice gives back the list. *)
Theorem X13_toggle_switches_one_declaration
  (Params Scheduling : Type) (n : jsstring)
  (tools : list (Tools.FunctionCall Params Scheduling)) :
  NoDup (Tools.names tools) ->
  (In n (Tools.declaredNames (Tools.configTools (Tools.toggleTool n tools)))
   <-> In n (Tools.names tools)
       /\ ~ In n (Tools.declaredNames (Tools.configTools tools)))
  /\ (forall m, m <> n ->
        (In m (Tools.declaredNames
                 (Tools.configTools (Tools.toggleTool n tools)))
         <-> In m (Tools.declaredNames (Tools.configTools tools))))
  /\ Tools.toggleTool n (Tools.toggleTool n tools) = tools.
Proof.
  intros Hnd. split; [|split].
  - rewrite !In_declared. split.
    + intros (u & Hu & En & He). apply In_toggleTool in Hu as (t & Ht & ->).
      destruct (jseq (Tools.name t) n) eqn:E.
      * cbn in En, He. split.
        -- rewrite <- En. unfold Tools.names. now apply in_map.
        -- intros (t2 & Ht2 & En2 & He2).
           assert (t = t2)
             by (apply (@same_name_same_tool _ _ tools t t2 Hnd Ht Ht2); congruence).
           subst t2. rewrite He2 in He. discriminate.
      * apply jseq_true in En. congruence.
    + intros (Hin & Hnot). unfold Tools.names in Hin.
      apply in_map_iff in Hin as (t & En & Ht).
      exists (Tools.mkTool (Tools.name t) (Tools.description t)
                (Tools.parameters t) (negb (Tools.isEnabled t))
                (Tools.scheduling t)).
      split; [|split].
      * apply In_toggleTool. exists t. split; [assumption|].
        rewrite En, jseq_refl. reflexivity.
      * exact En.
      * cbn. destruct (Tools.isEnabled t) eqn:He; [|reflexivity].
        exfalso. apply Hnot. now exists t.
  - intros m Hm. rewrite !In_declared. split.
    + intros (u & Hu & En & He). apply In_toggleTool in Hu as (t & Ht & ->).
      destruct (jseq (Tools.name t) n) eqn:E.
      * apply jseq_true in E. cbn in En. congruence.
      * now exists t.
    + intros (t & Ht & En & He). exists t. split; [|now split].
      apply In_toggleTool. exists t. split; [assumption|].
      destruct (jseq (Tools.name t) n) eqn:E; [|reflexivity].
      apply jseq_true in E. congruence.
  - apply toggleTool_twice.
Qed.

(** Two tools, the second one disabled and toggled. *)
Lemma X13_witness :
  let tools := [Tools.mkTool (str "lookup") None (@None unit) true (@None unit);
                Tools.mkTool (str "reader") None None false None] in
  NoDup (Tools.names tools)
  /\ In (str "reader")
       (Tools.declaredNames
          (Tools.configTools (Tools.toggleTool (str "reader") tools))).
Proof.
  cbv zeta.
  assert (Hnd : NoDup (Tools.names
                  [Tools.mkTool (str "lookup") None (@None unit) true
                     (@None unit);
                   Tools.mkTool (str "reader") None None false None])).
  { repeat constructor; cbn; intros H;
      repeat (destruct H as [H|H]; try discriminate H); assumption. }
  split; [exact Hnd|].
  apply (proj1 (@X13_toggle_switches_one_declaration unit unit
                  (str "reader") _ Hnd)).
  split.
  - right. left. reflexivity.
  - cbn. intros H. repeat (destruct H as [H|H]; try discriminate H).
    assumption.
Defined.

(* ===================================================================== *)
(** * lib/state.ts: the log of turns                                      *)
(* ===================================================================== *)

Section LogFacts.
Variables ToolCall ToolResponse Grounding : Type.

Lemma setAt_last (A : Type) (x t : A) (l : list A) :
  Log.setAt (length l) x (l ++ [t]) = l ++ [x].
Proof.
  induction l as [|y l IH]; cbn [Log.setAt length app]; [reflexivity|].
  now rewrite IH.
Qed.

Lemma updateLastTurn_snoc
  (u : Log.TurnUpdate ToolCall ToolResponse Grounding)
  (turns : list (Log.ConversationTurn ToolCall ToolResponse Grounding)) t :
  Log.updateLastTurn u (turns ++ [t]) = turns ++ [Log.spread t u].
Proof.
  unfold Log.updateLastTurn. rewrite length_app. cbn [length].
  replace (length turns + 1 =? 0)%nat with false
    by (symmetry; apply Nat.eqb_neq; lia).
  replace (length turns + 1 - 1) with (length turns) by lia.
  rewrite nth_error_app2, Nat.sub_diag by lia. cbn [nth_error].
  apply setAt_last.
Qed.

Lemma updateLastTurn_nil
  (u : Log.TurnUpdate ToolCall ToolResponse Grounding) :
  Log.updateLastTurn u [] = [].
Proof. reflexivity. Qed.

Lemma spread_twice
  (u : Log.TurnUpdate ToolCall ToolResponse Grounding) t :
  Log.spread (Log.spread t u) u = Log.spread t u.
Proof.
  destruct u as [a b c d e f g h]; unfold Log.spread; cbn.
  destruct a, b, c, d, e, f, g, h; reflexivity.
Qed.

End LogFacts.

(** X14 ([updateLastTurn], state.ts lines 209-219; [addTurn], lines
    205-208).  [updateLastTurn] merges the update into the last turn and
    touches nothing else: on the empty log it does nothing, it never adds or
    removes a turn, every turn but the last stays as it is, and the same
    update a second time changes nothing more. *)
Theorem X14_updateLastTurn_touches_the_last_turn_only
  (ToolCall ToolResponse Grounding : Type)
  (u : Log.TurnUpdate ToolCall ToolResponse Grounding)
  (turns : list (Log.ConversationTurn ToolCall ToolResponse Grounding)) :
  Log.updateLastTurn u [] = []
  /\ (forall t, Log.updateLastTurn u (turns ++ [t])
                = turns ++ [Log.spread t u])
  /\ (forall turn now,
        Log.updateLastTurn u (Log.addTurn turn now turns)
        = turns ++ [Log.spread
                      (Log.mkTurn now (Log.new_role turn) (Log.new_text turn)
                         (Log.new_sourceText turn) (Log.new_isFinal turn)
                         (Log.new_toolUseRequest turn)
                         (Log.new_toolUseResponse turn)
                         (Log.new_groundingChunks turn)) u])
  /\ length (Log.updateLastTurn u turns) = length turns
  /\ (forall i, S i < length turns ->
        nth_error (Log.updateLastTurn u turns) i = nth_error turns i)
  /\ Log.updateLastTurn u (Log.updateLastTurn u turns)
     = Log.updateLastTurn u turns.
Proof.
  split; [reflexivity|].
  split; [intros t; apply updateLastTurn_snoc|].
  split; [intros turn now; apply updateLastTurn_snoc|].
  induction turns as [|t l _] using rev_ind.
  - split; [reflexivity|]. split; [|reflexivity].
    intros i Hi. cbn in Hi. lia.
  - rewrite !updateLastTurn_snoc, spread_twice, !length_app. cbn [length].
    split; [reflexivity|]. split; [|reflexivity].
    intros i Hi. rewrite !nth_error_app1 by lia. reflexivity.
Qed.

Section LogBridge.
Variables ToolCall ToolResponse Grounding : Type.

Lemma shown_accepted (data : Transcript) (now : Z) (r : refs)
  (turns : list (Log.ConversationTurn ToolCall ToolResponse Grounding))
  (source : jsstring) :
  gate data (lastProcessedIdRef r) = Accepted source ->
  Log.processNewData_shown data now (r, turns)
  = ((mkRefs (Some (id data)) (paragraphCountRef r) (segmentQueue r),
      turns ++ [Log.mkTurn now Log.system source (Some source) true
                  None None None]),
     Accepted source).
Proof.
  intros H. unfold Log.processNewData_shown, processNewData.
  cbn [fst snd]. rewrite H. reflexivity.
Qed.

Lemma resumed_snoc (answer : flashAnswer) (source : jsstring) (r : refs)
  (turns : list (Log.ConversationTurn ToolCall ToolResponse Grounding)) t :
  Log.processNewData_resumed answer source (r, turns ++ [t])
  = (processNewData_queue (diarizeAndTranslate answer source) r,
     turns ++ [Log.mkTurn (Log.timestamp t) (Log.role t)
                 (diarizeAndTranslate answer source) (Log.sourceText t)
                 (Log.isFinal t) (Log.toolUseRequest t)
                 (Log.toolUseResponse t) (Log.groundingChunks t)]).
Proof.
  unfold Log.processNewData_resumed. cbn [fst snd].
  now rewrite updateLastTurn_snoc.
Qed.

End LogBridge.

(** X15 ([processNewData], DatabaseBridge.tsx lines 204-234, with [addTurn]
    and [updateLastTurn], state.ts lines 205-219).  When a second update is
    accepted while the diarization of the first is still awaited, the script
    of the first lands on the turn of the second: the turn of the first
    keeps its raw text for good, and the turn of the second shows the script
    of the first until its own arrives.  The queue still gets both scripts,
    in the order of the answers.  Without the overlap each turn gets its own
    script. *)
Theorem X15_overlapping_updates_cross_their_scripts
  (ToolCall ToolResponse Grounding : Type)
  (answer_a answer_b : flashAnswer) (a b : Transcript) (now_a now_b : Z)
  (r : refs)
  (turns : list (Log.ConversationTurn ToolCall ToolResponse Grounding))
  (source_a source_b : jsstring) :
  gate a (lastProcessedIdRef r) = Accepted source_a ->
  gate b (Some (id a)) = Accepted source_b ->
  let turn := fun now source shownText =>
    @Log.mkTurn ToolCall ToolResponse Grounding now Log.system shownText
      (Some source) true None None None in
  let script_a := diarizeAndTranslate answer_a source_a in
  let script_b := diarizeAndTranslate answer_b source_b in
  let shown_a := fst (Log.processNewData_shown a now_a (r, turns)) in
  let shown_b := fst (Log.processNewData_shown b now_b shown_a) in
  let resumed_a := Log.processNewData_resumed answer_a source_a shown_b in
  let resumed_b := Log.processNewData_resumed answer_b source_b resumed_a in
  let apart :=
    Log.processNewData_resumed answer_b source_b
      (fst (Log.processNewData_shown b now_b
              (Log.processNewData_resumed answer_a source_a shown_a))) in
  snd shown_b
  = turns ++ [turn now_a source_a source_a; turn now_b source_b source_b]
  /\ snd resumed_a
     = turns ++ [turn now_a source_a source_a; turn now_b source_b script_a]
  /\ snd resumed_b
     = turns ++ [turn now_a source_a source_a; turn now_b source_b script_b]
  /\ segmentQueue (fst resumed_b)
     = segmentQueue r ++ segmentText script_a ++ segmentText script_b
  /\ snd apart
     = turns ++ [turn now_a source_a script_a; turn now_b source_b script_b]
  /\ segmentQueue (fst apart) = segmentQueue (fst resumed_b).
Proof.
  intros Ha Hb turn script_a script_b. cbv zeta.
  assert (Hb' : forall q
              (l : list (Log.ConversationTurn ToolCall ToolResponse
                           Grounding)),
             Log.processNewData_shown b now_b
               (mkRefs (Some (id a)) (paragraphCountRef r) q, l)
             = ((mkRefs (Some (id b)) (paragraphCountRef r) q,
                 l ++ [turn now_b source_b source_b]), Accepted source_b))
    by (intros; now apply shown_accepted).
  assert (Cons2 : forall (x y : Log.ConversationTurn ToolCall ToolResponse
                                  Grounding) l,
             (l ++ [x]) ++ [y] = l ++ [x; y])
    by (intros; now rewrite <- app_assoc).
  rewrite (shown_accepted a now_a r turns Ha). cbn [fst].
  rewrite !resumed_snoc. unfold processNewData_queue.
  cbn [lastProcessedIdRef paragraphCountRef segmentQueue].
  rewrite !Hb'. cbn [fst snd].
  rewrite ?resumed_snoc. cbn [fst snd].
  subst turn script_a script_b. cbv beta.
  cbn [Log.timestamp Log.role Log.sourceText Log.isFinal Log.toolUseRequest
       Log.toolUseResponse Log.groundingChunks].
  rewrite <- ?app_assoc. repeat split.
  cbn [processNewData_queue segmentQueue]. now rewrite <- app_assoc.
Qed.

(** Two updates with different ids, the second one shown while the first is
    diarized; both diarizations fail. *)
Lemma X15_witness :
  gate (row "a" "one" "t1") None = Accepted (str "one")
  /\ gate (row "b" "two" "t2") (Some (str "a")) = Accepted (str "two")
  /\ snd (Log.processNewData_resumed FlashThrows (str "one")
            (fst (Log.processNewData_shown (row "b" "two" "t2") 2
                    (fst (Log.processNewData_shown (row "a" "one" "t1") 1
                            (mkRefs None 0 [],
                             @nil (Log.ConversationTurn unit unit unit)))))))
     = [Log.mkTurn 1 Log.system (str "one") (Some (str "one")) true
          None None None;
        Log.mkTurn 2 Log.system (str "Male 1: one") (Some (str "two")) true
          None None None].
Proof.
  assert (Ha : gate (row "a" "one" "t1") (lastProcessedIdRef (mkRefs None 0 []))
               = Accepted (str "one")) by reflexivity.
  assert (Hb : gate (row "b" "two" "t2") (Some (id (row "a" "one" "t1")))
               = Accepted (str "two")) by reflexivity.
  split; [exact Ha|]. split; [exact Hb|].
  exact (proj1 (proj2
    (@X15_overlapping_updates_cross_their_scripts unit unit unit
       FlashThrows FlashThrows (row "a" "one" "t1") (row "b" "two" "t2")
       1%Z 2%Z (mkRefs None 0 []) [] (str "one") (str "two") Ha Hb))).
Defined.

(* ===================================================================== *)
(** * lib/state.ts: the settings                                          *)
(* ===================================================================== *)

Lemma app_eq_length (A : Type) (a b x y : list A) :
  length a = length b -> a ++ x = b ++ y -> a = b.
Proof.
  revert b. induction a as [|c a IH]; intros [|d b] L H;
    try discriminate L; [reflexivity|].
  cbn in H. injection H as -> H. f_equal. apply IH; [|assumption].
  cbn in L. lia.
Qed.

Lemma generateSystemPrompt_speed (l : jsstring) (s1 s2 : float) :
  Settings.generateSystemPrompt l s1 = Settings.generateSystemPrompt l s2.
Proof. reflexivity. Qed.

Lemma length_generateSystemPrompt (l : jsstring) (s : float) :
  length (Settings.generateSystemPrompt l s)
  = match l with
    | [] => 881
    | _ :: _ => 860 + 4 * length l
    end.
Proof.
  unfold Settings.generateSystemPrompt.
  destruct l as [|c l]; cbn [falsy];
    repeat (rewrite length_app; cbn [length]);
    repeat match goal with
           | |- context [length (str ?x)] =>
               let n := eval vm_compute in (length (str x)) in
               change (length (str x)) with n
           end; lia.
Qed.

Lemma generateSystemPrompt_inj (l1 l2 : jsstring) (s1 s2 : float) :
  Settings.generateSystemPrompt l1 s1 = Settings.generateSystemPrompt l2 s2 ->
  l1 = l2.
Proof.
  intros H. pose proof (f_equal (@length N) H) as L.
  rewrite !length_generateSystemPrompt in L.
  destruct l1 as [|c1 l1], l2 as [|c2 l2]; cbn [length] in L; try lia.
  - reflexivity.
  - unfold Settings.generateSystemPrompt in H. cbn [falsy] in H.
    do 4 apply app_inv_head in H.
    apply app_eq_length in H; [assumption|]. cbn [length]. lia.
Qed.

Lemma perform_generated (c : Settings.call) (s : Settings.state) :
  (forall p, c <> Settings.SetSystemPrompt p) ->
  Settings.generated s -> Settings.generated (Settings.perform c s).
Proof.
  unfold Settings.generated. intros Hc H. destruct c; cbn; try exact H;
    try reflexivity.
  exfalso. now apply (Hc prompt).
Qed.

(** X16 ([useSettings], state.ts lines 59-82; [generateSystemPrompt], lines
    17-37).  As long as [setSystemPrompt] is not called, the prompt of the
    store is the one generated for its current language: the initial state
    has it and every other setter keeps it.  And a call of [setLanguage] or
    [setSpeechRate] replaces a prompt written with [setSystemPrompt] by the
    generated one, where the rate changes nothing in the text. *)
Theorem X16_prompt_follows_the_language
  (cs : list Settings.call) (s : Settings.state) :
  (forall p, ~ In (Settings.SetSystemPrompt p) cs) ->
  Settings.generated s ->
  (forall speed,
     Settings.systemPrompt (Settings.performAll cs s)
     = Settings.generateSystemPrompt
         (Settings.language (Settings.performAll cs s)) speed)
  /\ (forall custom rate speed,
        Settings.systemPrompt
          (Settings.setSpeechRate rate
             (Settings.setSystemPrompt custom (Settings.performAll cs s)))
        = Settings.generateSystemPrompt
            (Settings.language (Settings.performAll cs s)) speed)
  /\ (forall custom l speed,
        Settings.systemPrompt
          (Settings.setLanguage l
             (Settings.setSystemPrompt custom (Settings.performAll cs s)))
        = Settings.generateSystemPrompt l speed).
Proof.
  intros Hcs Hs.
  assert (G : Settings.generated (Settings.performAll cs s)).
  { unfold Settings.performAll. revert s Hs.
    induction cs as [|c cs IH]; intros s Hs; cbn [fold_left]; [exact Hs|].
    apply IH.
    - intros p Hp. apply (Hcs p). now right.
    - apply perform_generated; [|exact Hs].
      intros p ->. apply (Hcs p). now left. }
  split; [|split].
  - intros speed. rewrite G. apply generateSystemPrompt_speed.
  - reflexivity.
  - reflexivity.
Qed.

(** From the initial state: a voice, a language, a rate, a volume. *)
Lemma X16_witness :
  Settings.systemPrompt
    (Settings.performAll
       [Settings.SetVoice (str "Orus"); Settings.SetLanguage (str "Dutch");
        Settings.SetSpeechRate 1.5%float;
        Settings.SetBackgroundPadVolume 0.5%float]
       (Settings.initial (str "model") (str "voice")))
  = Settings.generateSystemPrompt (str "Dutch") 1%float.
Proof.
  refine (proj1 (@X16_prompt_follows_the_language
            [Settings.SetVoice (str "Orus");
             Settings.SetLanguage (str "Dutch");
             Settings.SetSpeechRate 1.5%float;
             Settings.SetBackgroundPadVolume 0.5%float]
            (Settings.initial (str "model") (str "voice")) _ _) 1%float).
  - intros p H. cbn [In] in H.
    repeat (destruct H as [H|H]; try discriminate H). exact H.
  - reflexivity.
Defined.

(** X17 ([generateSystemPrompt], state.ts lines 17-37).  The prompt tells
    the language: two languages that differ give prompts that differ,
    whatever the rates.  So the prompt for the empty language, which names
    the default language as its target, is still not the prompt of the
    default language: its three other brackets are empty. *)
Theorem X17_prompt_tells_the_language
  (l1 l2 : jsstring) (s1 s2 : float) :
  l1 <> l2 ->
  Settings.generateSystemPrompt l1 s1 <> Settings.generateSystemPrompt l2 s2.
Proof.
  intros Hne H. apply Hne. exact (generateSystemPrompt_inj H).
Qed.

(** The empty language and the default one. *)
Lemma X17_witness :
  Settings.generateSystemPrompt [] 1%float
  <> Settings.generateSystemPrompt (str "Taglish (Philippines)") 1%float.
Proof.
  apply X17_prompt_tells_the_language. discriminate.
Defined.

(* ===================================================================== *)
(** * StreamingConsole.tsx: the rendering of a script                    *)
(* ===================================================================== *)

Section SplitFacts.
Variable matchAt : jsstring -> option (jsstring * jsstring).
(** A match is a prefix that is not empty; it is still the match when the
    text ends after it or goes on differently. *)
Hypothesis sound : forall s m r,
  matchAt s = Some (m, r) -> s = m ++ r /\ m <> [].
Hypothesis stable : forall s m r x,
  matchAt s = Some (m, r) -> matchAt (m ++ x) = Some (m, x).

Lemma matchAt_nil : matchAt [] = None.
Proof.
  destruct (matchAt []) as [[m r]|] eqn:E; [|reflexivity].
  apply sound in E as [E Hm]. symmetry in E.
  apply app_eq_nil in E as [-> _]. now contradiction Hm.
Qed.

Lemma matchAt_prefix (s x : jsstring) :
  matchAt (s ++ x) = None -> matchAt s = None.
Proof.
  intros H. destruct (matchAt s) as [[m r]|] eqn:E; [|reflexivity].
  pose proof (sound E) as [-> _].
  rewrite <- app_assoc, (stable (r ++ x) E) in H. discriminate.
Qed.

Lemma concat_splitFrom (fuel : nat) (cur s : jsstring) :
  concat (ScriptReader.splitFrom matchAt fuel cur s) = cur ++ s.
Proof.
  revert cur s. induction fuel as [|fuel IH]; intros cur [|c s];
    cbn [ScriptReader.splitFrom concat]; rewrite ?app_nil_r; try reflexivity.
  destruct (matchAt (c :: s)) as [[m r]|] eqn:E.
  - cbn [concat]. rewrite IH. apply sound in E as [-> _]. reflexivity.
  - rewrite IH, <- app_assoc. reflexivity.
Qed.

(** The text since the last match holds no match that the scan has
    passed. *)
Lemma passed_clean (cur s : jsstring) :
  (forall pre suf, cur = pre ++ suf -> suf <> [] ->
     matchAt (suf ++ s) = None) ->
  forall pre suf, cur = pre ++ suf -> matchAt suf = None.
Proof.
  intros H pre suf E. destruct suf as [|c suf]; [apply matchAt_nil|].
  apply matchAt_prefix with (x := s). now apply (H pre).
Qed.

Lemma passed_step (cur s : jsstring) (c : jschar) :
  (forall pre suf, cur = pre ++ suf -> suf <> [] ->
     matchAt (suf ++ c :: s) = None) ->
  matchAt (c :: s) = None ->
  forall pre suf, cur ++ [c] = pre ++ suf -> suf <> [] ->
    matchAt (suf ++ s) = None.
Proof.
  intros H Hc pre suf E Hne.
  destruct (exists_last Hne) as (suf' & c' & ->).
  rewrite app_assoc in E. apply app_inj_tail in E as [-> <-].
  rewrite <- app_assoc. cbn [app].
  destruct suf' as [|d suf']; [exact Hc|].
  now apply (H pre).
Qed.

Lemma passed_nil (s : jsstring) :
  forall pre suf : jsstring, [] = pre ++ suf -> suf <> [] ->
    matchAt (suf ++ s) = None.
Proof.
  intros pre suf E0 Hne. symmetry in E0.
  apply app_eq_nil in E0 as [_ ->]. contradiction.
Qed.

Lemma nth_error_single_odd (A : Type) (x : A) (i : nat) :
  nth_error [x] (2 * i + 1) = None.
Proof.
  apply nth_error_None. cbn [length]. lia.
Qed.

Lemma nth_error_single_even (A : Type) (x t : A) (i : nat) :
  nth_error [x] (2 * i) = Some t -> t = x.
Proof.
  destruct i as [|i].
  - cbn. congruence.
  - intros H. assert (N : nth_error [x] (2 * S i) = None)
      by (apply nth_error_None; cbn [length]; lia).
    congruence.
Qed.

Lemma splitFrom_shape (fuel : nat) (cur s : jsstring) :
  length s <= fuel ->
  (forall pre suf, cur = pre ++ suf -> suf <> [] ->
     matchAt (suf ++ s) = None) ->
  (exists k, length (ScriptReader.splitFrom matchAt fuel cur s) = 2 * k + 1)
  /\ (forall i m,
        nth_error (ScriptReader.splitFrom matchAt fuel cur s) (2 * i + 1)
        = Some m -> matchAt m = Some (m, []))
  /\ (forall i t,
        nth_error (ScriptReader.splitFrom matchAt fuel cur s) (2 * i)
        = Some t ->
        forall pre suf, t = pre ++ suf -> matchAt suf = None).
Proof.
  revert cur s. induction fuel as [|fuel IH]; intros cur [|c s] L P;
    cbn [ScriptReader.splitFrom]; cbn [length] in L; try lia.
  - split; [exists 0; reflexivity|]. split.
    + intros i m H. now rewrite nth_error_single_odd in H.
    + intros i t H. apply nth_error_single_even in H. subst t.
      now apply passed_clean with (s := []).
  - split; [exists 0; reflexivity|]. split.
    + intros i m H. now rewrite nth_error_single_odd in H.
    + intros i t H. apply nth_error_single_even in H. subst t.
      now apply passed_clean with (s := []).
  - destruct (matchAt (c :: s)) as [[m r]|] eqn:E.
    + pose proof (sound E) as [Es Hm].
      assert (Lr : length r <= fuel).
      { apply (f_equal (@length jschar)) in Es. rewrite length_app in Es.
        cbn [length] in Es. destruct m; [contradiction|]. cbn in Es. lia. }
      destruct (IH [] r Lr (passed_nil r)) as ((k & Hk) & Hodd & Heven).
      split; [exists (S k); cbn [length]; rewrite Hk; lia|]. split.
      * intros [|i] x H.
        -- cbn in H. injection H as <-.
           rewrite <- (app_nil_r m) at 1.
           now apply stable with (s := c :: s) (r := r).
        -- replace (2 * S i + 1) with (S (S (2 * i + 1))) in H by lia.
           cbn [nth_error] in H. now apply (Hodd i).
      * intros [|i] t H.
        -- cbn in H. injection H as <-.
           now apply passed_clean with (s := c :: s).
        -- replace (2 * S i) with (S (S (2 * i))) in H by lia.
           cbn [nth_error] in H. now apply (Heven i).
    + apply IH; [lia|]. now apply passed_step.
Qed.

Lemma split_shape (s : jsstring) :
  concat (ScriptReader.split matchAt s) = s
  /\ (exists k, length (ScriptReader.split matchAt s) = 2 * k + 1)
  /\ (forall i m,
        nth_error (ScriptReader.split matchAt s) (2 * i + 1) = Some m ->
        matchAt m = Some (m, []))
  /\ (forall i t pre suf,
        nth_error (ScriptReader.split matchAt s) (2 * i) = Some t ->
        t = pre ++ suf -> matchAt suf = None).
Proof.
  unfold ScriptReader.split. split; [apply concat_splitFrom|].
  destruct (@splitFrom_shape (length s) [] s (le_n _) (passed_nil s))
    as (K & Hodd & Heven).
  split; [exact K|]. split; [exact Hodd|].
  intros i t pre suf H E. exact (Heven i t H pre suf E).
Qed.

End SplitFacts.

Lemma literal_Some (lit s r : jsstring) :
  ScriptReader.literal lit s = Some r -> s = lit ++ r.
Proof.
  revert s. induction lit as [|p lit IH]; intros [|c s];
    cbn [ScriptReader.literal app]; try congruence.
  destruct (c =? p)%N eqn:E; [|discriminate].
  apply N.eqb_eq in E. subst c. intros H. f_equal. now apply IH.
Qed.

Lemma literal_app (lit x : jsstring) :
  ScriptReader.literal lit (lit ++ x) = Some x.
Proof.
  induction lit as [|p lit IH]; cbn [ScriptReader.literal app].
  - now destruct x.
  - now rewrite N.eqb_refl.
Qed.

Lemma numbered_Some (name s m r : jsstring) :
  ScriptReader.numbered name s = Some (m, r) ->
  exists d, isDigit d = true /\ m = name ++ [32%N; d; 58%N] /\ s = m ++ r.
Proof.
  unfold ScriptReader.numbered.
  destruct (ScriptReader.literal name s) as [[|sp [|d [|colon t]]]|] eqn:E;
    try discriminate.
  destruct ((sp =? 32) && isDigit d && (colon =? 58))%N eqn:T;
    [|discriminate].
  apply Bool.andb_true_iff in T as [T Hc].
  apply Bool.andb_true_iff in T as [Hs Hd].
  apply N.eqb_eq in Hs, Hc. subst sp colon.
  intros [= <- <-]. exists d. split; [assumption|]. split; [reflexivity|].
  apply literal_Some in E. rewrite E, <- app_assoc. reflexivity.
Qed.

Lemma numbered_app (name x : jsstring) (d : jschar) :
  isDigit d = true ->
  ScriptReader.numbered name ((name ++ [32%N; d; 58%N]) ++ x)
  = Some (name ++ [32%N; d; 58%N], x).
Proof.
  intros Hd. unfold ScriptReader.numbered.
  rewrite <- app_assoc, literal_app. cbn [app]. rewrite Hd. reflexivity.
Qed.

Lemma plain_Some (lit s m r : jsstring) :
  ScriptReader.plain lit s = Some (m, r) -> m = lit /\ s = m ++ r.
Proof.
  unfold ScriptReader.plain.
  destruct (ScriptReader.literal lit s) as [t|] eqn:E; [|discriminate].
  intros [= <- <-]. split; [reflexivity|]. now apply literal_Some.
Qed.

(** The texts that the expression of line 50 matches. *)
Lemma speakerLabel_Some (s m r : jsstring) :
  ScriptReader.speakerLabel s = Some (m, r) ->
  s = m ++ r
  /\ ((exists d, isDigit d = true
                 /\ (m = str "Male" ++ [32%N; d; 58%N]
                     \/ m = str "Female" ++ [32%N; d; 58%N]
                     \/ m = str "Speaker" ++ [32%N; d; 58%N]))
      \/ m = str "Host:" \/ m = str "Guest:").
Proof.
  unfold ScriptReader.speakerLabel, ScriptReader.orElse.
  destruct (ScriptReader.numbered (str "Male") s) as [p|] eqn:E1.
  { intros [= ->]. apply numbered_Some in E1 as (d & Hd & -> & ->).
    split; [reflexivity|]. left. exists d. tauto. }
  destruct (ScriptReader.numbered (str "Female") s) as [p|] eqn:E2.
  { intros [= ->]. apply numbered_Some in E2 as (d & Hd & -> & ->).
    split; [reflexivity|]. left. exists d. tauto. }
  destruct (ScriptReader.numbered (str "Speaker") s) as [p|] eqn:E3.
  { intros [= ->]. apply numbered_Some in E3 as (d & Hd & -> & ->).
    split; [reflexivity|]. left. exists d. tauto. }
  destruct (ScriptReader.plain (str "Host:") s) as [p|] eqn:E4.
  { intros [= ->]. apply plain_Some in E4 as (-> & ->).
    split; [reflexivity|]. right. now left. }
  intros E5. apply plain_Some in E5 as (-> & ->).
  split; [reflexivity|]. right. now right.
Qed.

Lemma speakerLabel_sound (s m r : jsstring) :
  ScriptReader.speakerLabel s = Some (m, r) -> s = m ++ r /\ m <> [].
Proof.
  intros H. apply speakerLabel_Some in H as [E H]. split; [exact E|].
  destruct H as [(d & _ & [-> | [-> | ->]]) | [-> | ->]]; discriminate.
Qed.

Lemma speakerLabel_stable (s m r x : jsstring) :
  ScriptReader.speakerLabel s = Some (m, r) ->
  ScriptReader.speakerLabel (m ++ x) = Some (m, x).
Proof.
  intros H. apply speakerLabel_Some in H as [_ H].
  destruct H as [(d & Hd & [-> | [-> | ->]]) | [-> | ->]];
    unfold ScriptReader.speakerLabel, ScriptReader.orElse.
  - now rewrite numbered_app.
  - rewrite numbered_app by assumption. reflexivity.
  - rewrite numbered_app by assumption. reflexivity.
  - reflexivity.
  - reflexivity.
Qed.

Lemma lazyToCloser_Some (s m r : jsstring) :
  ScriptReader.lazyToCloser s = Some (m, r) ->
  exists mid c,
    m = mid ++ [c] /\ s = m ++ r /\ ScriptReader.isCloser c = true
    /\ forallb (fun x => negb (ScriptReader.isCloser x)
                         && negb (ScriptReader.isLineTerminator x)) mid
       = true.
Proof.
  revert m r. induction s as [|c s IH]; intros m r;
    cbn [ScriptReader.lazyToCloser]; [discriminate|].
  destruct (ScriptReader.isCloser c) eqn:Hc.
  - intros [= <- <-]. exists [], c. repeat split. exact Hc.
  - destruct (ScriptReader.isLineTerminator c) eqn:Ht; [discriminate|].
    destruct (ScriptReader.lazyToCloser s) as [[m' r']|] eqn:E;
      [|discriminate].
    intros [= <- <-].
    destruct (IH m' r' eq_refl) as (mid & c' & -> & -> & Hc' & Hmid).
    exists (c :: mid), c'. repeat split; [assumption|].
    cbn [forallb]. now rewrite Hc, Ht, Hmid.
Qed.

Lemma lazyToCloser_app (mid x : jsstring) (c : jschar) :
  ScriptReader.isCloser c = true ->
  forallb (fun x => negb (ScriptReader.isCloser x)
                    && negb (ScriptReader.isLineTerminator x)) mid = true ->
  ScriptReader.lazyToCloser ((mid ++ [c]) ++ x) = Some (mid ++ [c], x).
Proof.
  intros Hc. induction mid as [|y mid IH]; cbn [forallb app]; intros H.
  - cbn [ScriptReader.lazyToCloser]. now rewrite Hc.
  - apply Bool.andb_true_iff in H as [Hy H].
    apply Bool.andb_true_iff in Hy as [Hy1 Hy2].
    apply Bool.negb_true_iff in Hy1, Hy2.
    cbn [ScriptReader.lazyToCloser]. rewrite Hy1, Hy2.
    now rewrite (IH H).
Qed.

(** The texts that the expression of line 72 matches: an opening bracket,
    then up to the first closing bracket, with no line terminator
    between. *)
Lemma direction_Some (s m r : jsstring) :
  ScriptReader.direction s = Some (m, r) ->
  exists o mid c,
    m = o :: mid ++ [c] /\ s = m ++ r
    /\ ScriptReader.isOpener o = true /\ ScriptReader.isCloser c = true
    /\ forallb (fun x => negb (ScriptReader.isCloser x)
                         && negb (ScriptReader.isLineTerminator x)) mid
       = true.
Proof.
  destruct s as [|o s]; cbn [ScriptReader.direction]; [discriminate|].
  destruct (ScriptReader.isOpener o) eqn:Ho; [|discriminate].
  destruct (ScriptReader.lazyToCloser s) as [[m' r']|] eqn:E; [|discriminate].
  intros [= <- <-].
  apply lazyToCloser_Some in E as (mid & c & -> & -> & Hc & Hmid).
  exists o, mid, c. repeat split; assumption.
Qed.

Lemma direction_sound (s m r : jsstring) :
  ScriptReader.direction s = Some (m, r) -> s = m ++ r /\ m <> [].
Proof.
  intros H. apply direction_Some in H as (o & mid & c & -> & -> & _).
  split; [reflexivity | discriminate].
Qed.

Lemma direction_stable (s m r x : jsstring) :
  ScriptReader.direction s = Some (m, r) ->
  ScriptReader.direction (m ++ x) = Some (m, x).
Proof.
  intros H.
  apply direction_Some in H as (o & mid & c & -> & _ & Ho & Hc & Hmid).
  cbn [ScriptReader.direction app]. rewrite Ho.
  now rewrite (@lazyToCloser_app mid x c Hc Hmid).
Qed.

Lemma concat_split_speakerLabel (s : jsstring) :
  concat (ScriptReader.split ScriptReader.speakerLabel s) = s.
Proof.
  unfold ScriptReader.split. apply concat_splitFrom.
  exact speakerLabel_sound.
Qed.

(** X18 ([ScriptReader], StreamingConsole.tsx line 50).  The split of the
    displayed text at the speaker labels loses nothing: the parts put
    together are the text again.  There is an odd number of parts; every
    second part is a label of the expression, and the parts between hold no
    such label at any place. *)
Theorem X18_split_cuts_at_every_label (displayedText : jsstring) :
  concat (ScriptReader.split ScriptReader.speakerLabel displayedText)
  = displayedText
  /\ (exists k,
        length (ScriptReader.split ScriptReader.speakerLabel displayedText)
        = 2 * k + 1)
  /\ (forall i m,
        nth_error (ScriptReader.split ScriptReader.speakerLabel displayedText)
          (2 * i + 1) = Some m ->
        ScriptReader.speakerLabel m = Some (m, []))
  /\ (forall i t pre suf,
        nth_error (ScriptReader.split ScriptReader.speakerLabel displayedText)
          (2 * i) = Some t ->
        t = pre ++ suf -> ScriptReader.speakerLabel suf = None).
Proof.
  apply split_shape.
  - exact speakerLabel_sound.
  - exact speakerLabel_stable.
Qed.

Section SplitFuel.
Variable matchAt : jsstring -> option (jsstring * jsstring).
Hypothesis sound : forall s m r,
  matchAt s = Some (m, r) -> s = m ++ r /\ m <> [].

Lemma splitFrom_fuel (f1 f2 : nat) (cur s : jsstring) :
  length s <= f1 -> length s <= f2 ->
  ScriptReader.splitFrom matchAt f1 cur s
  = ScriptReader.splitFrom matchAt f2 cur s.
Proof.
  revert f2 cur s. induction f1 as [|f1 IH]; intros [|f2] cur [|c s] L1 L2;
    cbn [length] in L1, L2; try lia; cbn [ScriptReader.splitFrom];
    try reflexivity.
  destruct (matchAt (c :: s)) as [[m r]|] eqn:E.
  - pose proof (sound E) as [Es Hm].
    apply (f_equal (@length jschar)) in Es. rewrite length_app in Es.
    cbn [length] in Es. destruct m; [contradiction|]. cbn [length] in Es.
    do 2 f_equal. apply IH; lia.
  - apply IH; lia.
Qed.

Lemma split_match (s m rest : jsstring) :
  matchAt s = Some (m, rest) ->
  ScriptReader.split matchAt s = [] :: m :: ScriptReader.split matchAt rest.
Proof.
  intros E. unfold ScriptReader.split.
  pose proof (sound E) as [Es Hm].
  destruct s as [|c s]; [destruct m; [contradiction | discriminate]|].
  cbn [length ScriptReader.splitFrom]. rewrite E. do 2 f_equal.
  apply splitFrom_fuel; [|lia].
  apply (f_equal (@length jschar)) in Es. rewrite length_app in Es.
  cbn [length] in Es. destruct m; [contradiction|]. cbn [length] in Es. lia.
Qed.

End SplitFuel.

Lemma isDigit_cases (d : jschar) :
  isDigit d = true ->
  (d = 48 \/ d = 49 \/ d = 50 \/ d = 51 \/ d = 52 \/ d = 53 \/ d = 54
   \/ d = 55 \/ d = 56 \/ d = 57)%N.
Proof.
  unfold isDigit. intros H. apply Bool.andb_true_iff in H as [H1 H2].
  apply N.leb_le in H1, H2. lia.
Qed.

(** X19 ([ScriptReader], StreamingConsole.tsx lines 50-83).  How the labels
    that the split cuts out are styled: [Male] and [Female] with the digit 1
    or 2 and [Speaker] with a digit from 1 to 4 get a speaker class, [Host:]
    and [Guest:] too; a label with any other digit is cut out as well, and
    is shown as spoken text. *)
Theorem X19_labels_and_their_styles (d : jschar) :
  isDigit d = true ->
  let male := str "Male" ++ [32; d; 58]%N in
  let female := str "Female" ++ [32; d; 58]%N in
  let speaker := str "Speaker" ++ [32; d; 58]%N in
  ScriptReader.renderPart male
  = [if (d =? 49)%N then ScriptReader.SpeakerLabel ScriptReader.male_1 male
     else if (d =? 50)%N
          then ScriptReader.SpeakerLabel ScriptReader.male_2 male
          else ScriptReader.ScriptSpoken male]
  /\ ScriptReader.renderPart female
     = [if (d =? 49)%N
        then ScriptReader.SpeakerLabel ScriptReader.female_1 female
        else if (d =? 50)%N
             then ScriptReader.SpeakerLabel ScriptReader.female_2 female
             else ScriptReader.ScriptSpoken female]
  /\ ScriptReader.renderPart speaker
     = [if (d =? 49)%N
        then ScriptReader.SpeakerLabel ScriptReader.male_1 speaker
        else if (d =? 50)%N
        then ScriptReader.SpeakerLabel ScriptReader.female_1 speaker
        else if (d =? 51)%N
        then ScriptReader.SpeakerLabel ScriptReader.male_2 speaker
        else if (d =? 52)%N
        then ScriptReader.SpeakerLabel ScriptReader.female_2 speaker
        else ScriptReader.ScriptSpoken speaker]
  /\ ScriptReader.renderPart (str "Host:")
     = [ScriptReader.SpeakerLabel ScriptReader.male_1 (str "Host:")]
  /\ ScriptReader.renderPart (str "Guest:")
     = [ScriptReader.SpeakerLabel ScriptReader.female_1 (str "Guest:")].
Proof.
  intros Hd. apply isDigit_cases in Hd.
  repeat (destruct Hd as [-> | Hd]); try subst d;
    cbv zeta; repeat split; vm_compute; reflexivity.
Qed.

(** The label [Male 3:]. *)
Lemma X19_witness :
  ScriptReader.renderPart (str "Male 3:")
  = [ScriptReader.ScriptSpoken (str "Male 3:")].
Proof.
  exact (proj1 (@X19_labels_and_their_styles 51%N eq_refl)).
Defined.

Lemma forallb_weaken (A : Type) (f g : A -> bool) (l : list A) :
  (forall x, f x = true -> g x = true) ->
  forallb f l = true -> forallb g l = true.
Proof.
  intros H. rewrite !forallb_forall. auto.
Qed.

Lemma isDirection_match (m : jsstring) :
  ScriptReader.direction m = Some (m, []) ->
  ScriptReader.isDirection m = true.
Proof.
  intros H. apply direction_Some in H as (o & mid & c & -> & _ & Ho & Hc & H).
  cbn [ScriptReader.isDirection]. rewrite Ho, rev_app_distr. cbn [rev app].
  rewrite Hc, forallb_rev. cbn [andb].
  apply forallb_weaken with (2 := H). intros x Hx.
  apply Bool.andb_true_iff in Hx. tauto.
Qed.

Lemma lazyToCloser_finds (a : jsstring) (c : jschar) :
  forallb (fun x => negb (ScriptReader.isLineTerminator x)) a = true ->
  ScriptReader.isCloser c = true ->
  ScriptReader.lazyToCloser (a ++ [c]) <> None.
Proof.
  intros Ha Hc. induction a as [|y a IH]; cbn [app ScriptReader.lazyToCloser].
  - now rewrite Hc.
  - cbn [forallb] in Ha. apply Bool.andb_true_iff in Ha as [Hy Ha].
    apply Bool.negb_true_iff in Hy. rewrite Hy.
    destruct (ScriptReader.isCloser y); [discriminate|].
    specialize (IH Ha).
    destruct (ScriptReader.lazyToCloser (a ++ [c])) as [[m r]|];
      [discriminate | contradiction].
Qed.

Lemma isDirection_matches (t : jsstring) :
  ScriptReader.isDirection t = true -> ScriptReader.direction t <> None.
Proof.
  destruct t as [|o r]; cbn [ScriptReader.isDirection ScriptReader.direction];
    [discriminate|].
  intros H. apply Bool.andb_true_iff in H as [Ho H]. rewrite Ho.
  destruct (rev r) as [|c mid] eqn:E; [discriminate|].
  apply Bool.andb_true_iff in H as [Hc Hmid].
  assert (Er : r = rev mid ++ [c]).
  { rewrite <- (rev_involutive r), E. reflexivity. }
  rewrite <- forallb_rev in Hmid.
  pose proof (@lazyToCloser_finds _ c Hmid Hc) as F. rewrite <- Er in F.
  destruct (ScriptReader.lazyToCloser r) as [[m x]|];
    [discriminate | contradiction].
Qed.

(** X20 ([ScriptReader], StreamingConsole.tsx lines 72-79).  In the parts
    of a split at the stage directions, a part is styled as a direction
    exactly when it is one of those that the expression cut out, the parts
    at the odd places: such a part is an opening bracket, a text without
    closing bracket or line terminator, and a closing bracket.  No text
    between two of them passes for a direction. *)
Theorem X20_directions_are_the_bracketed_parts
  (part : jsstring) (i : nat) (sub : jsstring) :
  nth_error (ScriptReader.split ScriptReader.direction part) i = Some sub ->
  ScriptReader.isDirection sub = Nat.odd i
  /\ (Nat.odd i = true ->
      exists o mid c,
        sub = o :: mid ++ [c]
        /\ ScriptReader.isOpener o = true /\ ScriptReader.isCloser c = true
        /\ forallb (fun x => negb (ScriptReader.isCloser x)
                             && negb (ScriptReader.isLineTerminator x)) mid
           = true).
Proof.
  intros H.
  destruct (@split_shape ScriptReader.direction direction_sound
              direction_stable part) as (_ & _ & Hodd & Heven).
  destruct (Nat.odd i) eqn:O.
  - apply Nat.odd_spec in O as [k ->].
    pose proof (Hodd k sub H) as M. split.
    + now apply isDirection_match.
    + intros _. apply direction_Some in M as (o & mid & c & E & _ & R).
      now exists o, mid, c.
  - split; [|discriminate].
    rewrite <- Nat.negb_even in O. apply Bool.negb_false_iff in O.
    apply Nat.even_spec in O as [k ->].
    destruct (ScriptReader.isDirection sub) eqn:D; [|reflexivity].
    exfalso. apply (@isDirection_matches sub D).
    exact (Heven k sub [] sub H eq_refl).
Qed.

(** The part [(sighs) well] and its first direction. *)
Lemma X20_witness :
  ScriptReader.isDirection (str "(sighs)") = Nat.odd 1.
Proof.
  exact (proj1 (@X20_directions_are_the_bracketed_parts
                  (str "(sighs) well") 1 (str "(sighs)") eq_refl)).
Defined.

Lemma visible_trimStart (s : jsstring) :
  filter (fun c => negb (isWhiteSpace c)) (trimStart s)
  = filter (fun c => negb (isWhiteSpace c)) s.
Proof.
  induction s as [|c s IH]; cbn [trimStart filter]; [reflexivity|].
  destruct (isWhiteSpace c) eqn:E; cbn [negb filter]; [exact IH|].
  now rewrite E.
Qed.

Lemma filter_rev' (A : Type) (f : A -> bool) (l : list A) :
  filter f (rev l) = rev (filter f l).
Proof.
  induction l as [|x l IH]; cbn [rev filter]; [reflexivity|].
  rewrite filter_app, IH. cbn [filter].
  destruct (f x); cbn [rev]; [reflexivity | now rewrite app_nil_r].
Qed.

Lemma visible_trim (s : jsstring) :
  filter (fun c => negb (isWhiteSpace c)) (trim s)
  = filter (fun c => negb (isWhiteSpace c)) s.
Proof.
  unfold trim, trimEnd.
  rewrite filter_rev', visible_trimStart, filter_rev', rev_involutive.
  apply visible_trimStart.
Qed.

Lemma shown_renderPart (part : jsstring) :
  concat (List.map ScriptReader.shownText (ScriptReader.renderPart part))
  = match ScriptReader.classify (trim part) with
    | Some _ => trim part
    | None => part
    end.
Proof.
  unfold ScriptReader.renderPart.
  destruct (ScriptReader.classify (trim part)).
  - cbn. apply app_nil_r.
  - rewrite map_map.
    erewrite map_ext; [rewrite map_id|].
    + unfold ScriptReader.split. apply concat_splitFrom.
      exact direction_sound.
    + intros sub. now destruct (ScriptReader.isDirection sub).
Qed.

(** X21 ([ScriptReader], StreamingConsole.tsx lines 50-85).  The spans of a
    line show the displayed text and lose white space at most: without
    their white space, the texts of the spans in their order are the
    displayed text without its white space.  (White space goes where a
    part is shown trimmed as a speaker label.) *)
Theorem X21_render_shows_the_whole_text (displayedText : jsstring) :
  filter (fun c => negb (isWhiteSpace c))
    (concat (List.map ScriptReader.shownText
               (ScriptReader.render displayedText)))
  = filter (fun c => negb (isWhiteSpace c)) displayedText.
Proof.
  unfold ScriptReader.render.
  rewrite <- (concat_split_speakerLabel displayedText) at 2.
  induction (ScriptReader.split ScriptReader.speakerLabel displayedText)
    as [|part parts IH]; [reflexivity|].
  cbn [flat_map concat]. rewrite map_app, concat_app, !filter_app, IH.
  f_equal. rewrite shown_renderPart.
  destruct (ScriptReader.classify (trim part)); [|reflexivity].
  apply visible_trim.
Qed.

Lemma render_Male_1 (text : jsstring) :
  ScriptReader.render (str "Male 1: " ++ text)
  = ScriptReader.ScriptSpoken []
    :: ScriptReader.SpeakerLabel ScriptReader.male_1 (str "Male 1:")
    :: ScriptReader.render (32%N :: text).
Proof.
  unfold ScriptReader.render.
  rewrite (@split_match _ speakerLabel_sound (str "Male 1: " ++ text)
             (str "Male 1:") (32%N :: text) eq_refl).
  reflexivity.
Qed.

(** X22 ([diarizeAndTranslate], DatabaseBridge.tsx lines 60-83, and
    [ScriptReader], StreamingConsole.tsx lines 50-85).  When the diarization
    fails, by a throw, a response without text or a blank one, the script
    of the turn is rendered as the label [Male 1:] in the first male style,
    after one empty span, and then the source text as it is rendered after
    a space. *)
Theorem X22_failed_diarization_shows_male_1
  (answer : flashAnswer) (source : jsstring) :
  match answer with
  | FlashThrows => True
  | FlashText None => True
  | FlashText (Some t) => trim t = []
  end ->
  ScriptReader.render (diarizeAndTranslate answer source)
  = ScriptReader.ScriptSpoken []
    :: ScriptReader.SpeakerLabel ScriptReader.male_1 (str "Male 1:")
    :: ScriptReader.render (32%N :: source).
Proof.
  intros H. unfold diarizeAndTranslate.
  destruct answer as [|[t|]]; try apply render_Male_1.
  rewrite H. cbn [falsy]. apply render_Male_1.
Qed.

(** A blank answer of the model. *)
Lemma X22_witness :
  ScriptReader.render
    (diarizeAndTranslate (FlashText (Some (str "  "))) (str "hello"))
  = [ScriptReader.ScriptSpoken [];
     ScriptReader.SpeakerLabel ScriptReader.male_1 (str "Male 1:");
     ScriptReader.ScriptSpoken (str " hello")].
Proof.
  exact (@X22_failed_diarization_shows_male_1
           (FlashText (Some (str "  "))) (str "hello") eq_refl).
Defined.

(** X23 ([processNewData], part_001 lines 221-248; [addTurn], state.ts
    lines 205-208; [scriptTurns], StreamingConsole.tsx line 178).  Whatever
    updates arrive, the console gets one turn for each update that the gate
    accepts, in their order and after the turns it had: a final system turn
    that shows the text of the update, which is not empty, with the time of
    the call.  All of them pass the filter of the console, and nothing else
    is added to the log. *)
Theorem X23_console_shows_each_accepted_update_once
  (ToolCall ToolResponse Grounding : Type)
  (updates : list (Transcript * Z))
  (st : refs * list (Log.ConversationTurn ToolCall ToolResponse Grounding)) :
  exists accepted : list (Transcript * Z),
    let shown := fun u : Transcript * Z =>
      @Log.mkTurn ToolCall ToolResponse Grounding (snd u) Log.system
        (match full_transcript_text (fst u) with Some s => s | None => [] end)
        (full_transcript_text (fst u)) true None None None in
    snd (Log.ingest_v1 updates st) = snd st ++ List.map shown accepted
    /\ Log.scriptTurns (snd (Log.ingest_v1 updates st))
       = Log.scriptTurns (snd st) ++ List.map shown accepted
    /\ List.map (fun u => id (fst u)) accepted
       = fst (feed (List.map fst updates) (lastProcessedIdRef (fst st)))
    /\ Forall (fun u => In u updates
                        /\ exists source,
                             full_transcript_text (fst u) = Some source
                             /\ source <> [])
         accepted.
Proof.
  revert st. induction updates as [|[data now] rest IH]; intros [r turns].
  - exists []. cbn. rewrite !app_nil_r. repeat split. constructor.
  - cbn [Log.ingest_v1 List.map fst feed].
    unfold Log.processNewData_v1_shown, processNewData_v1. cbn [fst snd].
    destruct (gate data (lastProcessedIdRef r)) as [| |source] eqn:G.
    + destruct (IH (r, turns)) as (acc & H1 & H2 & H3 & H4).
      exists acc. cbn [fst snd] in *. repeat split; try assumption.
      eapply Forall_impl; [|exact H4]. cbn. intros u [Hu Hs]. tauto.
    + destruct (IH (r, turns)) as (acc & H1 & H2 & H3 & H4).
      exists acc. cbn [fst snd] in *. repeat split; try assumption.
      eapply Forall_impl; [|exact H4]. cbn. intros u [Hu Hs]. tauto.
    + apply gate_Accepted_inv in G as (Ht & Hne & _).
      destruct (enqueue (segmentText source) (segmentQueue r)
                  (paragraphCountRef r)) as [q n].
      cbn [fst snd].
      destruct (IH (mkRefs (Some (id data)) n q,
                    Log.addTurn (Log.rawTurn _ _ _ source) now turns))
        as (acc & H1 & H2 & H3 & H4).
      exists ((data, now) :: acc). cbn [fst snd lastProcessedIdRef] in *.
      destruct (feed (List.map fst rest) (Some (id data))) as [ids last'].
      cbn [fst] in *. cbn [List.map fst snd]. rewrite Ht.
      unfold Log.addTurn, Log.rawTurn in *.
      cbn [Log.new_role Log.new_text Log.new_sourceText Log.new_isFinal
           Log.new_toolUseRequest Log.new_toolUseResponse
           Log.new_groundingChunks] in *.
      rewrite <- app_assoc in H1. cbn [app] in H1.
      split; [exact H1|]. split; [|split].
      * rewrite H2. unfold Log.scriptTurns. rewrite filter_app.
        cbn [filter Log.role]. rewrite <- app_assoc. reflexivity.
      * now rewrite H3.
      * constructor.
        -- split; [now left|]. exists source. cbn [fst]. now split.
        -- eapply Forall_impl; [|exact H4]. cbn. intros u [Hu Hs]. tauto.
Qed.
